(** * Shallow embedding of sentimentanalysis.c

    The program loads a CSV file of labelled tweets, shuffles and splits it,
    turns every text into a row of [MAX_TOKENS] floats, runs one linear unit
    and a sigmoid over the rows and reports the accuracy of a thresholded
    prediction.

    Conventions of the embedding.
    - C [float] is IEEE binary32 and C [double] is IEEE binary64, both with
      round to nearest even; they are the instances [prec = 24, emax = 128]
      and [prec = 53, emax = 1024] of the Standard Library's [SpecFloat].
      Every operation rounds to its type: no fused multiply-add, no excess
      precision.
    - C [int] values are [Z]; C arrays are lists read and written by index
      (stdpp's [!!] and [<[i:=x]>]).
    - What [malloc] returns is not initialised: the contents of a new block
      are given by the [Platform], and a function that fills a buffer takes
      its previous contents as an argument.  [malloc] and [realloc] are
      taken to succeed, except that [malloc 0] may return a null pointer.
    - [rand], [expf], [RAND_MAX] and the signedness of plain [char] belong
      to the C implementation and are fields of the [Platform]; what
      [time(NULL)] returns is an argument.
    - The OpenACC pragmas, the NVTX ranges and the timing printouts do not
      change any computed value and are left out. *)

From Stdlib Require Import ZArith Lia Bool List.
From Stdlib.Strings Require Import Byte String.
From Stdlib Require Import Floats.SpecFloat.
From stdpp Require Import base tactics option list numbers.

Local Open Scope Z_scope.

(** ** IEEE arithmetic *)

(** C [float]. *)
Module F32.
Definition prec : Z := 24.
Definition emax : Z := 128.
Abbreviation t := spec_float (only parsing).
Definition add : t -> t -> t := SFadd prec emax.
Definition mul : t -> t -> t := SFmul prec emax.
Definition div : t -> t -> t := SFdiv prec emax.
Definition opp : t -> t := SFopp.
Definition ltb : t -> t -> bool := SFltb.
Definition leb : t -> t -> bool := SFleb.
Definition eqb : t -> t -> bool := SFeqb.
(** Conversion of an [int] to [float]. *)
Definition of_Z (n : Z) : t := binary_normalize prec emax n 0 false.
(** Conversion of any finite binary value (a [double], say) to [float]. *)
Definition of_float (x : spec_float) : t :=
  match x with
  | S754_finite s m e => binary_round prec emax s m e
  | _ => x
  end.
(** The decimal literal [n/d] written with an [f] suffix. *)
Definition literal (n d : Z) : t := div (of_Z n) (of_Z d).
Definition zero : t := S754_zero false.
Definition one : t := of_Z 1.
Definition valid (x : t) : bool := valid_binary prec emax x.
End F32.

(** C [double]. *)
Module F64.
Definition prec : Z := 53.
Definition emax : Z := 1024.
Abbreviation t := spec_float (only parsing).
Definition mul : t -> t -> t := SFmul prec emax.
Definition div : t -> t -> t := SFdiv prec emax.
Definition sqrt : t -> t := SFsqrt prec emax.
Definition of_Z (n : Z) : t := binary_normalize prec emax n 0 false.
(** Conversion of a [float] to [double]: exact, the significand is
    brought to 53 bits. *)
Definition of_float (x : spec_float) : t :=
  match x with
  | S754_finite s m e => binary_round prec emax s m e
  | _ => x
  end.
Definition literal (n d : Z) : t := div (of_Z n) (of_Z d).
(** Conversion [(int) x]: truncation toward zero.  The conversion of a
    NaN, an infinity or a value outside the range of [int] is undefined
    in C; the embedding returns the truncated value, and [0] for NaN and
    the infinities. *)
Definition to_Z (x : t) : Z :=
  match x with
  | S754_finite s m e =>
      let a := match e with
               | Zneg p => Z.shiftr (Zpos m) (Zpos p)
               | _ => Z.shiftl (Zpos m) e
               end in
      if s then - a else a
  | _ => 0
  end.
End F64.

(** ** Data *)

Definition MAX_TOKENS : nat := 1024.
Definition NUM_FEATURES : nat := 1024.

(** [typedef struct { char text[MAX_TOKENS]; int label; } Post;] *)
Record Post := mkPost { text : list byte; label : Z }.

(** [for (int i = 0; i < n; i++) body], on a state of type [S]. *)
Definition for_loop {S : Type} (n : nat) (body : nat -> S -> S) (s : S) : S :=
  foldl (fun s i => body i s) s (seq 0 n).

(** A read of [a[i]]; outside the array the C program has no defined
    behaviour and the embedding reads a NaN. *)
Definition read (a : list F32.t) (i : nat) : F32.t :=
  default S754_nan (a !! i).

(** [custom_strlen]: the number of bytes before the first ['\0'].  The C
    loop reads past the array when there is no terminator; the embedding
    stops at the end of the list. *)
Fixpoint custom_strlen (str : list byte) : nat :=
  match str with
  | [] => 0%nat
  | c :: rest => if Byte.eqb c x00 then 0%nat else S (custom_strlen rest)
  end.

(** ** The C implementation *)

(** What the program takes from the C implementation and from the machine
    it runs on. *)
Record Platform := mkPlatform {
  (** whether plain [char] is a signed type *)
  char_is_signed : bool;
  (** whether [malloc 0] returns a null pointer *)
  malloc_zero_is_null : bool;
  (** [RAND_MAX] *)
  RAND_MAX : Z;
  (** [prng seed k]: what the call number [k] of [rand] returns after
      [srand seed] *)
  prng : Z -> nat -> Z;
  (** [expf] of the mathematical library *)
  expf : F32.t -> F32.t;
  (** the contents of the block that [safe_malloc _ name] returns, for
      blocks of floats, of integers and of posts *)
  heap_float : string -> nat -> F32.t;
  heap_int : string -> nat -> Z;
  heap_post : string -> nat -> Post
}.

(** What the program prints, timing lines apart. *)
Inductive message :=
  | Starting
  | CouldNotOpenFile
  | AllocationFailed (name : string)
  | NoSamplesFound
  | Loaded (trainSize testSize : Z)
  | TrainingAccuracy (percent : F32.t)
  | TestAccuracy (percent : F32.t)
  | Completed.

(** A computation that may call [exit]: it ends the process with a
    status and the messages printed so far, or returns a value. *)
Inductive outcome (A : Type) :=
  | Exit (status : Z) (printed : list message)
  | Return (a : A).
Arguments Exit {A} status printed.
Arguments Return {A} a.

(** [safe_malloc]: a block of [n] elements, not initialised; the process
    exits with status 1 when [malloc] returns a null pointer, which the
    embedding lets happen for an empty block only. *)
Definition safe_malloc {A : Type} (P : Platform) (heap : string -> nat -> A)
    (n : nat) (name : string) : outcome (list A) :=
  if (n =? 0)%nat && malloc_zero_is_null P
  then Exit 1 [AllocationFailed name]
  else Return (map (heap name) (seq 0 n)).

(** ** shuffleDataset *)

(** [temp = dataset[i]; dataset[i] = dataset[j]; dataset[j] = temp] *)
Definition swap (dataset : list Post) (i j : nat) : list Post :=
  match dataset !! i, dataset !! j with
  | Some a, Some b => <[j := a]> (<[i := b]> dataset)
  | _, _ => dataset
  end.

(** [rand i] is the value of the call of [rand] in iteration [i]; [%] is
    C's remainder. *)
Definition shuffleDataset (rand : nat -> Z) (dataset : list Post)
    (num_samples : nat) : list Post :=
  for_loop num_samples
    (fun i d => swap d i (Z.to_nat (Z.rem (rand i) (Z.of_nat num_samples))))
    dataset.

(** ** loadDataset *)

(** A C string is the list of its bytes, terminator excluded. *)
Definition is_delim (delim : list byte) (c : byte) : bool :=
  existsb (Byte.eqb c) delim.

Fixpoint skip_delims (delim s : list byte) : list byte :=
  match s with
  | [] => []
  | c :: r => if is_delim delim c then skip_delims delim r else s
  end.

(** The token at the head of [s] and what follows its delimiter. *)
Fixpoint scan_token (delim s : list byte) : list byte * list byte :=
  match s with
  | [] => ([], [])
  | c :: r =>
      if is_delim delim c then ([], r)
      else let '(tok, rest) := scan_token delim r in (c :: tok, rest)
  end.

(** [strtok]: [s] is the string still to be scanned (the first argument
    of the first call, the saved pointer of the later ones); the result
    is the token, if there is one, and the new saved string. *)
Definition strtok (s delim : list byte) : option (list byte) * list byte :=
  match skip_delims delim s with
  | [] => (None, [])
  | s' => let '(tok, rest) := scan_token delim s' in (Some tok, rest)
  end.

Definition is_space (c : byte) : bool :=
  existsb (Byte.eqb c) [x20; x09; x0a; x0b; x0c; x0d].

Fixpoint skip_spaces (s : list byte) : list byte :=
  match s with
  | [] => []
  | c :: r => if is_space c then skip_spaces r else s
  end.

Fixpoint atoi_digits (acc : Z) (s : list byte) : Z :=
  match s with
  | [] => acc
  | c :: r =>
      let n := Z.of_N (Byte.to_N c) in
      if (48 <=? n) && (n <=? 57) then atoi_digits (10 * acc + (n - 48)) r
      else acc
  end.

(** [atoi]; a value outside the range of [int] has no defined result in C
    and is kept as it is here. *)
Definition atoi (s : list byte) : Z :=
  match skip_spaces s with
  | x2d :: r => - atoi_digits 0 r
  | x2b :: r => atoi_digits 0 r
  | r => atoi_digits 0 r
  end.

(** [strncpy(dst, token, MAX_TOKENS - 1); dst[MAX_TOKENS - 1] = '\0']: the
    whole buffer is written, zeros after the copied bytes. *)
Definition strncpy_text (token : list byte) : list byte :=
  let copied := take (MAX_TOKENS - 1) token in
  copied ++ replicate (MAX_TOKENS - length copied) x00.

Definition comma : list byte := [x2c].
Definition newline : list byte := [x0a].

(** The five [strtok] calls that follow the label: the result of the last
    one, the text. *)
Definition text_token (after_label : list byte) : option (list byte) :=
  let s := snd (strtok after_label comma) in
  let s := for_loop 3 (fun _ s => snd (strtok s comma)) s in
  fst (strtok s newline).

Section Load.
Variable P : Platform.

(** [if (count >= capacity) { capacity *= 2; realloc }]: the capacity of
    the array is its length, and what the new half holds is not
    initialised. *)
Definition reserve (dataset : list Post) (count : nat) : list Post :=
  if (length dataset <=? count)%nat
  then dataset ++ map (heap_post P "dataset") (seq (length dataset) (length dataset))
  else dataset.

(** One iteration of the [while (fgets ...)] loop on the array
    [dataset] holding [count] posts. *)
Definition load_line (st : list Post * nat) (line : list byte)
  : list Post * nat :=
  let '(dataset, count) := st in
  let dataset := reserve dataset count in
  match strtok line comma with
  | (None, _) => (dataset, count)
  | (Some token, rest) =>
      let dataset :=
        match dataset !! count with
        | Some p => <[count := mkPost (text p) (atoi token)]> dataset
        | None => dataset
        end in
      match text_token rest with
      | Some token =>
          (match dataset !! count with
           | Some p => <[count := mkPost (strncpy_text token) (label p)]> dataset
           | None => dataset
           end, S count)
      | None => (dataset, count)
      end
  end.

(** [file] is [None] when [fopen] fails, and otherwise the strings that
    the successive calls of [fgets] store. *)
Definition loadDataset (file : option (list (list byte)))
  : outcome (list Post * nat) :=
  match file with
  | None => Exit 1 [CouldNotOpenFile]
  | Some lines =>
      match safe_malloc P (heap_post P) 1000 "dataset" with
      | Exit c m => Exit c m
      | Return dataset => Return (foldl load_line (dataset, 0%nat) lines)
      end
  end.

(** ** loadAndSplitDataset *)

(** [(int)(num_samples * 0.7)] *)
Definition train_size (num_samples : Z) : Z :=
  F64.to_Z (F64.mul (F64.of_Z num_samples) (F64.literal 7 10)).

(** [for (i = 0; i < n; i++) dst[i] = src[off + i]] *)
Definition copy_posts (src : list Post) (off n : nat) (dst : list Post)
  : list Post :=
  for_loop n (fun i d => match src !! (off + i)%nat with
                         | Some p => <[i := p]> d
                         | None => d
                         end) dst.

Record split := mkSplit {
  trainSet : list Post; testSet : list Post;
  trainSize : Z; testSize : Z; num_samples : Z
}.

(** [now] is what [time(NULL)] returns in [shuffleDataset]. *)
Definition loadAndSplitDataset (file : option (list (list byte))) (now : Z)
  : outcome split :=
  match loadDataset file with
  | Exit c m => Exit c m
  | Return (dataset, count) =>
      let num_samples := Z.of_nat count in
      let dataset := shuffleDataset (prng P now) dataset count in
      let trainSize := train_size num_samples in
      let testSize := num_samples - trainSize in
      match safe_malloc P (heap_post P) (Z.to_nat trainSize) "trainSet" with
      | Exit c m => Exit c m
      | Return trainSet =>
          match safe_malloc P (heap_post P) (Z.to_nat testSize) "testSet" with
          | Exit c m => Exit c m
          | Return testSet =>
              Return (mkSplit
                        (copy_posts dataset 0 (Z.to_nat trainSize) trainSet)
                        (copy_posts dataset (Z.to_nat trainSize) (Z.to_nat testSize) testSet)
                        trainSize testSize num_samples)
          end
      end
  end.
End Load.

(** ** tokenizeAndEmbed *)

(** The value of a plain [char] holding byte [c], as an [int]: the byte's
    code where [char] is unsigned, its two's complement reading where
    [char] is signed. *)
Definition char_to_int (signed : bool) (c : byte) : Z :=
  let n := Z.of_N (Byte.to_N c) in
  if signed && (128 <=? n) then n - 256 else n.

Section Pipeline.
Variable P : Platform.

(** [(float)(dataset[i].text[j]) / 255.0f] *)
Definition embed_char (c : byte) : F32.t :=
  F32.div (F32.of_Z (char_to_int (char_is_signed P) c)) (F32.of_Z 255).

(** The inner loop for sample [i]. *)
Definition embed_row (txt : list byte) (i : nat) (token_ids : list F32.t)
  : list F32.t :=
  for_loop (custom_strlen txt)
    (fun j ids => match txt !! j with
                  | Some c => <[(i * MAX_TOKENS + j)%nat := embed_char c]> ids
                  | None => ids
                  end)
    token_ids.

(** [token_ids] is the buffer as the caller passes it. *)
Definition tokenizeAndEmbed (dataset : list Post) (token_ids : list F32.t)
    (num_samples : nat) : list F32.t :=
  for_loop num_samples
    (fun i ids => match dataset !! i with
                  | Some p => embed_row (text p) i ids
                  | None => ids
                  end)
    token_ids.

(** ** init_weights *)

(** [((float)rand() / RAND_MAX) * sqrt(2.0f / num_features)]: the
    quotients are [float], [sqrt] and the product are [double], the
    store converts to [float]. *)
Definition xavier (r : Z) (num_features : nat) : F32.t :=
  F32.of_float
    (F64.mul
       (F64.of_float (F32.div (F32.of_Z r) (F32.of_Z (RAND_MAX P))))
       (F64.sqrt (F64.of_float
                    (F32.div (F32.of_Z 2) (F32.of_Z (Z.of_nat num_features)))))).

Definition init_weights (rand : nat -> Z) (weights : list F32.t)
    (num_features : nat) : list F32.t :=
  for_loop (num_features * num_features)
    (fun i w => <[i := xavier (rand i) num_features]> w) weights.

(** ** denseLayer *)

(** [outputs[i] = biases[0]; for k: outputs[i] += inputs[i * E + k] * weights[k]] *)
Definition dense_row (inputs weights biases : list F32.t)
    (i embedding_size : nat) : F32.t :=
  for_loop embedding_size
    (fun k acc =>
       F32.add acc (F32.mul (read inputs (i * embedding_size + k)) (read weights k)))
    (read biases 0).

Definition denseLayer (inputs weights biases outputs : list F32.t)
    (num_samples embedding_size : nat) : list F32.t :=
  for_loop num_samples
    (fun i outs => <[i := dense_row inputs weights biases i embedding_size]> outs)
    outputs.

(** ** sigmoidActivation *)

(** [1.0f / (1.0f + expf(-x))] *)
Definition sigmoid (x : F32.t) : F32.t :=
  F32.div F32.one (F32.add F32.one (expf P (F32.opp x))).

Definition sigmoidActivation (outputs : list F32.t) (size : nat)
  : list F32.t :=
  for_loop size (fun i outs => <[i := sigmoid (read outs i)]> outs) outputs.
End Pipeline.

(** Entry [j] of row [i] of a flat matrix of rows of [MAX_TOKENS] cells. *)
Definition cell (m : list F32.t) (i j : nat) : option F32.t :=
  m !! (i * MAX_TOKENS + j)%nat.

(** ** evaluate *)

(** The literal [0.6f]. *)
Definition threshold : F32.t := F32.literal 6 10.

(** [outputs[i] > 0.6f ? 4 : 0] *)
Definition predicted_label (output : F32.t) : Z :=
  if F32.ltb threshold output then 4 else 0.

(** The body of the loop: [if (predicted_label == labels[i]) correct++].
    A label read outside the array, which C does not define, reads 0. *)
Definition count_step (outputs : list F32.t) (labels : list Z) (i : nat)
    (correct : Z) : Z :=
  if predicted_label (read outputs i) =? default 0 (labels !! i)
  then correct + 1 else correct.

(** The number of correct predictions after the loop. *)
Definition correct_count (outputs : list F32.t) (labels : list Z)
    (num_samples : nat) : Z :=
  for_loop num_samples (count_step outputs labels) 0.

(** [return (float)correct / num_samples] *)
Definition evaluate (outputs : list F32.t) (labels : list Z)
    (num_samples : nat) : F32.t :=
  F32.div (F32.of_Z (correct_count outputs labels num_samples))
          (F32.of_Z (Z.of_nat num_samples)).

(** ** main *)

Section Main.
Variable P : Platform.

(** [labels[i] = set[i].label] into a fresh block. *)
Definition copy_labels (set : list Post) (n : nat) (labels : list Z)
  : list Z :=
  for_loop n (fun i l => match set !! i with
                         | Some p => <[i := label p]> l
                         | None => l
                         end) labels.

(** Tokenize, score, activate and evaluate one split with the given
    parameters; [ids] and [outs] are the blocks allocated for it. *)
Definition forward (set : list Post) (labels : list Z) (size : nat)
    (ids weights biases outs : list F32.t) : F32.t :=
  let ids := tokenizeAndEmbed P set ids size in
  let outs := denseLayer ids weights biases outs size NUM_FEATURES in
  let outs := sigmoidActivation P outs size in
  evaluate outs labels size.

Definition hundred : F32.t := F32.of_Z 100.

(** Blocks that [safe_malloc] returns in [main] are never empty when
    they are reached, so the allocations are written as the blocks. *)
Definition block (name : string) (n : nat) : list F32.t :=
  map (heap_float P name) (seq 0 n).

(** [file], [now1] and [now2] are the input file and what [time(NULL)]
    returns in [shuffleDataset] and in [main]; the result is the exit
    status and what was printed. *)
Definition main (file : option (list (list byte))) (now1 now2 : Z)
  : Z * list message :=
  match loadAndSplitDataset P file now1 with
  | Exit c m => (c, Starting :: m)
  | Return s =>
      if (trainSize s =? 0) || (testSize s =? 0)
      then (1, [Starting; NoSamplesFound])
      else
        let ntrain := Z.to_nat (trainSize s) in
        let ntest := Z.to_nat (testSize s) in
        let trainLabels := copy_labels (trainSet s) ntrain
                             (map (heap_int P "trainLabels") (seq 0 ntrain)) in
        let trainTokenIds := block "trainTokenIds" (ntrain * MAX_TOKENS) in
        let trainWeights := block "trainWeights" (NUM_FEATURES * NUM_FEATURES) in
        let trainBiases := block "trainBiases" NUM_FEATURES in
        let trainOutputs := block "trainOutputs" (ntrain * NUM_FEATURES) in
        let trainWeights := init_weights P (prng P now2) trainWeights NUM_FEATURES in
        let trainBiases := for_loop NUM_FEATURES
                             (fun i b => <[i := F32.zero]> b) trainBiases in
        let accuracy := forward (trainSet s) trainLabels ntrain
                          trainTokenIds trainWeights trainBiases trainOutputs in
        let testLabels := copy_labels (testSet s) ntest
                            (map (heap_int P "testLabels") (seq 0 ntest)) in
        let testTokenIds := block "testTokenIds" (ntest * MAX_TOKENS) in
        let testOutputs := block "testOutputs" (ntest * NUM_FEATURES) in
        let testAccuracy := forward (testSet s) testLabels ntest
                              testTokenIds trainWeights trainBiases testOutputs in
        (0, [Starting; Loaded (trainSize s) (testSize s);
             TrainingAccuracy (F32.mul accuracy hundred);
             TestAccuracy (F32.mul testAccuracy hundred);
             Completed])
  end.
End Main.

(** ** The notions of the specification *)

(** The code of a byte, [ord]. *)
Definition ord (c : byte) : Z := Z.of_N (Byte.to_N c).

(** [0 <= x <= 1] on floats. *)
Definition in_unit_interval (x : F32.t) : bool :=
  F32.leb F32.zero x && F32.leb x F32.one.

(** A float that is a zero, a positive number or the positive
    infinity. *)
Definition nonneg_float (x : spec_float) : Prop :=
  match x with
  | S754_zero _ | S754_finite false _ _ | S754_infinity false => True
  | _ => False
  end.

(** Texts that fit their rows, as those that [loadDataset] stores do: the
    rows of the matrix do not overlap. *)
Definition rows_fit (dataset : list Post) : Prop :=
  forall i p, dataset !! i = Some p -> (custom_strlen (text p) <= MAX_TOKENS)%nat.

(** A line has its text field when [loadDataset] finds both the label
    token and the text token in it. *)
Definition has_text (line : list byte) : bool :=
  match strtok line comma with
  | (Some _, rest) => bool_decide (is_Some (text_token rest))
  | (None, _) => false
  end.

(** The scorer as the specification writes it: starting from the bias,
    the products of the entries of a row and the weights are added from
    [k = 0] upward. *)
Fixpoint weighted_sum (acc : F32.t) (row weights : list F32.t) : F32.t :=
  match row, weights with
  | x :: row, w :: weights => weighted_sum (F32.add acc (F32.mul x w)) row weights
  | _, _ => acc
  end.

(** Row [i] of a flat matrix with rows of [D] cells. *)
Definition matrix_row (matrix : list F32.t) (D i : nat) : list F32.t :=
  take D (drop (i * D) matrix).

Definition score (matrix weights : list F32.t) (bias : F32.t) (D i : nat)
  : F32.t :=
  weighted_sum bias (matrix_row matrix D i) (take D weights).

(** [1.0f / (1.0f + e)], the activation as a function of what [expf]
    returned. *)
Definition activation (e : F32.t) : F32.t :=
  F32.div F32.one (F32.add F32.one e).

(** The accuracy as the specification writes it: the number of samples
    whose predicted label is their label. *)
Definition matches (outputs : list F32.t) (labels : list Z) : nat :=
  length (filter (fun ol => bool_decide (predicted_label ol.1 = ol.2))
                 (zip outputs labels)).

(** The labels that a prediction can be equal to. *)
Definition creditable (l : Z) : bool := (l =? 0) || (l =? 4).

(** The messages that report an accuracy. *)
Definition reports_accuracy (m : message) : bool :=
  match m with
  | TrainingAccuracy _ | TestAccuracy _ => true
  | _ => false
  end.

(** ** Sample data *)

(** A stand-in for [expf] in the examples: 2 to the integer part of
    [x * log2 e], which is within a factor 2 of the exponential of [x]
    and, like it, overflows to the infinity and underflows to zero. *)
Definition expf_standin (x : F32.t) : F32.t :=
  match x with
  | S754_nan => S754_nan
  | S754_infinity s => if s then S754_zero false else x
  | _ => SFldexp F32.prec F32.emax F32.one
           (F64.to_Z (F64.of_float (F32.mul x (F32.literal 14427 10000))))
  end.

(** A C implementation for the examples: plain [char] is signed and
    [malloc 0] is not null, as with the GNU C library on x86-64; [rand]
    steps through a small sequence; [expf] is the stand-in; the blocks
    that [malloc] returns hold ones, and posts labelled -1. *)
Definition sample_platform : Platform :=
  mkPlatform true false 2147483647
    (fun seed k => (seed + Z.of_nat k) * 7)
    expf_standin
    (fun _ _ => F32.one) (fun _ _ => -1) (fun _ _ => mkPost [] (-1)).

(** The lines of a small file: a full record, a record cut after its
    fourth field, and another full record. *)
Definition line_of (s : string) : list byte := list_byte_of_string s ++ newline.
Definition good_line_1 : list byte := line_of "4,1467810369,Mon Apr 06,NO_QUERY,someone,great day".
Definition cut_line : list byte := line_of "0,1467810672,Mon Apr 06,NO_QUERY".
Definition good_line_2 : list byte := line_of "0,1467810917,Mon Apr 06,NO_QUERY,other,terrible day".
Definition sample_file : list (list byte) := [good_line_1; cut_line; good_line_2].

(** A post as [loadDataset] stores it. *)
Definition post_of (s : string) (l : Z) : Post :=
  mkPost (strncpy_text (list_byte_of_string s)) l.

(** The post with text "ab", and a post whose text is the two bytes of
    the UTF-8 encoding of e with an acute accent. *)
Definition post_ab : Post := post_of "ab" 4.
Definition post_accent : Post := mkPost (strncpy_text [xc3; xa9]) 0.

(** A block for one row as [malloc] may return it, and the same block
    filled with zeros. *)
Definition dirty_row : list F32.t := replicate MAX_TOKENS F32.one.
Definition zeroed_row : list F32.t := replicate MAX_TOKENS F32.zero.

(** Three posts told apart by their labels, and the results of
    [shuffleDataset] on them for each of the 27 sequences of indices
    [rand() % 3] that the three iterations can draw. *)
Definition three_posts : list Post := [mkPost [] 0; mkPost [] 1; mkPost [] 2].

Definition index_draws : list (list Z) :=
  a ← [0; 1; 2]; b ← [0; 1; 2]; c ← [0; 1; 2]; [[a; b; c]].

Definition shuffle_outcomes : list (list Z) :=
  map (fun rs => map label (shuffleDataset (fun i => nth i rs 0) three_posts 3))
      index_draws.

(** How many of the 27 equally likely draws end in the order [order]. *)
Definition outcome_count (order : list Z) : nat :=
  length (filter (fun o => bool_decide (o = order)) shuffle_outcomes).

(** A matrix of two rows of two cells, two weights, one bias slot and an
    output block of two slots, for the scorer. *)
Definition sample_inputs : list F32.t :=
  [F32.one; F32.of_Z 2; F32.of_Z 3; F32.of_Z 4].
Definition sample_weights : list F32.t := [F32.literal 1 2; F32.literal 1 4].
Definition sample_biases : list F32.t := [F32.one].
Definition sample_block : list F32.t := [S754_nan; S754_nan].

(** Two inputs of the activation, and one that saturates it. *)
Definition f_one : F32.t := F32.of_Z 1.
Definition f_two : F32.t := F32.of_Z 2.
Definition f_twenty : F32.t := F32.of_Z 20.

(** Three activated outputs and their labels, for the evaluator. *)
Definition sample_outputs : list F32.t :=
  [F32.literal 9 10; F32.literal 1 10; F32.literal 7 10].
Definition sample_labels : list Z := [4; 0; 1].

(** ** Notions of the proofs *)

(** The state of the loading loop is well sized: the array is not empty
    and holds the posts counted so far. *)
Definition well_sized (st : list Post * nat) : Prop :=
  (0 < length st.1)%nat /\ (st.2 <= length st.1)%nat.

(** Two states of the loading loop that differ only in the capacity
    reserved for the next post and in the label left in its slot. *)
Definition similar (P : Platform) (st st' : list Post * nat) : Prop :=
  st.2 = st'.2 /\
  length (reserve P st.1 st.2) = length (reserve P st'.1 st.2) /\
  (forall k, k <> st.2 -> reserve P st.1 st.2 !! k = reserve P st'.1 st.2 !! k) /\
  text <$> (reserve P st.1 st.2 !! st.2) = text <$> (reserve P st'.1 st.2 !! st.2).

(** The texts of the posts fill their buffers. *)
Definition full_texts (posts : list Post) : Prop :=
  Forall (fun p => length (text p) = MAX_TOKENS) posts.

(** The position of [R / D] in [[0, 1)]: at 0, below the middle, at the
    middle or above it. *)
Definition loc_of (D R : Z) : location :=
  if R =? 0 then loc_Exact else loc_Inexact (Z.compare (2 * R) D).

(** A record of the shift-right procedure stands for the fraction [N / D]:
    it holds the integer part and the position of the rest. *)
Definition stands_for (N D : Z) (mrs : shr_record) : Prop :=
  shr_m mrs = N / D /\ loc_of_shr_record mrs = loc_of D (N mod D).

(** [N / D] rounded to the nearest integer, ties to even. *)
Definition nearest_even (N D : Z) : Z :=
  round_nearest_even (N / D) (loc_of D (N mod D)).

Section RoundingDefs.
Variables prec emax : Z.

(** A nonnegative value is given as [N / D * 2 ^ ex].  It is rounded at
    the exponent [rexp], to the significand [rmant]. *)
Definition rexp (N D ex : Z) : Z := fexp prec emax (Zdigits2 (N / D) + ex).

Definition rmant (N D ex : Z) : Z :=
  nearest_even N (D * 2 ^ (rexp N D ex - ex)).

(** The value is given with enough digits for the rounding to be done
    by a shift to the right. *)
Definition roundable (N D ex : Z) : Prop :=
  0 <= N /\ 0 < D /\ ex <= rexp N D ex.

(** The float of significand [m] and exponent [e], when [m] has at most
    one digit too many. *)
Definition encode (s : bool) (m e : Z) : spec_float :=
  let '(mrs, e') := shr_fexp prec emax m e loc_Exact in
  match shr_m mrs with
  | Z0 => S754_zero s
  | Zpos p => if e' <=? emax - prec then S754_finite s p e' else S754_infinity s
  | Zneg _ => S754_nan
  end.

(** A rounded significand and its exponent. *)
Definition rounded (m e : Z) : Prop :=
  0 <= m <= 2 ^ prec /\ emin prec emax <= e /\
  (emin prec emax < e -> 2 ^ (prec - 1) <= m).

(** [N / D * 2 ^ ex <= N' / D' * 2 ^ ex'], both sides scaled by
    [2 ^ (- c)]. *)
Definition value_le (c N D ex N' D' ex' : Z) : Prop :=
  N * D' * 2 ^ (ex - c) <= N' * D * 2 ^ (ex' - c).
End RoundingDefs.

(** A float that is the positive infinity or a valid positive finite
    float. *)
Definition positive_float (u : F32.t) : Prop :=
  u = S754_infinity false \/
  exists m e, u = S754_finite false m e /\
              canonical_mantissa F32.prec F32.emax m e = true.

(** [2 ^ -24], half the distance from 1 to the next float. *)
Definition half_ulp_one : F32.t := S754_finite false 8388608 (-47).

(** ** Notions of the further properties *)

(** The post that one iteration of the loop of [loadDataset] stores for
    a line, when it stores one: the label of the first token and the text
    of the sixth. *)
Definition parse_line (line : list byte) : option Post :=
  match strtok line comma with
  | (Some token, rest) =>
      match text_token rest with
      | Some txt => Some (mkPost (strncpy_text txt) (atoi token))
      | None => None
      end
  | (None, _) => None
  end.

(** The number of commas of a line. *)
Definition commas (line : list byte) : nat :=
  length (filter (fun c => Byte.eqb c x2c) line).

(** A field of a record: not empty and without comma. *)
Definition field (f : list byte) : Prop := f <> [] /\ x2c ∉ f.

(** The line of a record of six fields. *)
Definition record_line (lab f2 f3 f4 f5 txt : list byte) : list byte :=
  lab ++ x2c :: f2 ++ x2c :: f3 ++ x2c :: f4 ++ x2c :: f5 ++ x2c :: txt ++ [x0a].

(** The bytes of a buffer read as a C string. *)
Definition c_string (buf : list byte) : list byte :=
  take (custom_strlen buf) buf.

(** The capacity of the array of [loadDataset] and the number of posts
    in it: the posts fit, the capacity is the initial one doubled some
    number of times, and it was doubled only when the array was full. *)
Definition capacity_ok (st : list Post * nat) : Prop :=
  (st.2 <= length st.1)%nat /\
  (exists k : nat, length st.1 = 1000 * 2 ^ k)%nat /\
  (length st.1 = 1000 \/ length st.1 <= 2 * st.2)%nat.

(** A byte with which no number starts: not a digit, a sign or a blank. *)
Definition starts_no_number (c : byte) : Prop :=
  is_space c = false /\ c <> x2d /\ c <> x2b /\ ~ (48 <= Z.of_N (Byte.to_N c) <= 57).

(** The fields of a record whose text holds a comma. *)
Definition sample_label : list byte := list_byte_of_string "4".
Definition sample_id : list byte := list_byte_of_string "1467810369".
Definition sample_date : list byte := list_byte_of_string "Mon Apr 06".
Definition sample_query : list byte := list_byte_of_string "NO_QUERY".
Definition sample_user : list byte := list_byte_of_string "someone".
Definition sample_text : list byte := list_byte_of_string "great, great day".

(** A label field written between quotes. *)
Definition quoted_label : list byte := [x22; x34; x22].

(** ** The loops marked as parallel *)

(** The iterations of a loop run one after the other in the order
    [order]; [for_loop n] is the order [0, 1, ..., n - 1]. *)
Definition run_in_order {S : Type} (order : list nat) (body : nat -> S -> S)
    (s : S) : S :=
  foldl (fun s i => body i s) s order.

(** The iterations of the outer loops of [tokenizeAndEmbed], [denseLayer]
    and [sigmoidActivation]. *)
Definition tokenize_iteration (P : Platform) (dataset : list Post) (i : nat)
    (ids : list F32.t) : list F32.t :=
  match dataset !! i with
  | Some p => embed_row P (text p) i ids
  | None => ids
  end.

Definition dense_iteration (inputs weights biases : list F32.t)
    (embedding_size i : nat) (outs : list F32.t) : list F32.t :=
  <[i := dense_row inputs weights biases i embedding_size]> outs.

Definition sigmoid_iteration (P : Platform) (i : nat) (outs : list F32.t)
  : list F32.t :=
  <[i := sigmoid P (read outs i)]> outs.

(** What [loadAndSplitDataset] returns for a file that opens, in terms of
    the posts of its lines: [zero_null] tells whether [malloc 0] is null
    and [rand] gives the values of [rand] in [shuffleDataset]. *)
Definition split_of (zero_null : bool) (rand : nat -> Z)
    (lines : list (list byte)) : outcome split :=
  let posts := omap parse_line lines in
  let N := Z.of_nat (length posts) in
  let shuffled := shuffleDataset rand posts (length posts) in
  let t := train_size N in
  let u := N - t in
  if (Z.to_nat t =? 0)%nat && zero_null then Exit 1 [AllocationFailed "trainSet"]
  else if (Z.to_nat u =? 0)%nat && zero_null then Exit 1 [AllocationFailed "testSet"]
  else Return (mkSplit (take (Z.to_nat t) shuffled) (drop (Z.to_nat t) shuffled)
                 t u N).

(** The C implementation [P] with other contents in the blocks that
    [malloc] returns. *)
Definition with_heap (P : Platform) (hf : string -> nat -> F32.t)
    (hi : string -> nat -> Z) (hp : string -> nat -> Post) : Platform :=
  mkPlatform (char_is_signed P) (malloc_zero_is_null P) (RAND_MAX P) (prng P)
    (expf P) hf hi hp.

(** Blocks of floats that hold ones where the token identifiers are
    stored and NaN elsewhere. *)
Definition other_floats (name : string) : nat -> F32.t :=
  if (String.eqb name "trainTokenIds" || String.eqb name "testTokenIds")%bool
  then fun _ => F32.one else fun _ => S754_nan.

(** The factor [sqrt(2.0f / NUM_FEATURES)] of the initial weights, as a
    [double] and converted to [float]. *)
Definition xavier_scale : F64.t :=
  F64.sqrt (F64.of_float (F32.div (F32.of_Z 2) (F32.of_Z (Z.of_nat NUM_FEATURES)))).

Definition xavier_bound : F32.t := F32.of_float xavier_scale.

(** The 256 bytes. *)
Definition all_bytes : list byte :=
  omap (fun n => Byte.of_N (N.of_nat n)) (seq 0 256).

(** The same float: the same class, sign, significand and exponent. *)
Definition float_eqb (x y : spec_float) : bool :=
  match x, y with
  | S754_zero s, S754_zero s' => Bool.eqb s s'
  | S754_infinity s, S754_infinity s' => Bool.eqb s s'
  | S754_nan, S754_nan => true
  | S754_finite s m e, S754_finite s' m' e' =>
      Bool.eqb s s' && Pos.eqb m m' && Z.eqb e e'
  | _, _ => false
  end.

(** [(float)c / 255.0f] for a plain [char] of the given signedness. *)
Definition embed_value (signed : bool) (c : byte) : F32.t :=
  F32.div (F32.of_Z (char_to_int signed c)) (F32.of_Z 255).

(** No two different bytes of the list have the same image. *)
Definition injective_on (f : byte -> spec_float) (l : list byte) : bool :=
  let images := map (fun c => (c, f c)) l in
  forallb (fun p => forallb (fun q => implb (float_eqb p.2 q.2) (Byte.eqb p.1 q.1))
                      images) images.

(** The largest value of [expf(-x)] for which the activation is above
    the threshold, and the float that follows it: about two thirds. *)
Definition positive_limit : F32.t := S754_finite false 11184809 (-24).
Definition above_limit : F32.t := S754_finite false 11184810 (-24).

(** ** Tactics *)

(** None of the listed messages reports an accuracy. *)
Ltac no_accuracy Hin Hacc :=
  repeat (apply elem_of_cons in Hin as [->|Hin]; [discriminate Hacc|]);
  by apply elem_of_nil in Hin.

(** * Properties of the arithmetic *)
Lemma digits2_pos_size (p : positive) : digits2_pos p = Pos.size p.
Proof. induction p; simpl; congruence. Qed.

Lemma Zdigits2_log2 (n : Z) : 0 < n -> Zdigits2 n = Z.log2 n + 1.
Proof.
  destruct n as [|p|p]; try lia. intros _. simpl. rewrite digits2_pos_size.
  destruct p; simpl; lia.
Qed.

Lemma Zdigits2_bounds (n : Z) :
  0 < n -> 2 ^ (Zdigits2 n - 1) <= n < 2 ^ Zdigits2 n.
Proof.
  intros H. rewrite Zdigits2_log2 by lia.
  replace (Z.log2 n + 1 - 1) with (Z.log2 n) by lia.
  apply Z.log2_spec. lia.
Qed.

Lemma Zdigits2_unique (n d : Z) :
  2 ^ (d - 1) <= n < 2 ^ d -> 0 < d -> Zdigits2 n = d.
Proof.
  intros H Hd. assert (0 < n) by (pose proof (Z.pow_pos_nonneg 2 (d - 1)); lia).
  rewrite Zdigits2_log2 by lia.
  rewrite (Z.log2_unique n (d - 1)); [lia|lia|].
  replace (Z.succ (d - 1)) with d by lia. exact H.
Qed.

Lemma Zdigits2_nonneg (n : Z) : 0 <= Zdigits2 n.
Proof. destruct n; simpl; lia. Qed.

Lemma Zdigits2_pos (n : Z) : 0 < n -> 0 < Zdigits2 n.
Proof. destruct n; simpl; lia. Qed.

Lemma Zdigits2_mul_pow2 (n k : Z) :
  0 < n -> 0 <= k -> Zdigits2 (n * 2 ^ k) = Zdigits2 n + k.
Proof.
  intros Hn Hk. assert (0 < 2 ^ k) by (apply Z.pow_pos_nonneg; lia).
  rewrite !Zdigits2_log2 by nia. rewrite Z.log2_mul_pow2 by lia. lia.
Qed.

(** ** The shift-right procedure *)

Lemma shr_1_fields (m : Z) (r s : bool) :
  0 <= m ->
  shr_1 (Build_shr_record m r s) = Build_shr_record (m / 2) (Z.odd m) (r || s).
Proof.
  intros Hm. destruct m as [|[p|p|]|]; try lia; try reflexivity.
  - simpl shr_1. f_equal.
    apply (Z.div_unique (Zpos p~1) 2 (Zpos p) 1); lia.
  - simpl shr_1. f_equal.
    apply (Z.div_unique (Zpos p~0) 2 (Zpos p) 0); lia.
Qed.

Lemma div_mod_double (N D : Z) :
  0 <= N -> 0 < D ->
  N / (2 * D) = N / D / 2 /\
  N mod (2 * D) = (if Z.odd (N / D) then D else 0) + N mod D.
Proof.
  intros HN HD.
  pose proof (Z.div_mod N D ltac:(lia)) as E.
  pose proof (Z.mod_pos_bound N D HD) as B.
  pose proof (Z.div_pos N D HN HD) as Q.
  set (q := N / D) in *. set (R := N mod D) in *.
  pose proof (Z.div_mod q 2 ltac:(lia)) as E2.
  pose proof (Z.mod_pos_bound q 2 ltac:(lia)) as B2.
  assert (Z.odd q = (q mod 2 =? 1)) as Hodd.
  { rewrite Zmod_odd. destruct (Z.odd q); reflexivity. }
  assert (N = 2 * D * (q / 2) + ((if Z.odd q then D else 0) + R)) as EN.
  { rewrite Hodd. destruct (Z.eqb_spec (q mod 2) 1); nia. }
  assert (0 <= (if Z.odd q then D else 0) + R < 2 * D) as BN.
  { destruct (Z.odd q); lia. }
  split.
  - symmetry. apply (Z.div_unique_pos N (2 * D) (q / 2) _ BN EN).
  - symmetry. apply (Z.mod_unique_pos N (2 * D) (q / 2) _ BN EN).
Qed.

Lemma shr_1_stands_for (N D : Z) (mrs : shr_record) :
  0 <= N -> 0 < D -> stands_for N D mrs -> stands_for N (2 * D) (shr_1 mrs).
Proof.
  intros HN HD [Hm Hl]. destruct mrs as [m r s]. simpl in Hm. subst m.
  pose proof (Z.div_pos N D HN HD) as Q.
  rewrite shr_1_fields by lia.
  destruct (div_mod_double N D HN HD) as [Ediv Emod].
  pose proof (Z.mod_pos_bound N D HD) as B.
  split; [simpl; lia|]. rewrite Emod.
  unfold loc_of in *. simpl in Hl. simpl.
  destruct (Z.odd (N / D)); destruct (Z.eqb_spec (N mod D) 0) as [E0|E0].
  - rewrite E0. replace (D + 0 =? 0) with false by (symmetry; apply Z.eqb_neq; lia).
    replace (2 * (D + 0) ?= 2 * D) with Eq by (symmetry; apply Z.compare_eq_iff; lia).
    destruct r, s; simpl in *; congruence.
  - replace (D + N mod D =? 0) with false by (symmetry; apply Z.eqb_neq; lia).
    replace (2 * (D + N mod D) ?= 2 * D) with Gt by (symmetry; apply Z.compare_gt_iff; lia).
    destruct r, s; simpl in *; congruence.
  - rewrite E0. simpl. destruct r, s; simpl in *; congruence.
  - replace (0 + N mod D =? 0) with false by (symmetry; apply Z.eqb_neq; lia).
    replace (2 * (0 + N mod D) ?= 2 * D) with Lt by (symmetry; apply Z.compare_lt_iff; lia).
    destruct r, s; simpl in *; congruence.
Qed.

Lemma iter_pos_nat {A : Type} (f : A -> A) (p : positive) (x : A) :
  SpecFloat.iter_pos f p x = Nat.iter (Pos.to_nat p) f x.
Proof.
  revert x. induction p as [p IH|p IH|]; intros x.
  - change (SpecFloat.iter_pos f p~1 x)
      with (SpecFloat.iter_pos f p (SpecFloat.iter_pos f p (f x))).
    rewrite !IH, Pos2Nat.inj_xI, Nat.iter_succ_r.
    replace (2 * Pos.to_nat p)%nat with (Pos.to_nat p + Pos.to_nat p)%nat by lia.
    rewrite Nat.iter_add. reflexivity.
  - change (SpecFloat.iter_pos f p~0 x)
      with (SpecFloat.iter_pos f p (SpecFloat.iter_pos f p x)).
    rewrite !IH, Pos2Nat.inj_xO.
    replace (2 * Pos.to_nat p)%nat with (Pos.to_nat p + Pos.to_nat p)%nat by lia.
    rewrite Nat.iter_add. reflexivity.
  - reflexivity.
Qed.

Lemma iter_shr_1_stands_for (N D : Z) (mrs : shr_record) (n : nat) :
  0 <= N -> 0 < D -> stands_for N D mrs ->
  stands_for N (D * 2 ^ Z.of_nat n) (Nat.iter n shr_1 mrs).
Proof.
  intros HN HD H. induction n as [|n IH].
  - change (Z.of_nat 0) with 0. rewrite Z.pow_0_r, Z.mul_1_r. exact H.
  - rewrite Nat2Z.inj_succ, Z.pow_succ_r by lia. cbn [Nat.iter nat_rect].
    replace (D * (2 * 2 ^ Z.of_nat n)) with (2 * (D * 2 ^ Z.of_nat n)) by lia.
    apply shr_1_stands_for; [lia| |exact IH].
    pose proof (Z.pow_pos_nonneg 2 (Z.of_nat n)). nia.
Qed.

Lemma shr_stands_for (N D : Z) (mrs : shr_record) (e n : Z) :
  0 <= N -> 0 < D -> stands_for N D mrs ->
  stands_for N (D * 2 ^ Z.max 0 n) (fst (shr mrs e n)) /\
  snd (shr mrs e n) = e + Z.max 0 n.
Proof.
  intros HN HD H. destruct n as [|p|p]; unfold shr; cbn [fst snd].
  - rewrite Z.max_l, Z.pow_0_r, Z.mul_1_r by lia. split; [exact H|lia].
  - rewrite Z.max_r by lia. split; [|reflexivity]. rewrite iter_pos_nat.
    rewrite <- (positive_nat_Z p) at 1. by apply iter_shr_1_stands_for.
  - rewrite Z.max_l, Z.pow_0_r, Z.mul_1_r by lia. split; [exact H|lia].
Qed.

Lemma record_of_loc_stands_for (N D : Z) :
  stands_for N D (shr_record_of_loc (N / D) (loc_of D (N mod D))).
Proof.
  unfold stands_for. destruct (loc_of D (N mod D)) as [|[| |]]; simpl; auto.
Qed.



Section Rounding.
Variables prec emax : Z.
Hypothesis Hprec : 0 < prec.
Hypothesis Hemax : prec < emax.

Abbreviation emin := (emin prec emax).
Abbreviation fexp := (fexp prec emax).

Lemma fexp_ge_emin z : emin <= fexp z.
Proof. unfold SpecFloat.fexp. lia. Qed.

Lemma binary_round_aux_encode s mx ex lx :
  binary_round_aux prec emax s mx ex lx =
  encode prec emax s
    (round_nearest_even (shr_m (fst (shr_fexp prec emax mx ex lx)))
                        (loc_of_shr_record (fst (shr_fexp prec emax mx ex lx))))
    (snd (shr_fexp prec emax mx ex lx)).
Proof.
  unfold binary_round_aux, encode.
  destruct (shr_fexp prec emax mx ex lx) as [mrs' e']. reflexivity.
Qed.

(** ** What [binary_round_aux] computes *)
Lemma binary_round_aux_rounds s N D ex :
  roundable prec emax N D ex ->
  binary_round_aux prec emax s (N / D) ex (loc_of D (N mod D)) =
  encode prec emax s (rmant prec emax N D ex) (rexp prec emax N D ex).
Proof.
  intros (HN & HD & Hex). rewrite binary_round_aux_encode.
  unfold shr_fexp. fold (rexp prec emax N D ex).
  set (E := rexp prec emax N D ex) in *.
  destruct (shr_stands_for N D (shr_record_of_loc (N / D) (loc_of D (N mod D)))
              ex (E - ex) HN HD (record_of_loc_stands_for N D)) as [[Hm Hl] He].
  rewrite Z.max_r in Hm, Hl, He by lia.
  rewrite He, Hm, Hl. unfold rmant, nearest_even. fold E. f_equal. lia.
Qed.

Lemma nearest_even_bounds N D :
  0 <= N -> 0 < D ->
  N / D <= nearest_even N D <= N / D + 1 /\
  (N mod D = 0 -> nearest_even N D = N / D).
Proof.
  intros HN HD. unfold nearest_even, loc_of, round_nearest_even.
  destruct (Z.eqb_spec (N mod D) 0) as [E|E].
  - split; [lia|reflexivity].
  - split; [|contradiction].
    destruct (2 * (N mod D) ?= D); [destruct (Z.even (N / D))|..]; lia.
Qed.

(** [nearest_even] does not decrease when the fraction grows. *)
Lemma nearest_even_mono N D N' D' :
  0 <= N -> 0 < D -> 0 <= N' -> 0 < D' ->
  N * D' <= N' * D -> nearest_even N D <= nearest_even N' D'.
Proof.
  intros HN HD HN' HD' Hle.
  pose proof (Z.div_mod N D ltac:(lia)) as E.
  pose proof (Z.mod_pos_bound N D HD) as B.
  pose proof (Z.div_mod N' D' ltac:(lia)) as E'.
  pose proof (Z.mod_pos_bound N' D' HD') as B'.
  pose proof (nearest_even_bounds N D HN HD) as [Hb _].
  pose proof (nearest_even_bounds N' D' HN' HD') as [Hb' _].
  assert (N / D <= N' / D') as Hq.
  { apply Z.lt_succ_r. apply (Z.mul_lt_mono_pos_r (D * D')); [nia|].
    apply Z.le_lt_trans with (N * D'); [|apply Z.le_lt_trans with (N' * D)].
    - replace (N / D * (D * D')) with (N / D * D * D') by ring.
      apply Z.mul_le_mono_nonneg_r; lia.
    - exact Hle.
    - replace (Z.succ (N' / D') * (D * D')) with (Z.succ (N' / D') * D' * D) by ring.
      apply Z.mul_lt_mono_pos_r; lia. }
  destruct (Z.eq_dec (N / D) (N' / D')) as [Heq|Hne]; [|lia].
  unfold nearest_even, loc_of, round_nearest_even in *. rewrite <- Heq in *.
  set (q := N / D) in *. set (R := N mod D) in *. set (R' := N' mod D') in *.
  assert (R * D' <= R' * D) as HR by nia.
  destruct (Z.eqb_spec R 0) as [E0|E0]; destruct (Z.eqb_spec R' 0) as [E0'|E0'];
    try lia.
  clear Hb Hb'.
  destruct (Z.compare_spec (2 * R) D) as [C|C|C];
    destruct (Z.compare_spec (2 * R') D') as [C'|C'|C'];
    try destruct (Z.even q); try lia; exfalso; nia.
Qed.

Lemma pow2_pos k : 0 <= k -> 0 < 2 ^ k.
Proof. intros. apply Z.pow_pos_nonneg; lia. Qed.

Lemma pow2_le a b : 0 <= a <= b -> 2 ^ a <= 2 ^ b.
Proof. intros. apply Z.pow_le_mono_r; lia. Qed.

Lemma pow2_lt a b : 0 <= a < b -> 2 ^ a < 2 ^ b.
Proof. intros. apply Z.pow_lt_mono_r; lia. Qed.

Lemma pow2_split a b : 0 <= a -> 0 <= b -> 2 ^ (a + b) = 2 ^ a * 2 ^ b.
Proof. intros. apply Z.pow_add_r; lia. Qed.

Lemma Zdigits2_lt_pow2 m d : 0 <= m -> 0 <= d -> Zdigits2 m <= d -> m < 2 ^ d.
Proof.
  intros Hm Hd H. destruct (Z.eq_dec m 0) as [->|Hne]; [by apply pow2_pos|].
  pose proof (Zdigits2_bounds m ltac:(lia)) as [_ Hu].
  pose proof (Zdigits2_pos m ltac:(lia)).
  pose proof (pow2_le (Zdigits2 m) d ltac:(lia)). lia.
Qed.

Lemma Zdigits2_le_of_lt_pow2 m d : 0 <= m < 2 ^ d -> 0 <= d -> Zdigits2 m <= d.
Proof.
  intros [Hm Hlt] Hd. destruct (Z.eq_dec m 0) as [->|Hne]; [simpl; lia|].
  pose proof (Zdigits2_bounds m ltac:(lia)) as [Hl _].
  pose proof (Zdigits2_pos m ltac:(lia)).
  destruct (Z.le_gt_cases (Zdigits2 m) d) as [|Hgt]; [assumption|].
  pose proof (pow2_le d (Zdigits2 m - 1) ltac:(lia)). lia.
Qed.

Lemma rounded_rmant N D ex :
  roundable prec emax N D ex ->
  rounded prec emax (rmant prec emax N D ex) (rexp prec emax N D ex).
Proof.
  intros (HN & HD & Hex). unfold rmant.
  set (E := rexp prec emax N D ex) in *.
  assert (0 < 2 ^ (E - ex)) as Hk by (apply pow2_pos; lia).
  assert (0 < D * 2 ^ (E - ex)) as HD1 by nia.
  destruct (nearest_even_bounds N (D * 2 ^ (E - ex)) HN HD1) as [[Hlo Hhi] _].
  rewrite <- Z.div_div in Hlo, Hhi by lia.
  pose proof (Z.div_pos N D HN HD) as Hmx.
  set (mx := N / D) in *.
  assert (E = SpecFloat.fexp prec emax (Zdigits2 mx + ex)) as HE by reflexivity.
  pose proof (Zdigits2_nonneg mx) as Hd.
  unfold SpecFloat.fexp in HE.
  assert (0 <= mx / 2 ^ (E - ex)) by (apply Z.div_pos; lia).
  split; [split; [lia|]|split; [lia|]].
  - assert (mx / 2 ^ (E - ex) < 2 ^ prec); [|lia].
    apply Z.div_lt_upper_bound; [lia|]. rewrite <- pow2_split by lia.
    apply Zdigits2_lt_pow2; lia.
  - intros Hgt. assert (2 ^ (prec - 1) <= mx / 2 ^ (E - ex)); [|lia].
    assert (E - ex = Zdigits2 mx - prec) as -> by lia.
    assert (0 < mx) by (destruct mx; simpl in *; lia).
    apply Z.div_le_lower_bound; [apply pow2_pos; lia|].
    rewrite <- pow2_split by lia.
    replace (Zdigits2 mx - prec + (prec - 1)) with (Zdigits2 mx - 1) by lia.
    apply Zdigits2_bounds. lia.
Qed.

(** ** The float of a rounded significand *)

Lemma encode_0 s e : encode prec emax s 0 e = S754_zero s.
Proof.
  unfold encode, shr_fexp.
  destruct (shr_stands_for 0 1 (shr_record_of_loc 0 loc_Exact) e
              (SpecFloat.fexp prec emax (Zdigits2 0 + e) - e))
    as [[Hm _] _]; [lia|lia|split; reflexivity|].
  destruct (shr _ _ _) as [mrs e']. simpl in Hm. rewrite Hm.
  rewrite Z.div_0_l; [reflexivity|].
  pose proof (pow2_pos (Z.max 0 (SpecFloat.fexp prec emax (Zdigits2 0 + e) - e))). lia.
Qed.

Lemma encode_fits s m e :
  0 < m < 2 ^ prec -> emin <= e ->
  encode prec emax s m e =
  if e <=? emax - prec then S754_finite s (Z.to_pos m) e else S754_infinity s.
Proof.
  intros Hm He. unfold encode, shr_fexp.
  pose proof (Zdigits2_le_of_lt_pow2 m prec ltac:(lia) ltac:(lia)) as Hd.
  assert (SpecFloat.fexp prec emax (Zdigits2 m + e) - e <= 0) as Hn
    by (unfold SpecFloat.fexp; lia).
  unfold shr. destruct (SpecFloat.fexp prec emax (Zdigits2 m + e) - e); try lia;
    destruct m; try lia; reflexivity.
Qed.

Lemma encode_carry s e :
  emin <= e ->
  encode prec emax s (2 ^ prec) e =
  if e + 1 <=? emax - prec
  then S754_finite s (Z.to_pos (2 ^ (prec - 1))) (e + 1) else S754_infinity s.
Proof.
  intros He. unfold encode, shr_fexp.
  assert (Zdigits2 (2 ^ prec) = prec + 1) as ->.
  { apply Zdigits2_unique; [|lia]. replace (prec + 1 - 1) with prec by lia.
    split; [lia|]. apply pow2_lt. lia. }
  assert (SpecFloat.fexp prec emax (prec + 1 + e) - e = 1) as ->
    by (unfold SpecFloat.fexp; lia).
  unfold shr. cbn [SpecFloat.iter_pos shr_record_of_loc].
  pose proof (pow2_pos prec ltac:(lia)).
  rewrite shr_1_fields by lia. cbn [shr_m].
  assert (2 ^ prec / 2 = 2 ^ (prec - 1)) as ->.
  { replace prec with (1 + (prec - 1)) at 1 by lia.
    rewrite pow2_split by lia. change (2 ^ 1) with 2.
    rewrite Z.mul_comm, Z.div_mul by lia. reflexivity. }
  pose proof (pow2_pos (prec - 1) ltac:(lia)).
  destruct (2 ^ (prec - 1)); try lia. reflexivity.
Qed.

Lemma encode_cases m e :
  rounded prec emax m e ->
  (m = 0 /\ encode prec emax false m e = S754_zero false) \/
  (exists m' e', 0 < m' < 2 ^ prec /\ emin <= e' /\
     (emin < e' -> 2 ^ (prec - 1) <= m') /\
     (e < e' \/ e = e' /\ m = m') /\ (e' <= e + 1) /\
     (e' = e + 1 -> m' = 2 ^ (prec - 1) /\ m = 2 ^ prec) /\
     encode prec emax false m e =
       if e' <=? emax - prec then S754_finite false (Z.to_pos m') e'
       else S754_infinity false).
Proof.
  intros ((Hm0 & Hm1) & He & Hn).
  destruct (Z.eq_dec m 0) as [->|Hne]; [left; split; [reflexivity|apply encode_0]|].
  right. destruct (Z.eq_dec m (2 ^ prec)) as [->|Hc].
  - exists (2 ^ (prec - 1)), (e + 1).
    pose proof (pow2_pos (prec - 1) ltac:(lia)).
    pose proof (pow2_lt (prec - 1) prec ltac:(lia)).
    rewrite encode_carry by lia. repeat split; lia.
  - exists m, e. rewrite encode_fits by lia. repeat split; lia.
Qed.

Lemma SFleb_zero_nonneg x :
  nonneg_float x -> SFleb (S754_zero false) x = true.
Proof. destruct x as [s|[|]| |[|] m e]; simpl; try contradiction; reflexivity. Qed.

Lemma encode_nonneg m e :
  rounded prec emax m e -> nonneg_float (encode prec emax false m e).
Proof.
  intros H. destruct (encode_cases m e H) as [[_ ->]|(m' & e' & _ & _ & _ & _ & _ & _ & ->)].
  - exact I.
  - destruct (e' <=? emax - prec); exact I.
Qed.

(** The floats of rounded significands are ordered as the pairs of
    exponent and significand. *)
Lemma encode_le m e m' e' :
  rounded prec emax m e -> rounded prec emax m' e' ->
  e < e' \/ (e = e' /\ m <= m') ->
  SFleb (encode prec emax false m e) (encode prec emax false m' e') = true.
Proof.
  intros H H' Hle.
  pose proof (encode_nonneg m' e' H') as Hnn.
  destruct (encode_cases m e H)
    as [[-> ->]|(m1 & e1 & Hm1 & He1 & Hn1 & Hs1 & Hu1 & Hc1 & ->)];
    [by apply SFleb_zero_nonneg|].
  destruct H as ((Hm0 & Hmp) & He & Hn). destruct H' as ((Hm0' & Hmp') & He' & Hn').
  destruct (encode_cases m' e' (conj (conj Hm0' Hmp') (conj He' Hn')))
    as [[-> _]|(m2 & e2 & Hm2 & He2 & Hn2 & Hs2 & Hu2 & Hc2 & ->)].
  { exfalso. pose proof (pow2_pos (prec - 1) ltac:(lia)).
    pose proof (pow2_pos prec ltac:(lia)). lia. }
  assert (e1 < e2 \/ (e1 = e2 /\ m1 <= m2)) as Hord.
  { pose proof (pow2_lt (prec - 1) prec ltac:(lia)). lia. }
  destruct (Z.leb_spec e2 (emax - prec)) as [Hf2|Hf2].
  - destruct (Z.leb_spec e1 (emax - prec)) as [Hf1|Hf1]; [|lia].
    unfold SFleb, SFcompare.
    destruct (Z.compare_spec e1 e2) as [Heq|Hlt|Hgt]; [|reflexivity|lia].
    change (Pos.compare_cont Eq (Z.to_pos m1) (Z.to_pos m2))
      with (Pos.compare (Z.to_pos m1) (Z.to_pos m2)).
    destruct (Pos.compare_spec (Z.to_pos m1) (Z.to_pos m2)) as [?|?|Hgt];
      [reflexivity|reflexivity|].
    exfalso. apply Pos2Z.pos_lt_pos in Hgt. rewrite !Z2Pos.id in Hgt by lia. lia.
  - destruct (e1 <=? emax - prec); reflexivity.
Qed.

Lemma value_le_shift c c' N D ex N' D' ex' :
  c <= ex -> c <= ex' -> c' <= c ->
  value_le c N D ex N' D' ex' <-> value_le c' N D ex N' D' ex'.
Proof.
  intros Hc Hc' Hle. unfold value_le.
  replace (ex - c') with ((ex - c) + (c - c')) by lia.
  replace (ex' - c') with ((ex' - c) + (c - c')) by lia.
  rewrite !pow2_split by lia.
  pose proof (pow2_pos (c - c') ltac:(lia)) as Hp.
  rewrite !Z.mul_assoc. split; intros H.
  - apply Z.mul_le_mono_nonneg_r; lia.
  - apply Z.mul_le_mono_pos_r in H; lia.
Qed.

(** ** Rounding is monotone *)
Lemma rounding_mono c N D ex N' D' ex' :
  roundable prec emax N D ex -> roundable prec emax N' D' ex' ->
  c <= ex -> c <= ex' -> value_le c N D ex N' D' ex' ->
  rexp prec emax N D ex < rexp prec emax N' D' ex' \/
  (rexp prec emax N D ex = rexp prec emax N' D' ex' /\
   rmant prec emax N D ex <= rmant prec emax N' D' ex').
Proof.
  intros (HN & HD & Hex) (HN' & HD' & Hex') Hc Hc' Hle.
  unfold rmant.
  set (E := rexp prec emax N D ex) in *. set (E' := rexp prec emax N' D' ex') in *.
  pose proof (Z.div_pos N D HN HD) as Hmx.
  pose proof (Z.div_pos N' D' HN' HD') as Hmx'.
  pose proof (Z.div_mod N D ltac:(lia)) as Ed.
  pose proof (Z.mod_pos_bound N D HD) as Bd.
  pose proof (Z.div_mod N' D' ltac:(lia)) as Ed'.
  pose proof (Z.mod_pos_bound N' D' HD') as Bd'.
  assert (E = SpecFloat.fexp prec emax (Zdigits2 (N / D) + ex)) as HE by reflexivity.
  assert (E' = SpecFloat.fexp prec emax (Zdigits2 (N' / D') + ex')) as HE' by reflexivity.
  set (mx := N / D) in *. set (mx' := N' / D') in *.
  pose proof (Zdigits2_nonneg mx) as Hd. pose proof (Zdigits2_nonneg mx') as Hd'.
  unfold SpecFloat.fexp in HE, HE'.
  pose proof (pow2_pos (ex - c) ltac:(lia)) as Pa.
  pose proof (pow2_pos (ex' - c) ltac:(lia)) as Pb.
  unfold value_le in Hle.
  destruct (Z.lt_trichotomy E E') as [Hlt|[Heq|Hgt]]; [left; exact Hlt| |].
  - right. split; [exact Heq|]. rewrite <- Heq.
    pose proof (pow2_pos (E - ex) ltac:(lia)) as Pu.
    pose proof (pow2_pos (E - ex') ltac:(lia)) as Pw.
    apply nearest_even_mono; [lia|nia|lia|nia|].
    apply (Z.mul_le_mono_pos_r _ _ (2 ^ (ex - c) * 2 ^ (E - ex))); [nia|].
    replace (N * (D' * 2 ^ (E - ex')) * (2 ^ (ex - c) * 2 ^ (E - ex)))
      with (N * D' * 2 ^ (ex - c) * (2 ^ (E - ex') * 2 ^ (E - ex))) by ring.
    rewrite <- (pow2_split (ex - c) (E - ex)) by lia.
    replace (ex - c + (E - ex)) with (ex' - c + (E - ex')) by lia.
    rewrite (pow2_split (ex' - c) (E - ex')) by lia.
    replace (N' * (D * 2 ^ (E - ex)) * (2 ^ (ex' - c) * 2 ^ (E - ex')))
      with (N' * D * 2 ^ (ex' - c) * (2 ^ (E - ex') * 2 ^ (E - ex))) by ring.
    apply Z.mul_le_mono_nonneg_r; [nia|exact Hle].
  - exfalso.
    assert (0 < mx) as Hpos.
    { destruct (Z.eq_dec mx 0) as [E0|]; [|lia]. rewrite E0 in HE. simpl in HE. lia. }
    pose proof (Zdigits2_bounds mx Hpos) as [Hlo _].
    pose proof (Zdigits2_pos mx Hpos) as Hd1.
    pose proof (Zdigits2_lt_pow2 mx' (Zdigits2 mx') Hmx' Hd' ltac:(lia)) as Hhi.
    assert (2 ^ (Zdigits2 mx - 1) * D <= N) as HNlo by nia.
    assert (N' < 2 ^ Zdigits2 mx' * D') as HNhi by nia.
    assert (2 ^ (Zdigits2 mx - 1 + (ex - c)) < 2 ^ (Zdigits2 mx' + (ex' - c))) as Hpow.
    { rewrite !pow2_split by lia.
      apply (Z.mul_lt_mono_pos_r (D * D')); [nia|].
      apply Z.le_lt_trans with (N * D' * 2 ^ (ex - c)).
      - replace (2 ^ (Zdigits2 mx - 1) * 2 ^ (ex - c) * (D * D'))
          with (2 ^ (Zdigits2 mx - 1) * D * (D' * 2 ^ (ex - c))) by ring.
        replace (N * D' * 2 ^ (ex - c)) with (N * (D' * 2 ^ (ex - c))) by ring.
        apply Z.mul_le_mono_nonneg_r; [nia|exact HNlo].
      - apply Z.le_lt_trans with (N' * D * 2 ^ (ex' - c)); [exact Hle|].
        replace (2 ^ Zdigits2 mx' * 2 ^ (ex' - c) * (D * D'))
          with (2 ^ Zdigits2 mx' * D' * (D * 2 ^ (ex' - c))) by ring.
        replace (N' * D * 2 ^ (ex' - c)) with (N' * (D * 2 ^ (ex' - c))) by ring.
        apply Z.mul_lt_mono_pos_r; [nia|exact HNhi]. }
    apply Z.pow_lt_mono_r_iff in Hpow; lia.
Qed.

Theorem binary_round_aux_mono c N D ex N' D' ex' :
  roundable prec emax N D ex -> roundable prec emax N' D' ex' ->
  c <= ex -> c <= ex' -> value_le c N D ex N' D' ex' ->
  SFleb (binary_round_aux prec emax false (N / D) ex (loc_of D (N mod D)))
        (binary_round_aux prec emax false (N' / D') ex' (loc_of D' (N' mod D')))
  = true.
Proof.
  intros H H' Hc Hc' Hle. rewrite !binary_round_aux_rounds by assumption.
  apply encode_le; [by apply rounded_rmant..|].
  by apply (rounding_mono c).
Qed.

Lemma scale_le A B a b t :
  0 <= a -> 0 <= b -> 0 <= a + t -> 0 <= b + t ->
  A * 2 ^ a <= B * 2 ^ b -> A * 2 ^ (a + t) <= B * 2 ^ (b + t).
Proof.
  intros Ha Hb Hat Hbt H. destruct (Z.le_gt_cases 0 t) as [Ht|Ht].
  - rewrite !pow2_split, !Z.mul_assoc by lia.
    apply Z.mul_le_mono_nonneg_r; [|exact H].
    pose proof (pow2_pos t Ht). lia.
  - pose proof (pow2_pos (- t) ltac:(lia)) as Hp.
    apply (Z.mul_le_mono_pos_r _ _ (2 ^ (- t)) Hp).
    rewrite <- !Z.mul_assoc, <- !pow2_split by lia.
    replace (a + t + - t) with a by lia. replace (b + t + - t) with b by lia.
    exact H.
Qed.

(** ** Valid floats *)

Lemma canonical_mantissa_iff m e :
  canonical_mantissa prec emax m e = true <->
  Zpos m < 2 ^ prec /\ emin <= e /\ (emin < e -> 2 ^ (prec - 1) <= Zpos m).
Proof.
  unfold canonical_mantissa. rewrite Z.eqb_eq.
  change (Z.pos (digits2_pos m)) with (Zdigits2 (Zpos m)).
  pose proof (Zdigits2_bounds (Zpos m) ltac:(lia)) as [Hlo Hhi].
  pose proof (Zdigits2_pos (Zpos m) ltac:(lia)) as Hd.
  unfold SpecFloat.fexp. split.
  - intros H. split; [|split; [lia|]].
    + apply Zdigits2_lt_pow2; lia.
    + intros He. replace (prec - 1) with (Zdigits2 (Zpos m) - 1) by lia. exact Hlo.
  - intros (Hm & He & Hn).
    pose proof (Zdigits2_le_of_lt_pow2 (Zpos m) prec ltac:(lia) ltac:(lia)).
    destruct (Z.eq_dec e emin) as [->|Hne]; [lia|].
    assert (prec <= Zdigits2 (Zpos m)); [|lia].
    destruct (Z.le_gt_cases prec (Zdigits2 (Zpos m))) as [|Hlt]; [assumption|].
    pose proof (pow2_le (Zdigits2 (Zpos m)) (prec - 1) ltac:(lia)). lia.
Qed.

Lemma encode_valid m e :
  rounded prec emax m e ->
  valid_binary prec emax (encode prec emax false m e) = true.
Proof.
  intros H. destruct (encode_cases m e H)
    as [[_ ->]|(m' & e' & Hm & He & Hn & _ & _ & _ & ->)]; [reflexivity|].
  destruct (Z.leb_spec e' (emax - prec)) as [Hf|Hf]; [|reflexivity].
  simpl. unfold bounded. apply andb_true_iff. split.
  - apply canonical_mantissa_iff. rewrite Z2Pos.id by lia. lia.
  - apply Z.leb_le. exact Hf.
Qed.

(** On valid positive floats the order of the floats is the order of
    their values. *)
Lemma float_le_value mx ex my ey c :
  canonical_mantissa prec emax mx ex = true ->
  canonical_mantissa prec emax my ey = true ->
  SFleb (S754_finite false mx ex) (S754_finite false my ey) = true ->
  c <= ex -> c <= ey ->
  Zpos mx * 2 ^ (ex - c) <= Zpos my * 2 ^ (ey - c).
Proof.
  intros Hx Hy Hle Hc Hc'.
  apply canonical_mantissa_iff in Hx as (Hmx & Hex & Hnx).
  apply canonical_mantissa_iff in Hy as (Hmy & Hey & Hny).
  unfold SFleb, SFcompare in Hle.
  destruct (Z.compare_spec ex ey) as [Heq|Hlt|Hgt]; [| |discriminate].
  - subst ey. apply Z.mul_le_mono_nonneg_r; [pose proof (pow2_pos (ex - c)); lia|].
    change (Pos.compare_cont Eq mx my) with (Pos.compare mx my) in Hle.
    destruct (Pos.compare_spec mx my) as [->|H|H]; [lia|lia|discriminate].
  - pose proof (pow2_pos (ex - c) ltac:(lia)) as Pa.
    pose proof (pow2_le (ex - c + 1) (ey - c) ltac:(lia)) as Pb.
    rewrite pow2_split in Pb by lia. change (2 ^ 1) with 2 in Pb.
    assert (2 ^ prec = 2 * 2 ^ (prec - 1)) as Hp.
    { replace prec with (1 + (prec - 1)) at 1 by lia. by rewrite pow2_split by lia. }
    specialize (Hny ltac:(lia)). nia.
Qed.

(** ** binary_round *)

Lemma Pos_iter_xO m d : Zpos (Pos.iter xO m d) = Zpos m * 2 ^ Zpos d.
Proof.
  induction d as [|d IH] using Pos.peano_ind.
  - simpl. lia.
  - rewrite Pos.iter_succ, Pos2Z.inj_xO, IH, Pos2Z.inj_succ, Z.pow_succ_r by lia.
    ring.
Qed.

Lemma shl_align_eq m e e' :
  Zpos (fst (shl_align m e e')) = Zpos m * 2 ^ (e - Z.min e e') /\
  snd (shl_align m e e') = Z.min e e'.
Proof.
  unfold shl_align. destruct (e' - e) as [|d|d] eqn:Hd; cbn [fst snd].
  - rewrite Z.min_l by lia. rewrite Z.sub_diag. simpl. lia.
  - rewrite Z.min_l by lia. rewrite Z.sub_diag. simpl. lia.
  - rewrite Z.min_r by lia. rewrite Pos_iter_xO.
    replace (e - e') with (Zpos d) by lia. lia.
Qed.

Lemma loc_of_1 N : N / 1 = N /\ loc_of 1 (N mod 1) = loc_Exact.
Proof. rewrite Z.div_1_r, Z.mod_1_r. split; reflexivity. Qed.

(** [binary_round] rounds the value [m * 2 ^ e]. *)
Lemma binary_round_rounds s m e :
  exists N ex,
    roundable prec emax N 1 ex /\ ex <= e /\ N = Zpos m * 2 ^ (e - ex) /\
    ex = Z.min e (SpecFloat.fexp prec emax (Zdigits2 (Zpos m) + e)) /\
    binary_round prec emax s m e =
    encode prec emax s (rmant prec emax N 1 ex) (rexp prec emax N 1 ex).
Proof.
  unfold binary_round.
  destruct (shl_align_eq m e (SpecFloat.fexp prec emax (Zpos (digits2_pos m) + e)))
    as [Hm He].
  destruct (shl_align m e _) as [mz ez]. cbn [fst snd] in Hm, He.
  exists (Zpos mz), ez.
  assert (roundable prec emax (Zpos mz) 1 ez) as Hr.
  { split; [lia|split; [lia|]]. unfold rexp. rewrite Z.div_1_r, Hm, He.
    change (Z.pos (digits2_pos m)) with (Zdigits2 (Zpos m)).
    set (f := SpecFloat.fexp prec emax (Zdigits2 (Zpos m) + e)).
    rewrite Zdigits2_mul_pow2 by lia.
    replace (Zdigits2 (Z.pos m) + (e - Z.min e f) + Z.min e f)
      with (Zdigits2 (Zpos m) + e) by lia.
    fold f. lia. }
  split; [exact Hr|]. split; [lia|]. split; [by rewrite Hm, He|].
  split; [exact He|].
  rewrite <- binary_round_aux_rounds by exact Hr.
  destruct (loc_of_1 (Zpos mz)) as [-> ->]. reflexivity.
Qed.

Lemma binary_round_nonneg_valid m e :
  nonneg_float (binary_round prec emax false m e) /\
  valid_binary prec emax (binary_round prec emax false m e) = true.
Proof.
  destruct (binary_round_rounds false m e) as (N & ex & Hr & _ & _ & _ & ->).
  pose proof (rounded_rmant N 1 ex Hr).
  split; [by apply encode_nonneg|by apply encode_valid].
Qed.

Lemma binary_round_mono m e m' e' c :
  c <= e -> c <= e' ->
  Zpos m * 2 ^ (e - c) <= Zpos m' * 2 ^ (e' - c) ->
  SFleb (binary_round prec emax false m e) (binary_round prec emax false m' e') = true.
Proof.
  intros Hc Hc' Hle.
  destruct (binary_round_rounds false m e) as (N & ex & Hr & Hex & HN & _ & ->).
  destruct (binary_round_rounds false m' e') as (N' & ex' & Hr' & Hex' & HN' & _ & ->).
  apply encode_le; [by apply rounded_rmant..|].
  apply (rounding_mono (Z.min c (Z.min ex ex'))); [assumption..|lia|lia|].
  unfold value_le. set (c0 := Z.min c (Z.min ex ex')).
  rewrite HN, HN', !Z.mul_1_r, <- !Z.mul_assoc, <- !pow2_split by lia.
  replace (e - ex + (ex - c0)) with (e - c + (c - c0)) by lia.
  replace (e' - ex' + (ex' - c0)) with (e' - c + (c - c0)) by lia.
  apply scale_le; lia.
Qed.

(** ** SFdiv *)

Lemma new_location_loc_of D R :
  0 < D -> 0 <= R < D -> new_location D R = loc_of D R.
Proof.
  intros HD HR. unfold new_location, new_location_even, new_location_odd, loc_of.
  destruct (Z.even D) eqn:Hev; [reflexivity|].
  destruct (R =? 0); [reflexivity|]. f_equal.
  assert (Z.odd D = true) as Hodd by (by rewrite <- Z.negb_even, Hev).
  apply Z.odd_spec in Hodd as [j Hj].
  destruct (Z.compare_spec (2 * R + 1) D); destruct (Z.compare_spec (2 * R) D);
    try reflexivity; lia.
Qed.

Lemma SFdiv_rounds mx ex my ey :
  Zpos mx < 2 ^ prec ->
  exists N e',
    roundable prec emax N (Zpos my) e' /\ e' <= ex - ey /\
    N = Zpos mx * 2 ^ (ex - ey - e') /\
    SFdiv prec emax (S754_finite false mx ex) (S754_finite false my ey) =
    encode prec emax false (rmant prec emax N (Zpos my) e')
                           (rexp prec emax N (Zpos my) e').
Proof.
  intros Hmx. unfold SFdiv, SFdiv_core_binary.
  set (d1 := Zdigits2 (Zpos mx)). set (d2 := Zdigits2 (Zpos my)).
  set (e' := Z.min (SpecFloat.fexp prec emax (d1 + ex - (d2 + ey))) (ex - ey)).
  set (s := ex - ey - e').
  assert (0 <= s) as Hs by (unfold s, e'; lia).
  set (m' := match s with Z.pos _ => Z.shiftl (Zpos mx) s | 0 => Zpos mx | Z.neg _ => 0 end).
  assert (m' = Zpos mx * 2 ^ s) as Hm'.
  { unfold m'. destruct s as [|p|p] eqn:Es; [simpl; lia| |lia].
    by rewrite Z.shiftl_mul_pow2. }
  pose proof (pow2_pos s Hs) as Ps.
  assert (Z.div_eucl m' (Zpos my) = (m' / Zpos my, m' mod Zpos my)) as Hde.
  { unfold Z.div, Z.modulo. by destruct (Z.div_eucl m' (Zpos my)). }
  rewrite Hde. cbn [xorb].
  pose proof (Z.mod_pos_bound m' (Zpos my) ltac:(lia)) as Hr.
  rewrite new_location_loc_of by lia.
  assert (roundable prec emax m' (Zpos my) e') as Hround.
  { split; [nia|split; [lia|]]. unfold rexp.
    pose proof (fexp_ge_emin (Zdigits2 (m' / Zpos my) + e')).
    destruct (Z.le_gt_cases e' emin) as [|Hgt]; [lia|].
    pose proof (Zdigits2_bounds (Zpos mx) ltac:(lia)) as [Hlo1 _].
    pose proof (Zdigits2_bounds (Zpos my) ltac:(lia)) as [_ Hhi2].
    pose proof (Zdigits2_pos (Zpos mx) ltac:(lia)) as Hp1.
    pose proof (Zdigits2_pos (Zpos my) ltac:(lia)) as Hp2.
    pose proof (Zdigits2_le_of_lt_pow2 (Zpos mx) prec ltac:(lia) ltac:(lia)) as Hd1.
    fold d1 in Hlo1, Hp1, Hd1. fold d2 in Hhi2, Hp2.
    assert (e' = d1 + ex - (d2 + ey) - prec) as He'
      by (unfold e', SpecFloat.fexp in *; lia).
    assert (s = prec - d1 + d2) as Hs' by (unfold s; lia).
    assert (2 ^ (prec - 1) <= m' / Zpos my) as Hq.
    { apply Z.div_le_lower_bound; [lia|].
      apply Z.le_trans with (2 ^ d2 * 2 ^ (prec - 1)).
      - apply Z.mul_le_mono_nonneg_r; [pose proof (pow2_pos (prec - 1)); lia|lia].
      - rewrite Hm', <- pow2_split by lia.
        replace (d2 + (prec - 1)) with ((d1 - 1) + s) by lia.
        rewrite pow2_split by lia.
        apply Z.mul_le_mono_nonneg_r; lia. }
    pose proof (pow2_pos (prec - 1) ltac:(lia)).
    assert (prec <= Zdigits2 (m' / Zpos my)).
    { destruct (Z.le_gt_cases prec (Zdigits2 (m' / Zpos my))) as [|Hlt]; [assumption|].
      pose proof (Zdigits2_lt_pow2 (m' / Zpos my) (prec - 1) ltac:(lia) ltac:(lia) ltac:(lia)).
      lia. }
    unfold SpecFloat.fexp. lia. }
  exists m', e'. split; [exact Hround|]. split; [unfold e'; lia|].
  split; [exact Hm'|]. by apply binary_round_aux_rounds.
Qed.

Lemma SFdiv_nonneg_valid mx ex my ey :
  Zpos mx < 2 ^ prec ->
  nonneg_float (SFdiv prec emax (S754_finite false mx ex) (S754_finite false my ey)) /\
  valid_binary prec emax
    (SFdiv prec emax (S754_finite false mx ex) (S754_finite false my ey)) = true.
Proof.
  intros Hmx. destruct (SFdiv_rounds mx ex my ey Hmx) as (N & e' & Hr & _ & _ & ->).
  pose proof (rounded_rmant N (Zpos my) e' Hr).
  split; [by apply encode_nonneg|by apply encode_valid].
Qed.

(** A quotient of valid positive floats is at most 1 when the dividend
    is at most the divisor. *)
Lemma SFdiv_le_one mx ex my ey :
  canonical_mantissa prec emax mx ex = true ->
  canonical_mantissa prec emax my ey = true ->
  SFleb (S754_finite false mx ex) (S754_finite false my ey) = true ->
  SFleb (SFdiv prec emax (S754_finite false mx ex) (S754_finite false my ey))
        (binary_round prec emax false 1 0) = true.
Proof.
  intros Hx Hy Hle.
  pose proof (proj1 (canonical_mantissa_iff mx ex) Hx) as (Hmx & _ & _).
  destruct (SFdiv_rounds mx ex my ey Hmx) as (N & e' & Hr & He' & HN & ->).
  destruct (binary_round_rounds false 1 0) as (N1 & e1 & Hr1 & He1 & HN1 & _ & ->).
  apply encode_le; [by apply rounded_rmant..|].
  apply (rounding_mono (Z.min e' e1)); [assumption..|lia|lia|].
  unfold value_le. set (c := Z.min e' e1).
  rewrite HN, HN1, !Z.mul_1_l, Z.mul_1_r, <- !Z.mul_assoc, <- pow2_split by lia.
  rewrite (Z.mul_comm (2 ^ (0 - e1))), <- !Z.mul_assoc, <- pow2_split by lia.
  pose proof (float_le_value mx ex my ey (Z.min ex ey) Hx Hy Hle ltac:(lia) ltac:(lia)) as Hv.
  replace (ex - ey - e' + (e' - c)) with (ex - Z.min ex ey + (- ey - c + Z.min ex ey)) by lia.
  replace (e1 - c + (0 - e1)) with (ey - Z.min ex ey + (- ey - c + Z.min ex ey)) by lia.
  apply scale_le; [lia..|exact Hv].
Qed.

(** A quotient does not grow when the divisor grows. *)
Lemma SFdiv_antitone mx ex mu eu mv ev :
  Zpos mx < 2 ^ prec ->
  canonical_mantissa prec emax mu eu = true ->
  canonical_mantissa prec emax mv ev = true ->
  SFleb (S754_finite false mv ev) (S754_finite false mu eu) = true ->
  SFleb (SFdiv prec emax (S754_finite false mx ex) (S754_finite false mu eu))
        (SFdiv prec emax (S754_finite false mx ex) (S754_finite false mv ev)) = true.
Proof.
  intros Hmx Hu Hv Hle.
  destruct (SFdiv_rounds mx ex mu eu Hmx) as (Nu & e'u & Hru & He'u & HNu & ->).
  destruct (SFdiv_rounds mx ex mv ev Hmx) as (Nv & e'v & Hrv & He'v & HNv & ->).
  apply encode_le; [by apply rounded_rmant..|].
  apply (rounding_mono (Z.min e'u e'v)); [assumption..|lia|lia|].
  unfold value_le. set (c := Z.min e'u e'v).
  pose proof (float_le_value mv ev mu eu (Z.min eu ev) Hv Hu Hle ltac:(lia) ltac:(lia)) as Hval.
  rewrite HNu, HNv.
  replace (Zpos mx * 2 ^ (ex - eu - e'u) * Zpos mv * 2 ^ (e'u - c))
    with (Zpos mx * (Zpos mv * (2 ^ (ex - eu - e'u) * 2 ^ (e'u - c)))) by ring.
  replace (Zpos mx * 2 ^ (ex - ev - e'v) * Zpos mu * 2 ^ (e'v - c))
    with (Zpos mx * (Zpos mu * (2 ^ (ex - ev - e'v) * 2 ^ (e'v - c)))) by ring.
  rewrite <- !pow2_split by lia.
  apply Z.mul_le_mono_nonneg_l; [lia|].
  replace (ex - eu - e'u + (e'u - c))
    with (ev - Z.min eu ev + (ex - eu - ev - c + Z.min eu ev)) by lia.
  replace (ex - ev - e'v + (e'v - c))
    with (eu - Z.min eu ev + (ex - eu - ev - c + Z.min eu ev)) by lia.
  apply scale_le; [lia..|exact Hval].
Qed.

(** ** SFadd *)

Lemma binary_round_canonical s m e :
  canonical_mantissa prec emax m e = true -> e <= emax - prec ->
  binary_round prec emax s m e = S754_finite s m e.
Proof.
  intros Hc He. pose proof Hc as Hc'. unfold canonical_mantissa in Hc'.
  apply Z.eqb_eq in Hc'.
  apply canonical_mantissa_iff in Hc as (Hm & Hemin & Hn).
  unfold binary_round, shl_align. rewrite Hc', Z.sub_diag.
  rewrite binary_round_aux_encode. unfold shr_fexp.
  change (Zdigits2 (Zpos m)) with (Zpos (digits2_pos m)).
  rewrite Hc', Z.sub_diag. unfold shr. cbn [fst snd shr_record_of_loc shr_m
    loc_of_shr_record round_nearest_even].
  unfold encode, shr_fexp. change (Zdigits2 (Zpos m)) with (Zpos (digits2_pos m)).
  rewrite Hc', Z.sub_diag. unfold shr. cbn [shr_record_of_loc shr_m].
  by apply Z.leb_le in He as ->.
Qed.

Lemma SFadd_finite mx ex ma ea :
  exists S,
    SFadd prec emax (S754_finite false mx ex) (S754_finite false ma ea) =
    binary_round prec emax false S (Z.min ex ea) /\
    Zpos S = Zpos mx * 2 ^ (ex - Z.min ex ea) + Zpos ma * 2 ^ (ea - Z.min ex ea).
Proof.
  unfold SFadd, cond_Zopp.
  destruct (shl_align_eq mx ex (Z.min ex ea)) as [H1 _].
  destruct (shl_align_eq ma ea (Z.min ex ea)) as [H2 _].
  rewrite (Z.min_r ex (Z.min ex ea)) in H1 by lia.
  rewrite (Z.min_r ea (Z.min ex ea)) in H2 by lia.
  exists (fst (shl_align mx ex (Z.min ex ea)) + fst (shl_align ma ea (Z.min ex ea)))%positive.
  split; [reflexivity|]. rewrite Pos2Z.inj_add, H1, H2. reflexivity.
Qed.

(** A sum of positive floats does not decrease when a term grows, and is
    at least the other term. *)
Lemma SFadd_mono mx ex ma ea mb eb :
  canonical_mantissa prec emax ma ea = true ->
  canonical_mantissa prec emax mb eb = true ->
  SFleb (S754_finite false ma ea) (S754_finite false mb eb) = true ->
  SFleb (SFadd prec emax (S754_finite false mx ex) (S754_finite false ma ea))
        (SFadd prec emax (S754_finite false mx ex) (S754_finite false mb eb)) = true.
Proof.
  intros Ha Hb Hle.
  destruct (SFadd_finite mx ex ma ea) as (Sa & -> & HSa).
  destruct (SFadd_finite mx ex mb eb) as (Sb & -> & HSb).
  set (c := Z.min (Z.min ex ea) (Z.min ex eb)).
  apply (binary_round_mono _ _ _ _ c); [lia..|].
  rewrite HSa, HSb, !Z.mul_add_distr_r, <- !Z.mul_assoc, <- !pow2_split by lia.
  replace (ex - Z.min ex ea + (Z.min ex ea - c)) with (ex - c) by lia.
  replace (ex - Z.min ex eb + (Z.min ex eb - c)) with (ex - c) by lia.
  replace (ea - Z.min ex ea + (Z.min ex ea - c)) with (ea - c) by lia.
  replace (eb - Z.min ex eb + (Z.min ex eb - c)) with (eb - c) by lia.
  pose proof (float_le_value ma ea mb eb c Ha Hb Hle ltac:(lia) ltac:(lia)). lia.
Qed.

Lemma SFadd_ge_l mx ex ma ea :
  canonical_mantissa prec emax mx ex = true -> ex <= emax - prec ->
  SFleb (S754_finite false mx ex)
        (SFadd prec emax (S754_finite false mx ex) (S754_finite false ma ea)) = true.
Proof.
  intros Hx Hex. rewrite <- (binary_round_canonical false mx ex Hx Hex) at 1.
  destruct (SFadd_finite mx ex ma ea) as (S & -> & HS).
  apply (binary_round_mono _ _ _ _ (Z.min ex ea)); [lia..|].
  rewrite HS, Z.sub_diag, Z.pow_0_r, Z.mul_1_r.
  pose proof (pow2_pos (ea - Z.min ex ea) ltac:(lia)). nia.
Qed.

Lemma SFadd_nonneg_valid mx ex ma ea :
  nonneg_float (SFadd prec emax (S754_finite false mx ex) (S754_finite false ma ea)) /\
  valid_binary prec emax
    (SFadd prec emax (S754_finite false mx ex) (S754_finite false ma ea)) = true.
Proof.
  destruct (SFadd_finite mx ex ma ea) as (S & -> & _).
  apply binary_round_nonneg_valid.
Qed.

End Rounding.

(** ** Conversions of integers *)

Section Conversions.
Variables prec emax : Z.
Hypothesis Hprec : 0 < prec.
Hypothesis Hemax : prec < emax.

Lemma binary_normalize_nonneg_valid n :
  0 <= n ->
  nonneg_float (binary_normalize prec emax n 0 false) /\
  valid_binary prec emax (binary_normalize prec emax n 0 false) = true.
Proof.
  intros Hn. destruct n as [|p|p]; [split; reflexivity| |lia].
  by apply binary_round_nonneg_valid.
Qed.

Lemma binary_normalize_mono a b :
  0 <= a <= b ->
  SFleb (binary_normalize prec emax a 0 false)
        (binary_normalize prec emax b 0 false) = true.
Proof.
  intros [Ha Hab]. destruct a as [|p|p]; [|destruct b as [|q|q]; [lia| |lia]|lia].
  - apply SFleb_zero_nonneg. by apply binary_normalize_nonneg_valid.
  - apply (binary_round_mono prec emax Hprec Hemax _ _ _ _ 0); lia.
Qed.
End Conversions.

(** A nonnegative float between two positive finite floats is positive
    and finite. *)
Lemma between_finite x ml el mh eh :
  nonneg_float x ->
  SFleb (S754_finite false ml el) x = true ->
  SFleb x (S754_finite false mh eh) = true ->
  exists m e, x = S754_finite false m e.
Proof.
  destruct x as [s|[|]| |[|] m e]; simpl; try contradiction; try discriminate.
  eauto.
Qed.

Lemma valid_finite_canonical prec emax s m e :
  valid_binary prec emax (S754_finite s m e) = true ->
  canonical_mantissa prec emax m e = true /\ e <= emax - prec.
Proof.
  simpl. unfold bounded. intros H. apply andb_true_iff in H as [H1 H2].
  split; [exact H1|by apply Z.leb_le].
Qed.

(** ** binary32 *)

Lemma F32_prec_pos : 0 < F32.prec.
Proof. reflexivity. Qed.

Lemma F32_prec_emax : F32.prec < F32.emax.
Proof. reflexivity. Qed.

Lemma F32_one_eq : F32.one = S754_finite false 8388608 (-23).
Proof. reflexivity. Qed.

Lemma F32_of_Z_mono a b :
  0 <= a <= b -> F32.leb (F32.of_Z a) (F32.of_Z b) = true.
Proof. apply (binary_normalize_mono F32.prec F32.emax F32_prec_pos F32_prec_emax). Qed.

(** An [int] from 1 upward converts to a valid positive finite float. *)
Lemma F32_of_Z_finite n :
  1 <= n < 2 ^ 31 ->
  exists m e, F32.of_Z n = S754_finite false m e /\
              canonical_mantissa F32.prec F32.emax m e = true.
Proof.
  intros Hn.
  destruct (binary_normalize_nonneg_valid F32.prec F32.emax F32_prec_pos n ltac:(lia))
    as [Hnn Hv].
  pose proof (F32_of_Z_mono 1 n ltac:(lia)) as Hlo.
  pose proof (F32_of_Z_mono n (2 ^ 31) ltac:(lia)) as Hhi.
  change (F32.of_Z 1) with (S754_finite false 8388608 (-23)) in Hlo.
  change (F32.of_Z (2 ^ 31)) with (S754_finite false 8388608 8) in Hhi.
  fold (F32.of_Z n) in Hnn, Hv.
  destruct (between_finite _ _ _ _ _ Hnn Hlo Hhi) as (m & e & Hx).
  exists m, e. split; [exact Hx|]. rewrite Hx in Hv.
  by apply valid_finite_canonical in Hv as [Hv _].
Qed.

(** The quotient of two converted integers, the first at most the
    second, lies in [[0, 1]]. *)
Lemma F32_div_of_Z_unit c n :
  0 <= c <= n -> 1 <= n < 2 ^ 31 ->
  in_unit_interval (F32.div (F32.of_Z c) (F32.of_Z n)) = true.
Proof.
  intros Hc Hn. destruct (F32_of_Z_finite n Hn) as (my & ey & Hy & Hcy).
  destruct (Z.eq_dec c 0) as [->|Hc0].
  - rewrite Hy. reflexivity.
  - destruct (F32_of_Z_finite c ltac:(lia)) as (mx & ex & Hx & Hcx).
    pose proof (F32_of_Z_mono c n ltac:(lia)) as Hle. rewrite Hx, Hy in Hle.
    rewrite Hx, Hy. unfold in_unit_interval. apply andb_true_iff. split.
    + apply SFleb_zero_nonneg.
      apply (SFdiv_nonneg_valid F32.prec F32.emax F32_prec_pos).
      by apply (canonical_mantissa_iff F32.prec F32.emax F32_prec_pos) in Hcx as [? _].
    + by apply (SFdiv_le_one F32.prec F32.emax F32_prec_pos F32_prec_emax).
Qed.

(** ** Order on floats *)

Lemma compare_cont_swap m m' :
  Pos.compare_cont Eq m' m = CompOpp (Pos.compare_cont Eq m m').
Proof. symmetry. apply (Pos.compare_cont_antisym m m' Eq). Qed.

Lemma SFleb_opp x y : SFleb x y = true -> SFleb (SFopp y) (SFopp x) = true.
Proof.
  unfold SFleb, SFcompare.
  destruct x as [sx|sx| |sx mx ex], y as [sy|sy| |sy my ey]; simpl;
    try destruct sx; try destruct sy; simpl; try (intros; congruence).
  - rewrite (Z.compare_antisym ex ey), (compare_cont_swap mx my).
    destruct (ex ?= ey); simpl; try congruence.
    destruct (Pos.compare_cont Eq mx my); simpl; congruence.
  - rewrite (Z.compare_antisym ex ey), (compare_cont_swap mx my).
    destruct (ex ?= ey); simpl; try congruence.
    destruct (Pos.compare_cont Eq mx my); simpl; congruence.
Qed.

Lemma SFleb_nonneg_infinity x :
  nonneg_float x -> SFleb x (S754_infinity false) = true.
Proof. destruct x as [s|[|]| |[|] m e]; simpl; try contradiction; reflexivity. Qed.

Lemma SFleb_antisym_finite m e m' e' :
  SFleb (S754_finite false m e) (S754_finite false m' e') = true ->
  SFleb (S754_finite false m' e') (S754_finite false m e) = true ->
  S754_finite false m e = S754_finite false m' e'.
Proof.
  unfold SFleb, SFcompare. rewrite (Z.compare_antisym e e').
  destruct (Z.compare_spec e e') as [->|H|H]; simpl; try discriminate.
  change (Pos.compare_cont Eq m m') with (Pos.compare m m').
  change (Pos.compare_cont Eq m' m) with (Pos.compare m' m).
  rewrite (Pos.compare_antisym m m').
  destruct (Pos.compare_spec m m') as [->|H|H]; simpl; try discriminate.
  reflexivity.
Qed.

(** ** The activation *)

Lemma F32_one_canonical :
  canonical_mantissa F32.prec F32.emax 8388608 (-23) = true.
Proof. reflexivity. Qed.

Lemma add_one_shape e :
  F32.valid e = true -> nonneg_float e ->
  positive_float (F32.add F32.one e) /\
  F32.leb F32.one (F32.add F32.one e) = true.
Proof.
  intros Hv Hn. rewrite F32_one_eq.
  destruct e as [s|[|]| |[|] m ee]; simpl in Hn; try contradiction.
  - split; [right; eauto using F32_one_canonical|reflexivity].
  - split; [by left|reflexivity].
  - apply valid_finite_canonical in Hv as [Hc He].
    pose proof (SFadd_ge_l F32.prec F32.emax F32_prec_pos F32_prec_emax
                  8388608 (-23) m ee F32_one_canonical ltac:(done)) as Hge.
    destruct (SFadd_nonneg_valid F32.prec F32.emax F32_prec_pos 8388608 (-23) m ee)
      as [Hnn Hval].
    fold (F32.add (S754_finite false 8388608 (-23)) (S754_finite false m ee))
      in Hge, Hnn, Hval |- *.
    split; [|exact Hge].
    destruct (F32.add _ _) as [s|[|]| |[|] mu eu]; simpl in Hnn; try contradiction;
      try discriminate.
    + by left.
    + right. exists mu, eu. split; [reflexivity|].
      by apply valid_finite_canonical in Hval as [? _].
Qed.

Lemma add_one_mono e e' :
  F32.valid e = true -> nonneg_float e ->
  F32.valid e' = true -> nonneg_float e' ->
  F32.leb e' e = true ->
  F32.leb (F32.add F32.one e') (F32.add F32.one e) = true.
Proof.
  intros Hv Hn Hv' Hn' Hle.
  destruct (add_one_shape e Hv Hn) as [Hs Hge].
  destruct (add_one_shape e' Hv' Hn') as [Hs' Hge'].
  destruct e' as [s'|[|]| |[|] m' ee']; simpl in Hn'; try contradiction.
  - exact Hge.
  - destruct e as [s|[|]| |[|] m ee]; simpl in Hn; try contradiction;
      try discriminate. reflexivity.
  - destruct e as [s|[|]| |[|] m ee]; simpl in Hn; try contradiction;
      try discriminate.
    + apply SFleb_nonneg_infinity.
      rewrite F32_one_eq. apply (SFadd_nonneg_valid F32.prec F32.emax F32_prec_pos).
    + rewrite F32_one_eq.
      apply valid_finite_canonical in Hv as [Hc _].
      apply valid_finite_canonical in Hv' as [Hc' _].
      by apply (SFadd_mono F32.prec F32.emax F32_prec_pos F32_prec_emax).
Qed.

Lemma div_one_unit u :
  positive_float u -> F32.leb F32.one u = true ->
  in_unit_interval (F32.div F32.one u) = true.
Proof.
  intros [->|(m & e & -> & Hc)] Hle; [reflexivity|].
  rewrite F32_one_eq in *. unfold in_unit_interval. apply andb_true_iff. split.
  - apply SFleb_zero_nonneg.
    by apply (SFdiv_nonneg_valid F32.prec F32.emax F32_prec_pos).
  - by apply (SFdiv_le_one F32.prec F32.emax F32_prec_pos F32_prec_emax).
Qed.

Lemma div_one_antitone u u' :
  positive_float u -> positive_float u' -> F32.leb u' u = true ->
  F32.leb (F32.div F32.one u) (F32.div F32.one u') = true.
Proof.
  rewrite F32_one_eq.
  intros [->|(m & e & -> & Hc)] [->|(m' & e' & -> & Hc')] Hle;
    try reflexivity; try discriminate.
  - apply SFleb_zero_nonneg.
    by apply (SFdiv_nonneg_valid F32.prec F32.emax F32_prec_pos).
  - by apply (SFdiv_antitone F32.prec F32.emax F32_prec_pos F32_prec_emax).
Qed.

(** The activation lies in [[0, 1]] and does not grow with what [expf]
    returned. *)
Lemma activation_unit e :
  F32.valid e = true -> nonneg_float e -> in_unit_interval (activation e) = true.
Proof.
  intros Hv Hn. destruct (add_one_shape e Hv Hn) as [Hs Hge].
  by apply div_one_unit.
Qed.

Lemma activation_antitone e e' :
  F32.valid e = true -> nonneg_float e ->
  F32.valid e' = true -> nonneg_float e' ->
  F32.leb e' e = true ->
  F32.leb (activation e) (activation e') = true.
Proof.
  intros Hv Hn Hv' Hn' Hle.
  destruct (add_one_shape e Hv Hn) as [Hs _].
  destruct (add_one_shape e' Hv' Hn') as [Hs' _].
  apply div_one_antitone; [assumption..|]. by apply add_one_mono.
Qed.

(** The activation is exactly 1 when [expf] returned at most [2 ^ -24],
    and exactly 0 when it returned the infinity. *)
Lemma activation_saturates e :
  F32.valid e = true -> nonneg_float e -> F32.leb e half_ulp_one = true ->
  activation e = F32.one.
Proof.
  intros Hv Hn Hle. unfold activation.
  assert (F32.add F32.one e = F32.one) as ->; [|reflexivity].
  destruct (add_one_shape e Hv Hn) as [Hs Hge].
  pose proof (add_one_mono half_ulp_one e ltac:(reflexivity) I Hv Hn Hle) as Hup.
  change (F32.add F32.one half_ulp_one) with F32.one in Hup.
  rewrite F32_one_eq in *.
  destruct Hs as [Hs|(m & ee & Hs & _)]; rewrite Hs in *; [discriminate|].
  symmetry. by apply SFleb_antisym_finite.
Qed.

(** ** binary64 and the size of the training set *)

Lemma F64_prec_pos : 0 < F64.prec.
Proof. reflexivity. Qed.

(** The literal [0.7]. *)
Lemma F64_literal_7_10 :
  F64.literal 7 10 = S754_finite false 6305039478318694 (-53).
Proof. reflexivity. Qed.

Lemma F64_to_Z_neg m e :
  e < 0 -> F64.to_Z (S754_finite false m e) = Zpos m / 2 ^ (- e).
Proof.
  intros He. destruct e as [|p|p]; try lia. unfold F64.to_Z.
  rewrite Z.shiftr_div_pow2 by lia. reflexivity.
Qed.

(** An [int] converts to [double] without rounding. *)
Lemma F64_of_Z_exact n :
  1 <= n < 2 ^ 53 ->
  F64.of_Z n =
  S754_finite false (Z.to_pos (n * 2 ^ (53 - Zdigits2 n))) (Zdigits2 n - 53).
Proof.
  intros Hn. destruct n as [|p|p]; try lia.
  unfold F64.of_Z, binary_normalize.
  destruct (binary_round_rounds F64.prec F64.emax false p 0)
    as (N & ex & Hr & _ & HN & Hex & ->).
  pose proof (Zdigits2_pos (Zpos p) ltac:(lia)) as Hd.
  pose proof (Zdigits2_le_of_lt_pow2 (Zpos p) 53 ltac:(lia) ltac:(lia)) as Hd'.
  set (d := Zdigits2 (Zpos p)) in *.
  assert (ex = d - 53) as Eex
    by (rewrite Hex; unfold SpecFloat.fexp, SpecFloat.emin, F64.prec, F64.emax; lia).
  rewrite Eex in HN. replace (0 - (d - 53)) with (53 - d) in HN by lia.
  assert (Zdigits2 N = 53) as HdN
    by (rewrite HN, Zdigits2_mul_pow2 by lia; fold d; lia).
  assert (rexp F64.prec F64.emax N 1 ex = ex) as HE.
  { unfold rexp. rewrite Z.div_1_r, HdN, Eex.
    unfold SpecFloat.fexp, SpecFloat.emin, F64.prec, F64.emax. lia. }
  unfold rmant. rewrite HE, Z.sub_diag, Z.pow_0_r, Z.mul_1_r.
  assert (nearest_even N 1 = N) as ->.
  { destruct (nearest_even_bounds N 1 ltac:(lia) ltac:(lia)) as [_ H].
    rewrite H by apply Z.mod_1_r. apply Z.div_1_r. }
  pose proof (Zdigits2_bounds N ltac:(pose proof (pow2_pos (53 - d)); nia)) as [Hlo Hhi].
  rewrite HdN in Hlo, Hhi.
  rewrite (encode_fits F64.prec F64.emax F64_prec_pos).
  - rewrite Eex, HN.
    replace (d - 53 <=? F64.emax - F64.prec) with true
      by (symmetry; apply Z.leb_le; unfold F64.emax, F64.prec; lia).
    reflexivity.
  - unfold F64.prec. change (53 - 1) with 52 in Hlo. lia.
  - rewrite Eex. unfold SpecFloat.emin, F64.prec, F64.emax. lia.
Qed.

(** The product [N * 0.7] in [double], truncated: the rounded
    significand [m2] at the exponent [- K]. *)
Lemma train_size_rounded N :
  1 <= N < 2 ^ 31 ->
  exists K k m2,
    22 <= K <= 53 /\ 0 <= k <= 53 /\ K + k = 53 + (53 - Zdigits2 N) /\
    (N * 2 ^ (53 - Zdigits2 N) * 6305039478318694) / 2 ^ k <= m2
      <= (N * 2 ^ (53 - Zdigits2 N) * 6305039478318694) / 2 ^ k + 1 /\
    train_size N = m2 / 2 ^ K.
Proof.
  intros HN. unfold train_size.
  rewrite F64_literal_7_10, F64_of_Z_exact by lia.
  pose proof (Zdigits2_pos N ltac:(lia)) as Hd.
  pose proof (Zdigits2_le_of_lt_pow2 N 31 ltac:(lia) ltac:(lia)) as Hd'.
  pose proof (Zdigits2_bounds N ltac:(lia)) as [Hlo Hhi].
  set (d := Zdigits2 N) in *. set (s := 53 - d).
  pose proof (pow2_pos s ltac:(lia)) as Ps.
  set (N' := N * 2 ^ s).
  assert (2 ^ 52 <= N' < 2 ^ 53) as HN'.
  { assert (2 ^ 52 = 2 ^ (d - 1) * 2 ^ s) as ->
      by (rewrite <- pow2_split by lia; f_equal; unfold s; lia).
    assert (2 ^ 53 = 2 ^ d * 2 ^ s) as ->
      by (rewrite <- pow2_split by lia; f_equal; unfold s; lia).
    unfold N'. split.
    - apply Z.mul_le_mono_nonneg_r; lia.
    - apply Z.mul_lt_mono_pos_r; lia. }
  unfold F64.mul, SFmul. cbn [xorb].
  set (P := N' * 6305039478318694).
  assert (Zpos (Z.to_pos N' * 6305039478318694) = P) as HP.
  { rewrite Pos2Z.inj_mul, Z2Pos.id by lia. reflexivity. }
  assert (2 ^ 104 <= P < 2 ^ 106) as HPb.
  { unfold P. change (2 ^ 104) with (2 ^ 52 * 2 ^ 52).
    change (2 ^ 106) with (2 ^ 53 * 2 ^ 53). split; [nia|nia]. }
  assert (104 < Zdigits2 P).
  { pose proof (Zdigits2_bounds P ltac:(lia)) as [_ Hu].
    destruct (Z.le_gt_cases (Zdigits2 P) 104) as [Hc|]; [|lia].
    pose proof (Zdigits2_nonneg P).
    pose proof (pow2_le (Zdigits2 P) 104 ltac:(lia)). lia. }
  pose proof (Zdigits2_le_of_lt_pow2 P 106 ltac:(lia) ltac:(lia)) as HdP.
  set (dP := Zdigits2 P) in *.
  assert (roundable F64.prec F64.emax P 1 (d - 53 + -53)) as Hr.
  { split; [lia|split; [lia|]]. unfold rexp. rewrite Z.div_1_r. fold dP.
    unfold SpecFloat.fexp, SpecFloat.emin, F64.prec, F64.emax. lia. }
  pose proof (binary_round_aux_rounds F64.prec F64.emax false P 1 (d - 53 + -53) Hr) as Hbra.
  destruct (loc_of_1 P) as [E1 E2]. rewrite E1, E2, <- HP in Hbra. rewrite Hbra.
  rewrite HP. clear Hbra E1 E2.
  pose proof (rounded_rmant F64.prec F64.emax F64_prec_pos P 1 _ Hr) as Hrd.
  assert (rexp F64.prec F64.emax P 1 (d - 53 + -53) = dP - s - 106 + 53 - 53 + 0) as HE.
  { unfold rexp. rewrite Z.div_1_r. fold dP. unfold s.
    unfold SpecFloat.fexp, SpecFloat.emin, F64.prec, F64.emax. lia. }
  unfold rmant in *. rewrite HE in *.
  replace (dP - s - 106 + 53 - 53 + 0 - (d - 53 + -53)) with (dP - 53) in * by (unfold s; lia).
  rewrite Z.mul_1_l in *.
  pose proof (pow2_pos (dP - 53) ltac:(lia)) as Pk.
  destruct (nearest_even_bounds P (2 ^ (dP - 53)) ltac:(lia) Pk) as [Hm2 _].
  set (m2 := nearest_even P (2 ^ (dP - 53))) in *.
  assert (2 ^ 52 <= P / 2 ^ (dP - 53)) as Hm1.
  { apply Z.div_le_lower_bound; [lia|]. rewrite <- pow2_split by lia.
    replace (dP - 53 + 52) with (dP - 1) by lia.
    apply (Zdigits2_bounds P). lia. }
  exists (s + 106 - dP), (dP - 53), m2.
  split; [unfold s; lia|]. split; [lia|]. split; [unfold s; lia|].
  split; [exact Hm2|].
  destruct (encode_cases F64.prec F64.emax F64_prec_pos m2 _ Hrd)
    as [[H0 _]|(m' & e' & Hm' & _ & _ & Hs & Hu & Hc & ->)]; [lia|].
  replace (e' <=? F64.emax - F64.prec) with true
    by (symmetry; apply Z.leb_le; unfold F64.emax, F64.prec, s in *; lia).
  rewrite F64_to_Z_neg by (unfold s in *; lia).
  rewrite Z2Pos.id by lia.
  destruct Hs as [Hlt|[He Hm]].
  - assert (e' = dP - s - 106 + 53 - 53 + 0 + 1) as He by lia.
    destruct (Hc He) as [-> ->]. rewrite He.
    replace (- (dP - s - 106 + 53 - 53 + 0 + 1)) with (s + 106 - dP - 1) by lia.
    change (2 ^ F64.prec) with (2 * 2 ^ (F64.prec - 1)).
    replace (2 ^ (s + 106 - dP)) with (2 * 2 ^ (s + 106 - dP - 1)).
    + rewrite Z.div_mul_cancel_l; [reflexivity| |lia].
      pose proof (pow2_pos (s + 106 - dP - 1) ltac:(unfold s; lia)). lia.
    + rewrite <- Z.pow_succ_r by (unfold s; lia). f_equal. lia.
  - rewrite <- He, Hm. f_equal. f_equal. lia.
Qed.

(** [(int)(N * 0.7)] is the integer part of [7 N / 10] or one less, and
    it is the integer part when [N] is not a multiple of 10. *)
Lemma train_size_bounds N :
  0 <= N < 2 ^ 31 ->
  7 * N / 10 - 1 <= train_size N <= 7 * N / 10 /\
  (N mod 10 <> 0 -> train_size N = 7 * N / 10).
Proof.
  intros HN. destruct (Z.eq_dec N 0) as [->|Hne]; [by vm_compute|].
  destruct (train_size_rounded N ltac:(lia)) as (K & k & m2 & HK & Hk & HKk & Hm2 & ->).
  pose proof (Zdigits2_pos N ltac:(lia)) as Hd.
  pose proof (Zdigits2_le_of_lt_pow2 N 31 ltac:(lia) ltac:(lia)) as Hd'.
  set (s := 53 - Zdigits2 N) in *.
  pose proof (pow2_pos K ltac:(lia)) as PK. pose proof (pow2_pos k ltac:(lia)) as Pk.
  pose proof (pow2_le 22 s ltac:(lia)) as PA.
  pose proof (pow2_le k 53 ltac:(lia)) as PC.
  assert (2 ^ K * 2 ^ k = 2 ^ 53 * 2 ^ s) as Hprod
    by (rewrite <- !pow2_split by lia; f_equal; lia).
  set (P := N * 2 ^ s * 6305039478318694) in *.
  pose proof (Z.div_mod P (2 ^ k) ltac:(lia)) as EP.
  pose proof (Z.mod_pos_bound P (2 ^ k) Pk) as BP.
  set (m1 := P / 2 ^ k) in *.
  assert (10 * P = 7 * N * (2 ^ 53 * 2 ^ s) - 4 * (N * 2 ^ s)) as H10.
  { unfold P. change (2 ^ 53) with 9007199254740992. ring. }
  pose proof (Z.div_mod (7 * N) 10 ltac:(lia)) as EF.
  pose proof (Z.mod_pos_bound (7 * N) 10 ltac:(lia)) as BF.
  set (F := 7 * N / 10) in *.
  set (W := 2 ^ 53 * 2 ^ s) in *. set (A := 2 ^ s) in *.
  assert (0 < W) as HW by (unfold W; nia).
  assert (m1 * 2 ^ k <= P < (m1 + 1) * 2 ^ k) as Hm1 by lia.
  assert (2 ^ k <= W / 2 ^ 22) as HCW.
  { apply Z.div_le_lower_bound; [lia|]. unfold W. nia. }
  assert (2 ^ 22 * 2 ^ k <= W) as HCW' by (unfold W; nia).
  assert (N * A < 2 ^ 31 * A) as HNA by (apply Z.mul_lt_mono_pos_r; lia).
  assert (2 ^ 31 * A <= W) as HAW by (unfold W, A; nia).
  assert (0 <= N * A) as HNA0 by nia.
  (* the three facts *)
  assert (m2 < (F + 1) * 2 ^ K) as Hup.
  { destruct (Z.lt_ge_cases m2 ((F + 1) * 2 ^ K)) as [|Hc]; [assumption|exfalso].
    assert ((F + 1) * W <= (m1 + 1) * 2 ^ k) as H1.
    { rewrite <- Hprod, Z.mul_assoc.
      apply Z.mul_le_mono_nonneg_r; lia. }
    assert (W <= (10 * F + 10 - 7 * N) * W) as H2
      by (rewrite <- (Z.mul_1_l W) at 1; apply Z.mul_le_mono_nonneg_r; lia).
    assert ((10 * F + 10 - 7 * N) * W = 10 * ((F + 1) * W) - 7 * N * W) as H3 by ring.
    change (2 ^ 22) with 4194304 in *. lia. }
  assert ((F - 1) * 2 ^ K <= m1) as Hlow.
  { destruct (Z.le_gt_cases ((F - 1) * 2 ^ K) m1) as [|Hc]; [assumption|exfalso].
    assert ((m1 + 1) * 2 ^ k <= (F - 1) * W) as H1.
    { rewrite <- Hprod, Z.mul_assoc.
      apply Z.mul_le_mono_nonneg_r; lia. }
    assert (10 * W <= (7 * N - 10 * F + 10) * W) as H2
      by (apply Z.mul_le_mono_nonneg_r; lia).
    assert ((7 * N - 10 * F + 10) * W = 7 * N * W - 10 * ((F - 1) * W)) as H3 by ring.
    change (2 ^ 31) with 2147483648 in *. lia. }
  assert (N mod 10 <> 0 -> F * 2 ^ K <= m1) as Hex.
  { intros Hmod.
    destruct (Z.le_gt_cases (F * 2 ^ K) m1) as [|Hc]; [assumption|exfalso].
    assert ((7 * N) mod 10 <> 0) as Hmod7.
    { intros H0. apply Hmod. apply Z.mod_divide in H0; [|lia].
      apply Z.mod_divide; [lia|]. apply (Z.gauss 10 7 N); [exact H0|reflexivity]. }
    assert ((m1 + 1) * 2 ^ k <= F * W) as H1.
    { rewrite <- Hprod, Z.mul_assoc.
      apply Z.mul_le_mono_nonneg_r; lia. }
    assert (W <= (7 * N - 10 * F) * W) as H2
      by (rewrite <- (Z.mul_1_l W) at 1; apply Z.mul_le_mono_nonneg_r; lia).
    assert ((7 * N - 10 * F) * W = 7 * N * W - 10 * (F * W)) as H3 by ring.
    change (2 ^ 31) with 2147483648 in *. lia. }
  split; [split|].
  - apply Z.div_le_lower_bound; lia.
  - apply Z.lt_succ_r. apply Z.div_lt_upper_bound; lia.
  - intros Hmod. specialize (Hex Hmod). apply Z.le_antisymm.
    + apply Z.lt_succ_r. apply Z.div_lt_upper_bound; lia.
    + apply Z.div_le_lower_bound; lia.
Qed.

(** * Properties of the program *)

(** ** Loops *)

Lemma for_loop_S {S : Type} (n : nat) (body : nat -> S -> S) (s : S) :
  for_loop (Datatypes.S n) body s = body n (for_loop n body s).
Proof.
  unfold for_loop. rewrite seq_S, foldl_app. reflexivity.
Qed.

(** The usual loop rule: an invariant that every iteration preserves. *)
Lemma for_loop_invariant {S : Type} (Inv : nat -> S -> Prop) (n : nat)
    (body : nat -> S -> S) (s : S) :
  Inv 0%nat s ->
  (forall i s, (i < n)%nat -> Inv i s -> Inv (Datatypes.S i) (body i s)) ->
  Inv n (for_loop n body s).
Proof.
  intros H0 Hstep. induction n as [|n IH].
  - exact H0.
  - rewrite for_loop_S. apply Hstep; [lia|]. apply IH.
    intros i s' Hi. apply Hstep. lia.
Qed.

(** ** Strings *)

Lemma custom_strlen_le (str : list byte) :
  (custom_strlen str <= length str)%nat.
Proof.
  induction str as [|c r IH]; simpl; [lia|]. destruct (Byte.eqb c x00); lia.
Qed.

Lemma strncpy_text_length (token : list byte) :
  length (strncpy_text token) = MAX_TOKENS.
Proof.
  unfold strncpy_text. rewrite length_app, length_replicate, length_take.
  unfold MAX_TOKENS. lia.
Qed.

(** ** tokenizeAndEmbed *)

Section VectorizerFacts.
Variable P : Platform.

Lemma embed_row_length txt i ids :
  length (embed_row P txt i ids) = length ids.
Proof.
  unfold embed_row.
  apply (for_loop_invariant (fun _ s => length s = length ids)); [reflexivity|].
  intros j s _ Hs. destruct (txt !! j); [rewrite length_insert|]; exact Hs.
Qed.

(** The inner loop writes nothing outside the first [strlen] cells of
    its row. *)
Lemma embed_row_frame txt i ids idx :
  ~ (i * MAX_TOKENS <= idx < i * MAX_TOKENS + custom_strlen txt)%nat ->
  embed_row P txt i ids !! idx = ids !! idx.
Proof.
  intros Hout. unfold embed_row.
  apply (for_loop_invariant
           (fun m s => (m <= custom_strlen txt)%nat -> s !! idx = ids !! idx)
           (custom_strlen txt)); [reflexivity| |lia].
  intros j s Hj IH _. destruct (txt !! j); [|apply IH; lia].
  rewrite list_lookup_insert_ne by lia. apply IH. lia.
Qed.

(** The inner loop writes the quotient of every character of the text. *)
Lemma embed_row_written txt i ids j c :
  (j < custom_strlen txt)%nat -> txt !! j = Some c ->
  (i * MAX_TOKENS + j < length ids)%nat ->
  embed_row P txt i ids !! (i * MAX_TOKENS + j)%nat = Some (embed_char P c).
Proof.
  intros Hj Hc Hlen. unfold embed_row.
  apply (for_loop_invariant
           (fun m s => length s = length ids /\
              ((j < m)%nat -> s !! (i * MAX_TOKENS + j)%nat = Some (embed_char P c)))
           (custom_strlen txt)); [split; [reflexivity|lia]| |exact Hj].
  intros k s Hk [Hl IH]. destruct (txt !! k) as [d|] eqn:Hd.
  - split; [rewrite length_insert; exact Hl|]. intros Hjk.
    destruct (decide (k = j)) as [->|Hne].
    + rewrite list_lookup_insert_eq by lia. congruence.
    + rewrite list_lookup_insert_ne by lia. apply IH. lia.
  - split; [exact Hl|]. intros Hjk.
    destruct (decide (k = j)) as [->|Hne]; [congruence|apply IH; lia].
Qed.

(** A cell that lies in no written part of a row keeps the value the
    buffer had. *)
Lemma tokenizeAndEmbed_frame dataset ids n idx :
  (forall i p, (i < n)%nat -> dataset !! i = Some p ->
     ~ (i * MAX_TOKENS <= idx < i * MAX_TOKENS + custom_strlen (text p))%nat) ->
  tokenizeAndEmbed P dataset ids n !! idx = ids !! idx.
Proof.
  intros Hout. unfold tokenizeAndEmbed.
  apply (for_loop_invariant
           (fun m s => (m <= n)%nat -> s !! idx = ids !! idx) n);
    [reflexivity| |lia].
  intros i s Hi IH _. destruct (dataset !! i) as [p|] eqn:Hp; [|apply IH; lia].
  rewrite embed_row_frame by (apply (Hout i p); assumption). apply IH. lia.
Qed.

Lemma tokenizeAndEmbed_cell_written dataset ids n i j p c :
  rows_fit dataset ->
  (i < n)%nat -> dataset !! i = Some p ->
  (j < custom_strlen (text p))%nat -> text p !! j = Some c ->
  (i * MAX_TOKENS + j < length ids)%nat ->
  cell (tokenizeAndEmbed P dataset ids n) i j = Some (embed_char P c).
Proof.
  intros Hfit Hi Hp Hj Hc Hlen. unfold cell, tokenizeAndEmbed.
  apply (for_loop_invariant
           (fun m s => length s = length ids /\
              ((i < m)%nat -> s !! (i * MAX_TOKENS + j)%nat = Some (embed_char P c)))
           n); [split; [reflexivity|lia]| |exact Hi].
  intros k s Hk [Hl IH]. destruct (dataset !! k) as [q|] eqn:Hq.
  - split; [rewrite embed_row_length; exact Hl|]. intros Hik.
    destruct (decide (k = i)) as [->|Hne].
    + assert (q = p) as -> by congruence.
      apply embed_row_written; [assumption|assumption|lia].
    + rewrite embed_row_frame; [apply IH; lia|].
      pose proof (Hfit i p Hp). pose proof (Hfit k q Hq).
      unfold MAX_TOKENS in *. lia.
  - split; [exact Hl|]. intros Hik.
    destruct (decide (k = i)) as [->|Hne]; [congruence|apply IH; lia].
Qed.

End VectorizerFacts.

(** ** shuffleDataset *)

Lemma insert_head_perm (d : list Post) (j : nat) (b x : Post) :
  d !! j = Some b -> b :: <[j := x]> d ≡ₚ x :: d.
Proof.
  revert j. induction d as [|a d IH]; intros [|j] Hj; simplify_eq/=.
  - apply perm_swap.
  - rewrite perm_swap, (IH j Hj). apply perm_swap.
Qed.

Lemma swap_perm (d : list Post) (i j : nat) : swap d i j ≡ₚ d.
Proof.
  revert i j. induction d as [|a d IH]; intros i j; [by destruct i, j|].
  unfold swap. destruct i as [|i], j as [|j]; simpl.
  - reflexivity.
  - destruct (d !! j) as [b|] eqn:Hb; [|reflexivity].
    by apply insert_head_perm.
  - destruct (d !! i) as [b|] eqn:Hb; [|reflexivity].
    by apply insert_head_perm.
  - specialize (IH i j). unfold swap in IH.
    destruct (d !! i), (d !! j); simpl; try reflexivity.
    by rewrite IH.
Qed.

Lemma swap_length (d : list Post) (i j : nat) : length (swap d i j) = length d.
Proof.
  unfold swap. destruct (d !! i), (d !! j); try reflexivity.
  by rewrite !length_insert.
Qed.

Lemma swap_drop (d : list Post) (i j n : nat) :
  (i < n)%nat -> (j < n)%nat -> drop n (swap d i j) = drop n d.
Proof.
  intros Hi Hj. unfold swap. destruct (d !! i), (d !! j); try reflexivity.
  rewrite !drop_insert_lt by lia. reflexivity.
Qed.

(** The index drawn in an iteration lies below [num_samples]. *)
Lemma drawn_index_lt (r : Z) (n : nat) :
  (0 < n)%nat -> (Z.to_nat (Z.rem r (Z.of_nat n)) < n)%nat.
Proof.
  intros Hn. pose proof (Z.rem_bound_abs r (Z.of_nat n)). lia.
Qed.

(** The shuffle is a sequence of swaps inside the first [num_samples]
    slots: the array is permuted and the slots behind are left alone. *)
Lemma shuffleDataset_invariant (rand : nat -> Z) (dataset : list Post) (n : nat) :
  shuffleDataset rand dataset n ≡ₚ dataset /\
  length (shuffleDataset rand dataset n) = length dataset /\
  drop n (shuffleDataset rand dataset n) = drop n dataset.
Proof.
  unfold shuffleDataset.
  apply (for_loop_invariant
           (fun _ s => s ≡ₚ dataset /\ length s = length dataset /\
                       drop n s = drop n dataset)); [done|].
  intros i s Hi (Hp & Hl & Hd). split; [|split].
  - by rewrite swap_perm.
  - by rewrite swap_length.
  - rewrite swap_drop; [done|lia|apply drawn_index_lt; lia].
Qed.

Lemma shuffleDataset_take_perm (rand : nat -> Z) (dataset : list Post) (n : nat) :
  take n (shuffleDataset rand dataset n) ≡ₚ take n dataset.
Proof.
  destruct (shuffleDataset_invariant rand dataset n) as (Hp & _ & Hd).
  apply (Permutation_app_inv_r (drop n dataset)).
  rewrite <- Hd at 1. by rewrite !take_drop.
Qed.

(** C8 (as amended). For every dataset and every sequence of values of
    [rand], [shuffleDataset] leaves a permutation of the records it was
    given: no record is lost, duplicated or changed, the number of
    records is the same and so is every slot behind the first
    [num_samples].  Nothing is stated about how the permutations are
    distributed. *)
Theorem shuffleDataset_permutes (rand : nat -> Z) (dataset : list Post) :
  shuffleDataset rand dataset (length dataset) ≡ₚ dataset /\
  length (shuffleDataset rand dataset (length dataset)) = length dataset /\
  forall n, take n (shuffleDataset rand dataset n) ≡ₚ take n dataset /\
            drop n (shuffleDataset rand dataset n) = drop n dataset.
Proof.
  destruct (shuffleDataset_invariant rand dataset (length dataset)) as (Hp & Hl & _).
  split; [exact Hp|]. split; [exact Hl|]. intros n. split.
  - apply shuffleDataset_take_perm.
  - apply shuffleDataset_invariant.
Qed.

(** C8 (counterexample). With three records and the three indices drawn
    independently and uniformly, the 27 equally likely draws leave the
    records in their first order in 4 cases and exchange the last two in
    5 cases: the six permutations are not equally likely. *)
Lemma shuffleDataset_not_uniform :
  length index_draws = 27%nat /\
  outcome_count [0; 1; 2] = 4%nat /\ outcome_count [0; 2; 1] = 5%nat.
Proof. vm_compute. auto. Qed.


(** ** denseLayer *)

Lemma weighted_sum_snoc acc row weights x w :
  length row = length weights ->
  weighted_sum acc (row ++ [x]) (weights ++ [w]) =
  F32.add (weighted_sum acc row weights) (F32.mul x w).
Proof.
  revert acc weights. induction row as [|y row IH]; intros acc [|v weights] Hl;
    simplify_eq/=; [reflexivity|]. by apply IH.
Qed.

Lemma read_lookup (a : list F32.t) (i : nat) (x : F32.t) :
  a !! i = Some x -> read a i = x.
Proof. unfold read. by intros ->. Qed.

(** The inner loop of [denseLayer] computes the sum of the row. *)
Lemma dense_row_score inputs weights biases i D bias :
  biases !! 0%nat = Some bias ->
  (i * D + D <= length inputs)%nat -> (D <= length weights)%nat ->
  dense_row inputs weights biases i D = score inputs weights bias D i.
Proof.
  intros Hb Hin Hw. unfold dense_row, score, matrix_row.
  rewrite (read_lookup _ _ _ Hb).
  apply (for_loop_invariant
           (fun m acc => (m <= D)%nat ->
              acc = weighted_sum bias (take m (drop (i * D) inputs)) (take m weights)));
    [done| |lia].
  intros k acc Hk IH _.
  destruct (lookup_lt_is_Some_2 inputs (i * D + k)) as [x Hx]; [lia|].
  destruct (lookup_lt_is_Some_2 weights k) as [w Hw']; [lia|].
  rewrite (read_lookup _ _ _ Hx), (read_lookup _ _ _ Hw').
  rewrite (take_S_r _ _ x) by (by rewrite lookup_drop).
  rewrite (take_S_r _ _ w) by done.
  rewrite weighted_sum_snoc.
  - by rewrite IH by lia.
  - rewrite !length_take, length_drop. lia.
Qed.

Lemma denseLayer_lookup inputs weights biases outputs n D i :
  (i < n)%nat -> (n <= length outputs)%nat ->
  denseLayer inputs weights biases outputs n D !! i =
  Some (dense_row inputs weights biases i D).
Proof.
  intros Hi Hn. unfold denseLayer.
  apply (for_loop_invariant
           (fun m s => length s = length outputs /\
              ((i < m)%nat -> s !! i = Some (dense_row inputs weights biases i D)))
           n); [split; [done|lia]| |exact Hi].
  intros k s Hk [Hl IH]. split; [by rewrite length_insert|]. intros Hik.
  destruct (decide (k = i)) as [->|Hne].
  - rewrite list_lookup_insert_eq by lia. done.
  - rewrite list_lookup_insert_ne by done. apply IH. lia.
Qed.

(** C5. For a matrix of [N] rows of [D] cells, [D] weights and a bias,
    [denseLayer] stores in [outputs[i]], for every row [i], the bias plus
    the sum over [k] from 0 to [D - 1] of [matrix[i][k] * weights[k]], the
    terms being added in [float] in that order. *)
Theorem denseLayer_scores (inputs weights biases outputs : list F32.t)
    (N D i : nat) (bias : F32.t) :
  length inputs = (N * D)%nat -> length weights = D ->
  biases !! 0%nat = Some bias -> length outputs = N ->
  (i < N)%nat ->
  denseLayer inputs weights biases outputs N D !! i =
  Some (score inputs weights bias D i).
Proof.
  intros Hin Hw Hb Hout Hi.
  rewrite denseLayer_lookup by lia. f_equal.
  apply dense_row_score; [done| |lia]. rewrite Hin. nia.
Qed.

Lemma denseLayer_scores_witness :
  denseLayer sample_inputs sample_weights sample_biases sample_block 2 2 !! 1%nat
  = Some (score sample_inputs sample_weights F32.one 2 1).
Proof.
  apply (denseLayer_scores sample_inputs sample_weights sample_biases
           sample_block 2 2 1 F32.one); [reflexivity..|lia].
Defined.

(** ** evaluate *)

Lemma predicted_label_cases (o : F32.t) :
  predicted_label o = 0 \/ predicted_label o = 4.
Proof. unfold predicted_label. destruct (F32.ltb threshold o); auto. Qed.

Lemma count_step_cases outputs labels i correct :
  count_step outputs labels i correct = correct \/
  count_step outputs labels i correct = correct + 1.
Proof. unfold count_step. case (_ =? _); auto. Qed.

(** A sample is counted only when its label is 0 or 4. *)
Lemma count_step_creditable outputs labels i l correct :
  labels !! i = Some l -> creditable l = false ->
  count_step outputs labels i correct = correct.
Proof.
  intros Hl Hc. unfold count_step. rewrite Hl.
  change (default 0 (Some l)) with l.
  unfold creditable in Hc. apply orb_false_iff in Hc as [H0 H4].
  destruct (predicted_label_cases (read outputs i)) as [-> | ->].
  - by rewrite Z.eqb_sym, H0.
  - by rewrite Z.eqb_sym, H4.
Qed.

Lemma correct_count_S outputs labels n :
  correct_count outputs labels (S n) =
  count_step outputs labels n (correct_count outputs labels n).
Proof. unfold correct_count. apply for_loop_S. Qed.

(** The loop counts the samples whose predicted label is their label. *)
Lemma correct_count_matches outputs labels n :
  (n <= length outputs)%nat -> (n <= length labels)%nat ->
  correct_count outputs labels n = Z.of_nat (matches (take n outputs) (take n labels)).
Proof.
  intros Ho Hl. induction n as [|n IH]; [reflexivity|].
  rewrite correct_count_S, IH by lia.
  destruct (lookup_lt_is_Some_2 outputs n) as [o Hon]; [lia|].
  destruct (lookup_lt_is_Some_2 labels n) as [l Hln]; [lia|].
  rewrite (take_S_r _ _ o), (take_S_r _ _ l) by done.
  unfold matches, count_step.
  rewrite zip_with_app by (rewrite !length_take; lia).
  rewrite list.filter_app, length_app. simpl zip_with.
  rewrite (read_lookup _ _ _ Hon), Hln.
  change (default 0 (Some l)) with l.
  rewrite filter_cons, filter_nil. cbn [fst snd].
  destruct (Z.eqb_spec (predicted_label o) l) as [E|E].
  - rewrite decide_True by (by apply bool_decide_pack). cbn [length]. lia.
  - rewrite decide_False by (by rewrite bool_decide_spec). cbn [length]. lia.
Qed.

Lemma correct_count_bounds outputs labels n :
  0 <= correct_count outputs labels n <= Z.of_nat n.
Proof.
  induction n as [|n IH]; [done|]. rewrite correct_count_S.
  destruct (count_step_cases outputs labels n (correct_count outputs labels n))
    as [-> | ->]; lia.
Qed.

Lemma correct_count_creditable outputs labels n :
  (n <= length labels)%nat ->
  correct_count outputs labels n <=
  Z.of_nat (length (filter (fun l => creditable l = true) (take n labels))).
Proof.
  intros Hl. induction n as [|n IH]; [done|].
  rewrite correct_count_S.
  destruct (lookup_lt_is_Some_2 labels n) as [l Hln]; [lia|].
  rewrite (take_S_r _ _ l) by done. rewrite list.filter_app, length_app.
  rewrite filter_cons, filter_nil.
  destruct (creditable l) eqn:Hc.
  - rewrite decide_True by done. simpl.
    destruct (count_step_cases outputs labels n (correct_count outputs labels n))
      as [-> | ->]; lia.
  - rewrite decide_False by done. simpl.
    rewrite (count_step_creditable _ _ _ l) by done. lia.
Qed.

(** C10. The predicted label is 0 or 4 and nothing else; a sample whose
    label is neither is never counted, whatever its output; and the
    number of correct predictions is at most the number of samples
    labelled 0 or 4. *)
Theorem evaluate_credits_only_0_and_4 (outputs : list F32.t) (labels : list Z)
    (n : nat) :
  (n <= length labels)%nat ->
  (forall o, predicted_label o = 0 \/ predicted_label o = 4) /\
  (forall i l correct, labels !! i = Some l -> l <> 0 -> l <> 4 ->
     count_step outputs labels i correct = correct) /\
  correct_count outputs labels n <=
  Z.of_nat (length (filter (fun l => creditable l = true) (take n labels))).
Proof.
  intros Hn. split; [apply predicted_label_cases|]. split.
  - intros i l correct Hl H0 H4. apply (count_step_creditable _ _ _ l); [done|].
    unfold creditable. apply orb_false_iff. split; by apply Z.eqb_neq.
  - by apply correct_count_creditable.
Qed.

Lemma evaluate_credits_only_0_and_4_witness :
  (forall o, predicted_label o = 0 \/ predicted_label o = 4) /\
  (forall i l correct, sample_labels !! i = Some l -> l <> 0 -> l <> 4 ->
     count_step sample_outputs sample_labels i correct = correct) /\
  correct_count sample_outputs sample_labels 3 <=
  Z.of_nat (length (filter (fun l => creditable l = true) (take 3 sample_labels))).
Proof.
  apply (evaluate_credits_only_0_and_4 sample_outputs sample_labels 3).
  simpl. lia.
Defined.

(** ** loadDataset *)

Section LoadFacts.
Variable P : Platform.

Lemma reserve_length_gt d c :
  well_sized (d, c) -> (c < length (reserve P d c))%nat.
Proof.
  intros [H0 Hc]. simpl in *. unfold reserve.
  destruct (Nat.leb_spec (length d) c);
    [rewrite length_app, length_map, length_seq|]; lia.
Qed.

Lemma reserve_enough d c : (c < length d)%nat -> reserve P d c = d.
Proof.
  intros H. unfold reserve. destruct (Nat.leb_spec (length d) c); [lia|done].
Qed.

Lemma reserve_idem d c :
  well_sized (d, c) -> reserve P (reserve P d c) c = reserve P d c.
Proof. intros H. apply reserve_enough. by apply reserve_length_gt. Qed.

Lemma reserve_take d c :
  (c <= length d)%nat -> take c (reserve P d c) = take c d.
Proof.
  intros H. unfold reserve. destruct (Nat.leb_spec (length d) c); [|done].
  by rewrite take_app_le.
Qed.

(** An iteration starts by reserving room, so it does the same from the
    array with the room reserved. *)
Lemma load_line_reserved d c line :
  well_sized (d, c) ->
  load_line P (d, c) line = load_line P (reserve P d c, c) line.
Proof. intros H. unfold load_line. by rewrite reserve_idem. Qed.

Lemma load_line_well_sized st line :
  well_sized st -> well_sized (load_line P st line).
Proof.
  destruct st as [d c]. intros H. pose proof (reserve_length_gt d c H) as Hg.
  unfold load_line, well_sized.
  destruct (strtok line comma) as [[token|] rest]; simpl; [|lia].
  destruct (reserve P d c !! c) as [p|] eqn:Hp.
  - destruct (text_token rest) as [t|]; simpl.
    + rewrite list_lookup_insert_eq by lia.
      rewrite !length_insert. lia.
    + rewrite length_insert. lia.
  - apply lookup_ge_None in Hp. lia.
Qed.

Lemma foldl_load_line_well_sized st lines :
  well_sized st -> well_sized (foldl (load_line P) st lines).
Proof.
  revert st. induction lines as [|l lines IH]; intros st H; [done|].
  simpl. apply IH. by apply load_line_well_sized.
Qed.

Lemma similar_refl st : similar P st st.
Proof. done. Qed.

(** A line without its text leaves a similar state; its count is the
    same. *)
Lemma load_line_dropped st line :
  well_sized st -> has_text line = false ->
  similar P (load_line P st line) st /\ (load_line P st line).2 = st.2.
Proof.
  destruct st as [d c]. intros H Hdrop.
  pose proof (reserve_length_gt d c H) as Hg.
  unfold has_text in Hdrop. unfold load_line.
  destruct (strtok line comma) as [[token|] rest]; simpl.
  - destruct (text_token rest) as [t|] eqn:Ht.
    { exfalso. rewrite bool_decide_eq_false in Hdrop. apply Hdrop. eauto. }
    destruct (reserve P d c !! c) as [p|] eqn:Hp.
    + split; [|done]. unfold similar. simpl.
      rewrite (reserve_enough (<[c:=_]> _)) by (rewrite length_insert; lia).
      rewrite length_insert. split; [done|]. split; [done|]. split.
      * intros k Hk. by rewrite list_lookup_insert_ne.
      * rewrite list_lookup_insert_eq by lia. by rewrite Hp.
    + apply lookup_ge_None in Hp. lia.
  - split; [|done]. unfold similar. simpl. by rewrite reserve_idem.
Qed.

(** An iteration takes similar states to similar states. *)
Lemma load_line_similar st st' line :
  well_sized st -> well_sized st' -> similar P st st' ->
  similar P (load_line P st line) (load_line P st' line).
Proof.
  destruct st as [d c], st' as [d' c']. intros H H' (Hc & Hl & Hk & Ht).
  simpl in Hc, Hl, Hk, Ht. subst c'.
  pose proof (reserve_length_gt d c H) as Hg.
  pose proof (reserve_length_gt d' c H') as Hg'.
  rewrite (load_line_reserved d), (load_line_reserved d') by done.
  set (g := reserve P d c) in *. set (g' := reserve P d' c) in *.
  unfold load_line. rewrite !reserve_enough by done.
  destruct (strtok line comma) as [[token|] rest]; simpl.
  - destruct (lookup_lt_is_Some_2 g c Hg) as [p Hp].
    destruct (lookup_lt_is_Some_2 g' c Hg') as [p' Hp'].
    rewrite Hp, Hp' in *. simpl in Ht. injection Ht as Ht.
    assert (<[c:=mkPost (text p) (atoi token)]> g =
            <[c:=mkPost (text p') (atoi token)]> g') as ->; [|apply similar_refl].
    apply list_eq. intros k. destruct (decide (k = c)) as [->|Hne].
    + rewrite !list_lookup_insert_eq by lia. by rewrite Ht.
    + rewrite !list_lookup_insert_ne by done. by apply Hk.
  - unfold similar. simpl. rewrite !reserve_enough by done. done.
Qed.

Lemma foldl_load_line_similar st st' lines :
  well_sized st -> well_sized st' -> similar P st st' ->
  similar P (foldl (load_line P) st lines) (foldl (load_line P) st' lines).
Proof.
  revert st st'. induction lines as [|l lines IH]; intros st st' H H' Hs; [done|].
  simpl. apply IH; [by apply load_line_well_sized..|].
  by apply load_line_similar.
Qed.

(** Similar states hold the same posts. *)
Lemma similar_posts st st' :
  well_sized st -> well_sized st' -> similar P st st' ->
  st.2 = st'.2 /\ take st.2 st.1 = take st.2 st'.1.
Proof.
  destruct st as [d c], st' as [d' c']. intros [_ H] [_ H'] (Hc & Hl & Hk & _).
  simpl in *. subst c'. split; [done|].
  rewrite <- (reserve_take d c), <- (reserve_take d' c) by done.
  apply list_eq. intros k. rewrite !lookup_take.
  destruct (decide (k < c)%nat); [|done]. apply Hk. lia.
Qed.

Lemma loadDataset_returns lines :
  loadDataset P (Some lines) =
  Return (foldl (load_line P) (map (heap_post P "dataset") (seq 0 1000), 0%nat) lines).
Proof. reflexivity. Qed.

Lemma initial_well_sized :
  well_sized (map (heap_post P "dataset") (seq 0 1000), 0%nat).
Proof. unfold well_sized. simpl. lia. Qed.
End LoadFacts.

(** C9. A line in which [loadDataset] does not find the text field is
    dropped without a message: loading a file with that line returns the
    same number of samples and the same posts as loading the file
    without it, whatever comes before and after the line. *)
Theorem loadDataset_drops_malformed (P : Platform) (before after : list (list byte))
    (line : list byte) :
  has_text line = false ->
  exists dataset dataset' count,
    loadDataset P (Some (before ++ line :: after)) = Return (dataset, count) /\
    loadDataset P (Some (before ++ after)) = Return (dataset', count) /\
    take count dataset = take count dataset'.
Proof.
  intros Hdrop. rewrite !loadDataset_returns.
  rewrite !foldl_app. simpl foldl.
  set (st := foldl (load_line P) _ before).
  assert (well_sized st) as Hst
    by apply foldl_load_line_well_sized, initial_well_sized.
  destruct (load_line_dropped P st line Hst Hdrop) as [Hsim Hcount].
  pose proof (load_line_well_sized P st line Hst) as Hst'.
  pose proof (foldl_load_line_similar P _ _ after Hst' Hst Hsim) as Hfin.
  apply similar_posts in Hfin; [|by apply foldl_load_line_well_sized..].
  destruct (foldl (load_line P) (load_line P st line) after) as [d c].
  destruct (foldl (load_line P) st after) as [d' c'].
  simpl in Hfin. destruct Hfin as [-> Htake].
  by exists d, d', c'.
Qed.

Lemma loadDataset_drops_malformed_witness :
  has_text cut_line = false /\
  exists dataset dataset' count,
    loadDataset sample_platform (Some ([good_line_1] ++ cut_line :: [good_line_2]))
      = Return (dataset, count) /\
    loadDataset sample_platform (Some ([good_line_1] ++ [good_line_2]))
      = Return (dataset', count) /\
    take count dataset = take count dataset'.
Proof.
  split; [reflexivity|].
  apply (loadDataset_drops_malformed sample_platform [good_line_1] [good_line_2] cut_line).
  reflexivity.
Defined.

(** ** Values written by tokenizeAndEmbed *)

(** Where [char] is unsigned, and for the bytes below 128 everywhere, the
    value converted is the code of the byte and the quotient lies in
    [[0, 1]]. *)
Lemma embed_char_unit (P : Platform) (c : byte) :
  char_is_signed P = false \/ ord c < 128 ->
  char_to_int (char_is_signed P) c = ord c /\
  in_unit_interval (embed_char P c) = true.
Proof.
  unfold embed_char. destruct (char_is_signed P).
  - intros [H|H]; [discriminate|]. revert H.
    destruct c; (vm_compute; (discriminate || (intros _; split; reflexivity))).
  - intros _. destruct c; vm_compute; split; reflexivity.
Qed.

(** Where [char] is signed, a byte from 128 upward is converted to its
    code minus 256 and the quotient is negative. *)
Lemma embed_char_negative (P : Platform) (c : byte) :
  char_is_signed P = true -> 128 <= ord c ->
  char_to_int (char_is_signed P) c = ord c - 256 /\
  F32.ltb (embed_char P c) F32.zero = true.
Proof.
  unfold embed_char. intros ->. 
  destruct c; (vm_compute; ((intros H; exfalso; apply H; reflexivity)
                            || (intros _; split; reflexivity))).
Qed.

Lemma rows_fit_singleton (txt : list byte) (l : Z) :
  length txt = MAX_TOKENS -> rows_fit [mkPost txt l].
Proof.
  intros H [|i] p Hp; simplify_eq/=. rewrite <- H. apply custom_strlen_le.
Qed.

(** The row of "ab" in a block of zeros: 97/255, 98/255, and zeros. *)
Lemma tokenizeAndEmbed_ab (P : Platform) :
  take 4 (tokenizeAndEmbed P [post_ab] zeroed_row 1) =
  [F32.div (F32.of_Z 97) (F32.of_Z 255); F32.div (F32.of_Z 98) (F32.of_Z 255);
   F32.zero; F32.zero] /\
  drop 2 (tokenizeAndEmbed P [post_ab] zeroed_row 1) =
  replicate (MAX_TOKENS - 2) F32.zero.
Proof.
  unfold tokenizeAndEmbed, embed_row, embed_char.
  destruct (char_is_signed P); vm_compute; split; reflexivity.
Qed.

(** C1 (what the code does). [tokenizeAndEmbed] writes no cell at or
    behind the length of a text: after the call every such cell of the
    row holds what the block held before the call, which is what
    [malloc] left there and not necessarily [0.0]. *)
Theorem tokenizeAndEmbed_keeps_padding (P : Platform) (dataset : list Post)
    (token_ids : list F32.t) (num_samples i j : nat) (p : Post) :
  rows_fit dataset ->
  dataset !! i = Some p ->
  (custom_strlen (text p) <= j < MAX_TOKENS)%nat ->
  cell (tokenizeAndEmbed P dataset token_ids num_samples) i j = cell token_ids i j.
Proof.
  intros Hfit Hp Hj. unfold cell. apply tokenizeAndEmbed_frame.
  intros k q Hk Hq.
  destruct (decide (k = i)) as [->|Hne].
  - assert (q = p) as -> by congruence. lia.
  - pose proof (Hfit k q Hq). unfold MAX_TOKENS in *. lia.
Qed.

Lemma tokenizeAndEmbed_keeps_padding_witness :
  cell (tokenizeAndEmbed sample_platform [post_ab] dirty_row 1) 0 2 = Some F32.one /\
  F32.eqb F32.one F32.zero = false.
Proof.
  split; [|reflexivity].
  rewrite (tokenizeAndEmbed_keeps_padding sample_platform [post_ab] dirty_row
             1 0 2 post_ab).
  - reflexivity.
  - apply rows_fit_singleton. reflexivity.
  - reflexivity.
  - vm_compute. split; [lia|]. apply Nat.leb_le. reflexivity.
Defined.

(** C4 (what the code does). For every character position [j] below the
    length of the text of record [i], [tokenizeAndEmbed] writes
    [(float) text[j] / 255.0f] in cell [j] of row [i].  Where plain [char]
    is unsigned, and for every byte below 128, the value converted is
    [ord] of the byte and the entry lies in [[0, 1]]; where plain [char]
    is signed, a byte from 128 upward is converted to [ord - 256] and the
    entry is negative. *)
Theorem tokenizeAndEmbed_writes_quotients (P : Platform) (dataset : list Post)
    (token_ids : list F32.t) (num_samples i j : nat) (p : Post) (c : byte) :
  rows_fit dataset ->
  length token_ids = (num_samples * MAX_TOKENS)%nat ->
  (i < num_samples)%nat -> dataset !! i = Some p ->
  (j < custom_strlen (text p))%nat -> text p !! j = Some c ->
  cell (tokenizeAndEmbed P dataset token_ids num_samples) i j =
    Some (F32.div (F32.of_Z (char_to_int (char_is_signed P) c)) (F32.of_Z 255)) /\
  (char_is_signed P = false \/ ord c < 128 ->
     char_to_int (char_is_signed P) c = ord c /\
     in_unit_interval (embed_char P c) = true) /\
  (char_is_signed P = true -> 128 <= ord c ->
     char_to_int (char_is_signed P) c = ord c - 256 /\
     F32.ltb (embed_char P c) F32.zero = true).
Proof.
  intros Hfit Hlen Hi Hp Hj Hc. split; [|split].
  - apply (tokenizeAndEmbed_cell_written P dataset token_ids num_samples i j p c);
      try assumption.
    pose proof (Hfit i p Hp). rewrite Hlen. unfold MAX_TOKENS in *. nia.
  - apply embed_char_unit.
  - apply embed_char_negative.
Qed.

Lemma tokenizeAndEmbed_writes_quotients_witness :
  cell (tokenizeAndEmbed sample_platform [post_accent] dirty_row 1) 0 0 =
    Some (F32.div (F32.of_Z (-61)) (F32.of_Z 255)) /\
  F32.ltb (F32.div (F32.of_Z (-61)) (F32.of_Z 255)) F32.zero = true.
Proof.
  destruct (tokenizeAndEmbed_writes_quotients sample_platform [post_accent]
              dirty_row 1 0 0 post_accent xc3) as (Hcell & _ & Hneg).
  - apply rows_fit_singleton. reflexivity.
  - reflexivity.
  - lia.
  - reflexivity.
  - vm_compute. lia.
  - reflexivity.
  - split; [exact Hcell|]. apply Hneg; [reflexivity|]. vm_compute. discriminate.
Defined.

(** ** loadAndSplitDataset *)

Lemma copy_posts_length src off n dst :
  length (copy_posts src off n dst) = length dst.
Proof.
  unfold copy_posts.
  apply (for_loop_invariant (fun _ d => length d = length dst)); [done|].
  intros i d _ Hd. destruct (src !! (off + i)%nat); [by rewrite length_insert|done].
Qed.

Lemma safe_malloc_length {A : Type} (P : Platform) (heap : string -> nat -> A)
    n name block :
  safe_malloc P heap n name = Return block -> length block = n.
Proof.
  unfold safe_malloc. destruct (_ && _); [discriminate|].
  intros [= <-]. by rewrite length_map, length_seq.
Qed.

(** What [loadAndSplitDataset] returns, in terms of the number of
    samples loaded. *)
Lemma loadAndSplitDataset_returns (P : Platform)
    (file : option (list (list byte))) (now : Z) (s : split) :
  loadAndSplitDataset P file now = Return s ->
  (exists dataset count,
     loadDataset P file = Return (dataset, count) /\
     num_samples s = Z.of_nat count) /\
  length (trainSet s) = Z.to_nat (trainSize s) /\
  length (testSet s) = Z.to_nat (testSize s) /\
  testSize s = num_samples s - trainSize s /\
  trainSize s = train_size (num_samples s).
Proof.
  intros Hs. unfold loadAndSplitDataset in Hs.
  destruct (loadDataset P file) as [c m|[dataset count]] eqn:Hload; [discriminate|].
  destruct (safe_malloc P (heap_post P) (Z.to_nat (train_size (Z.of_nat count)))
              "trainSet") as [c m|train] eqn:Htrain; [discriminate|].
  destruct (safe_malloc P (heap_post P)
              (Z.to_nat (Z.of_nat count - train_size (Z.of_nat count)))
              "testSet") as [c m|test] eqn:Htest; [discriminate|].
  injection Hs as <-. cbn [trainSet testSet trainSize testSize num_samples] in *.
  apply safe_malloc_length in Htrain, Htest.
  split; [eauto|]. rewrite !copy_posts_length. by repeat split.
Qed.

(** Neither size is negative. *)
Lemma train_size_range N :
  0 <= N < 2 ^ 31 -> 0 <= train_size N <= N.
Proof.
  intros HN. destruct (Z.eq_dec N 0) as [->|Hne]; [by vm_compute|].
  destruct (train_size_bounds N HN) as [[Hlo Hhi] Hex].
  pose proof (Z.div_mod (7 * N) 10 ltac:(lia)) as E.
  pose proof (Z.mod_pos_bound (7 * N) 10 ltac:(lia)) as B.
  split; [|lia].
  destruct (Z.eq_dec (N mod 10) 0) as [H0|H0].
  - pose proof (Z.div_mod N 10 ltac:(lia)) as E'. rewrite H0 in E'. lia.
  - rewrite (Hex H0). lia.
Qed.

(** C7 (as amended). When [loadAndSplitDataset] returns, with [N]
    samples loaded and [N] in the range of [int]: the two sets have
    [trainSize] and [testSize] records, [trainSize + testSize = N],
    [testSize = N - trainSize], and [trainSize] is [(int)(N * 0.7)]
    computed in [double], which is [floor(7 N / 10)] when [N] is not a
    multiple of 10 and [floor(7 N / 10)] or one less when it is. *)
Theorem loadAndSplitDataset_sizes (P : Platform)
    (file : option (list (list byte))) (now : Z) (s : split) :
  loadAndSplitDataset P file now = Return s ->
  num_samples s < 2 ^ 31 ->
  (exists dataset count,
     loadDataset P file = Return (dataset, count) /\
     num_samples s = Z.of_nat count) /\
  length (trainSet s) = Z.to_nat (trainSize s) /\
  length (testSet s) = Z.to_nat (testSize s) /\
  trainSize s + testSize s = num_samples s /\
  testSize s = num_samples s - trainSize s /\
  trainSize s = train_size (num_samples s) /\
  7 * num_samples s / 10 - 1 <= trainSize s <= 7 * num_samples s / 10 /\
  (num_samples s mod 10 <> 0 -> trainSize s = 7 * num_samples s / 10).
Proof.
  intros Hs Hint.
  destruct (loadAndSplitDataset_returns P file now s Hs)
    as (Hload & Ltr & Lte & Hte & Htr).
  assert (0 <= num_samples s) by (destruct Hload as (? & ? & _ & ->); lia).
  pose proof (train_size_bounds (num_samples s) ltac:(lia)) as [Hb He].
  rewrite <- Htr in Hb, He. repeat split; (assumption || lia).
Qed.

Lemma loadAndSplitDataset_sizes_witness :
  exists s,
    loadAndSplitDataset sample_platform (Some sample_file) 0 = Return s /\
    num_samples s = 2 /\ trainSize s = 1 /\ testSize s = 1 /\
    length (trainSet s) = 1%nat /\ length (testSet s) = 1%nat.
Proof.
  destruct (loadAndSplitDataset sample_platform (Some sample_file) 0)
    as [c m|s] eqn:Hs; [vm_compute in Hs; discriminate|].
  exists s. split; [reflexivity|].
  assert (num_samples s = 2) as HN.
  { vm_compute in Hs. injection Hs as <-. reflexivity. }
  destruct (loadAndSplitDataset_sizes sample_platform (Some sample_file) 0 s Hs)
    as (_ & Ltr & Lte & Hsum & _ & _ & _ & Hex); [rewrite HN; reflexivity|].
  rewrite HN in Hsum, Hex. specialize (Hex ltac:(discriminate)).
  change (7 * 2 / 10) with 1 in Hex.
  assert (testSize s = 1) as Hte by lia.
  rewrite Ltr, Lte, Hex, Hte. repeat split; assumption || reflexivity.
Defined.

(** C7 (counterexample). With 90 samples the training set gets 62
    records, while [floor(0.7 * 90)] is 63: the [double] nearest to 0.7
    is below 0.7 and the product rounds to the [double] below 63. *)
Lemma train_size_90 :
  train_size 90 = 62 /\ 7 * 90 / 10 = 63 /\
  F64.mul (F64.of_Z 90) (F64.literal 7 10)
  = S754_finite false 8866461766385663 (-47).
Proof. vm_compute. auto. Qed.

(** ** The posts that reach the vectorizer *)

Lemma full_texts_rows_fit posts : full_texts posts -> rows_fit posts.
Proof.
  intros H i p Hp. rewrite <- (proj1 (Forall_lookup _ _) H i p Hp).
  apply custom_strlen_le.
Qed.

Lemma load_line_full_texts (P : Platform) st line :
  well_sized st -> full_texts (take st.2 st.1) ->
  full_texts (take (load_line P st line).2 (load_line P st line).1).
Proof.
  destruct st as [d c]. intros Hw Hfull. cbn [fst snd] in Hfull.
  pose proof (reserve_length_gt P d c Hw) as Hg.
  rewrite <- (reserve_take P d c) in Hfull by apply Hw.
  unfold load_line. set (g := reserve P d c) in *.
  destruct (strtok line comma) as [[token|] rest]; cbn [fst snd]; [|exact Hfull].
  destruct (lookup_lt_is_Some_2 g c Hg) as [p Hp]. rewrite Hp.
  destruct (text_token rest) as [t|]; cbn [fst snd].
  - rewrite list_lookup_insert_eq by lia.
    rewrite list_insert_insert_eq.
    rewrite (take_S_r _ _ (mkPost (strncpy_text t) (atoi token)))
      by (by rewrite list_lookup_insert_eq by lia).
    rewrite take_insert_ge by lia.
    apply Forall_app. split; [exact Hfull|].
    constructor; [apply strncpy_text_length|constructor].
  - by rewrite take_insert_ge by lia.
Qed.

Lemma foldl_load_line_full_texts (P : Platform) st lines :
  well_sized st -> full_texts (take st.2 st.1) ->
  full_texts (take (foldl (load_line P) st lines).2
                   (foldl (load_line P) st lines).1).
Proof.
  revert st. induction lines as [|l lines IH]; intros st Hw Hf; [exact Hf|].
  simpl. apply IH; [by apply load_line_well_sized|by apply load_line_full_texts].
Qed.

Lemma loadDataset_full_texts (P : Platform) lines dataset count :
  loadDataset P (Some lines) = Return (dataset, count) ->
  (count <= length dataset)%nat /\ full_texts (take count dataset).
Proof.
  rewrite loadDataset_returns.
  set (st0 := (map (heap_post P "dataset") (seq 0 1000), 0%nat)).
  intros H.
  assert (foldl (load_line P) st0 lines = (dataset, count)) as H' by congruence.
  pose proof (foldl_load_line_full_texts P st0 lines (initial_well_sized P)
                ltac:(constructor)) as Hfull.
  pose proof (foldl_load_line_well_sized P st0 lines (initial_well_sized P)) as [_ Hc].
  rewrite H' in Hfull, Hc. by split.
Qed.

Lemma copy_posts_lookup src off n dst i :
  (i < n)%nat -> length dst = n -> (off + n <= length src)%nat ->
  copy_posts src off n dst !! i = src !! (off + i)%nat.
Proof.
  intros Hi Hl Hs. unfold copy_posts.
  apply (for_loop_invariant
           (fun m d => length d = n /\
              ((i < m)%nat -> d !! i = src !! (off + i)%nat)) n);
    [split; [done|lia]| |exact Hi].
  intros k d Hk [Hd IH].
  destruct (lookup_lt_is_Some_2 src (off + k)) as [p Hp]; [lia|]. rewrite Hp.
  split; [by rewrite length_insert|]. intros Hik.
  destruct (decide (k = i)) as [->|Hne].
  - rewrite list_lookup_insert_eq by lia. done.
  - rewrite list_lookup_insert_ne by done. apply IH. lia.
Qed.

(** The posts of both sets come from [loadDataset]: their texts fill
    their buffers and fit the rows of the matrix. *)
Lemma loadAndSplitDataset_rows_fit (P : Platform) lines now s :
  loadAndSplitDataset P (Some lines) now = Return s ->
  num_samples s < 2 ^ 31 ->
  rows_fit (trainSet s) /\ rows_fit (testSet s).
Proof.
  intros Hs Hint.
  destruct (loadAndSplitDataset_returns P _ now s Hs)
    as ((dataset & count & Hload & HN) & Ltr & Lte & Hte & Htr).
  pose proof (train_size_range (num_samples s) ltac:(lia)) as Hrange.
  destruct (loadDataset_full_texts P lines dataset count Hload) as [Hcount Hfull].
  unfold loadAndSplitDataset in Hs. rewrite Hload in Hs.
  destruct (safe_malloc P (heap_post P) _ "trainSet") as [|train] eqn:Htrain;
    [discriminate|].
  destruct (safe_malloc P (heap_post P) _ "testSet") as [|test] eqn:Htest;
    [discriminate|].
  injection Hs as <-. cbn [trainSet testSet trainSize testSize num_samples] in *.
  apply safe_malloc_length in Htrain, Htest.
  set (shuffled := shuffleDataset (prng P now) dataset count) in *.
  destruct (shuffleDataset_invariant (prng P now) dataset count) as (_ & Hlen & _).
  fold shuffled in Hlen.
  assert (full_texts (take count shuffled)) as Hsh.
  { unfold full_texts, shuffled.
    rewrite (shuffleDataset_take_perm (prng P now) dataset count). exact Hfull. }
  assert (forall off n dst, length dst = n -> (off + n <= count)%nat ->
            full_texts (copy_posts shuffled off n dst)) as Hcopy.
  { intros off n dst Hd Hon. apply Forall_lookup. intros i p Hp.
    assert (i < n)%nat as Hi.
    { apply lookup_lt_Some in Hp. rewrite copy_posts_length in Hp. lia. }
    rewrite copy_posts_lookup in Hp by lia.
    apply (proj1 (Forall_lookup _ _) Hsh (off + i)%nat p).
    rewrite lookup_take_lt by lia. exact Hp. }
  split; apply full_texts_rows_fit, Hcopy; lia.
Qed.

(** ** main and the empty splits *)

Lemma foldl_load_line_all_dropped (P : Platform) st lines :
  well_sized st -> Forall (fun l => has_text l = false) lines ->
  (foldl (load_line P) st lines).2 = st.2.
Proof.
  revert st. induction lines as [|l lines IH]; intros st Hst Hall; [done|].
  inversion_clear Hall as [|? ? Hl Hall']. simpl.
  rewrite IH; [|by apply load_line_well_sized|done].
  by apply load_line_dropped.
Qed.

Lemma train_size_0 : train_size 0 = 0.
Proof. reflexivity. Qed.

(** With no sample loaded the program stops in [loadAndSplitDataset] when
    [malloc 0] is null and goes on to the test of [main] otherwise. *)
Lemma loadAndSplitDataset_empty (P : Platform) lines now :
  Forall (fun l => has_text l = false) lines ->
  if malloc_zero_is_null P
  then loadAndSplitDataset P (Some lines) now = Exit 1 [AllocationFailed "trainSet"]
  else exists s, loadAndSplitDataset P (Some lines) now = Return s /\ trainSize s = 0.
Proof.
  intros Hall. unfold loadAndSplitDataset. rewrite loadDataset_returns.
  pose proof (foldl_load_line_all_dropped P _ lines (initial_well_sized P) Hall) as Hc.
  destruct (foldl (load_line P) _ lines) as [d c]. simpl in Hc. subst c.
  change (Z.of_nat 0) with 0. rewrite train_size_0.
  unfold safe_malloc. change (Z.to_nat 0) with 0%nat.
  change (Z.to_nat (0 - 0)) with 0%nat. simpl.
  destruct (malloc_zero_is_null P); [done|]. eauto.
Qed.

(** C2 (as amended). [main] tests the sizes of the two splits before it
    allocates or computes anything else: when either split is empty it
    prints that no samples were found and returns 1; with no sample
    loaded the run ends with status 1 and an error message, in [main] or,
    where [malloc 0] is null, in [safe_malloc]; and an accuracy is
    printed only when neither split is empty, so that [evaluate] is
    reached with at least one sample.  [evaluate] has no test of its
    own. *)
Theorem main_rejects_empty_splits (P : Platform)
    (file : option (list (list byte))) (now1 now2 : Z) :
  (forall s, loadAndSplitDataset P file now1 = Return s ->
     trainSize s = 0 \/ testSize s = 0 ->
     main P file now1 now2 = (1, [Starting; NoSamplesFound])) /\
  (forall lines, file = Some lines ->
     Forall (fun l => has_text l = false) lines ->
     main P file now1 now2 =
       (1, [Starting; if malloc_zero_is_null P
                      then AllocationFailed "trainSet" else NoSamplesFound])) /\
  (forall m, m ∈ (main P file now1 now2).2 -> reports_accuracy m = true ->
     exists s, loadAndSplitDataset P file now1 = Return s /\
               trainSize s <> 0 /\ testSize s <> 0 /\
               (num_samples s < 2 ^ 31 ->
                (1 <= Z.to_nat (trainSize s))%nat /\
                (1 <= Z.to_nat (testSize s))%nat)).
Proof.
  split; [|split].
  - intros s Hs Hz. unfold main. rewrite Hs.
    destruct Hz as [-> | ->]; [done|]. by rewrite orb_true_r.
  - intros lines -> Hall.
    pose proof (loadAndSplitDataset_empty P lines now1 Hall) as H.
    unfold main. destruct (malloc_zero_is_null P).
    + by rewrite H.
    + destruct H as (s & -> & ->). done.
  - intros m Hin Hacc. unfold main in Hin.
    destruct (loadAndSplitDataset P file now1) as [c out|s] eqn:Hs.
    + exfalso. simpl in Hin. apply elem_of_cons in Hin as [->|Hin]; [done|].
      unfold loadAndSplitDataset in Hs.
      destruct file as [lines|]; simpl in Hs.
      * destruct (foldl (load_line P) _ lines) as [d n].
        unfold safe_malloc in Hs.
        repeat (destruct (_ && _) in Hs; simplify_eq/=;
                try by no_accuracy Hin Hacc).
      * simplify_eq. no_accuracy Hin Hacc.
    + exists s. split; [done|].
      destruct ((trainSize s =? 0) || (testSize s =? 0)) eqn:E.
      { exfalso. cbn [snd] in Hin. no_accuracy Hin Hacc. }
      apply orb_false_iff in E as [E1 E2].
      apply Z.eqb_neq in E1, E2. split; [done|]. split; [done|]. intros Hint.
      destruct (loadAndSplitDataset_returns P file now1 s Hs)
        as (Hload & _ & _ & Hte & Htr).
      assert (0 <= num_samples s) by (destruct Hload as (? & ? & _ & ->); lia).
      pose proof (train_size_range (num_samples s) ltac:(lia)). lia.
Qed.

Lemma main_rejects_empty_splits_witness :
  main sample_platform (Some [cut_line]) 0 0 = (1, [Starting; NoSamplesFound]).
Proof.
  destruct (main_rejects_empty_splits sample_platform (Some [cut_line]) 0 0)
    as (_ & H & _).
  apply (H [cut_line]); [reflexivity|].
  constructor; [reflexivity|constructor].
Defined.

(** C2 (counterexample). [evaluate] called with no sample returns the
    NaN of [0.0f / 0.0f] and reports nothing. *)
Lemma evaluate_empty_is_nan : evaluate [] [] 0 = S754_nan.
Proof. reflexivity. Qed.

(** ** The accuracy *)

Lemma matches_le_length outputs labels :
  length outputs = length labels -> (matches outputs labels <= length outputs)%nat.
Proof.
  intros Hl. unfold matches.
  etransitivity; [apply length_filter|]. rewrite length_zip_with. lia.
Qed.

(** C3. For outputs and labels of the same length [N], with [N] at least
    1 and in the range of [int]: the predicted label is 4 exactly when
    the output is greater than the [float] 0.6f (the number
    [10066330 * 2 ^ -24]) and 0 otherwise; [evaluate] returns the [float]
    quotient of the number of samples whose predicted label equals their
    label by [N]; and that value lies in [[0, 1]]. *)
Theorem evaluate_accuracy (outputs : list F32.t) (labels : list Z) (N : nat) :
  length outputs = N -> length labels = N ->
  (1 <= N)%nat -> Z.of_nat N < 2 ^ 31 ->
  threshold = S754_finite false 10066330 (-24) /\
  (forall o, (F32.ltb threshold o = true -> predicted_label o = 4) /\
             (F32.ltb threshold o = false -> predicted_label o = 0)) /\
  evaluate outputs labels N =
    F32.div (F32.of_Z (Z.of_nat (matches outputs labels)))
            (F32.of_Z (Z.of_nat N)) /\
  in_unit_interval (evaluate outputs labels N) = true.
Proof.
  intros Ho Hl HN Hint.
  assert (correct_count outputs labels N = Z.of_nat (matches outputs labels)) as Hc.
  { rewrite correct_count_matches by lia.
    by rewrite (take_ge outputs N), (take_ge labels N) by lia. }
  split; [reflexivity|]. split; [|split].
  - intros o. unfold predicted_label. split; intros ->; reflexivity.
  - unfold evaluate. by rewrite Hc.
  - unfold evaluate. rewrite Hc.
    pose proof (matches_le_length outputs labels ltac:(lia)).
    apply F32_div_of_Z_unit; lia.
Qed.

Lemma evaluate_accuracy_witness :
  threshold = S754_finite false 10066330 (-24) /\
  (forall o, (F32.ltb threshold o = true -> predicted_label o = 4) /\
             (F32.ltb threshold o = false -> predicted_label o = 0)) /\
  evaluate sample_outputs sample_labels 3 =
    F32.div (F32.of_Z (Z.of_nat (matches sample_outputs sample_labels)))
            (F32.of_Z (Z.of_nat 3)) /\
  in_unit_interval (evaluate sample_outputs sample_labels 3) = true.
Proof.
  apply (evaluate_accuracy sample_outputs sample_labels 3);
    [reflexivity|reflexivity|lia|reflexivity].
Defined.

(** ** sigmoidActivation *)

Lemma sigmoid_activation (P : Platform) (x : F32.t) :
  sigmoid P x = activation (expf P (F32.opp x)).
Proof. reflexivity. Qed.

(** The loop replaces each of the first [size] entries by its image. *)
Lemma sigmoidActivation_lookup (P : Platform) outputs size i x :
  (i < size)%nat -> (size <= length outputs)%nat -> outputs !! i = Some x ->
  sigmoidActivation P outputs size !! i = Some (sigmoid P x).
Proof.
  intros Hi Hs Hx. unfold sigmoidActivation.
  apply (for_loop_invariant
           (fun m s => length s = length outputs /\
              (forall j, (m <= j)%nat -> s !! j = outputs !! j) /\
              ((i < m)%nat -> s !! i = Some (sigmoid P x)))
           size); [split; [done|split; [done|lia]]| |exact Hi].
  intros k s Hk (Hl & Hrest & IH). split; [by rewrite length_insert|]. split.
  - intros j Hj. rewrite list_lookup_insert_ne by lia. apply Hrest. lia.
  - intros Hik. destruct (decide (k = i)) as [->|Hne].
    + rewrite list_lookup_insert_eq by lia.
      unfold read. rewrite Hrest by lia. rewrite Hx. reflexivity.
    + rewrite list_lookup_insert_ne by done. apply IH. lia.
Qed.

(** C6 (as amended). [sigmoidActivation] replaces each output [x] by
    [1.0f / (1.0f + expf(-x))].  Whenever [expf] returns a valid float
    that is not negative and not a NaN, the activated value lies in the
    closed interval [[0, 1]]; and for [x <= y], whenever [expf] returns
    such floats at [-x] and [-y] and is monotone there, the activated
    value of [x] is at most that of [y]. *)
Theorem sigmoidActivation_properties (P : Platform) :
  (forall outputs size i x,
     (i < size)%nat -> (size <= length outputs)%nat -> outputs !! i = Some x ->
     sigmoidActivation P outputs size !! i
     = Some (F32.div F32.one (F32.add F32.one (expf P (F32.opp x))))) /\
  (forall x,
     F32.valid (expf P (F32.opp x)) = true -> nonneg_float (expf P (F32.opp x)) ->
     in_unit_interval (sigmoid P x) = true) /\
  (forall x y,
     F32.valid (expf P (F32.opp x)) = true -> nonneg_float (expf P (F32.opp x)) ->
     F32.valid (expf P (F32.opp y)) = true -> nonneg_float (expf P (F32.opp y)) ->
     (F32.leb (F32.opp y) (F32.opp x) = true ->
      F32.leb (expf P (F32.opp y)) (expf P (F32.opp x)) = true) ->
     F32.leb x y = true ->
     F32.leb (sigmoid P x) (sigmoid P y) = true).
Proof.
  split; [|split].
  - intros outputs size i x Hi Hs Hx. by apply sigmoidActivation_lookup.
  - intros x Hv Hn. rewrite sigmoid_activation. by apply activation_unit.
  - intros x y Hvx Hnx Hvy Hny Hmono Hle. rewrite !sigmoid_activation.
    apply activation_antitone; try assumption.
    apply Hmono. by apply SFleb_opp.
Qed.

Lemma sigmoidActivation_properties_witness :
  sigmoidActivation sample_platform [f_one; f_two] 2 !! 1%nat
  = Some (F32.div F32.one (F32.add F32.one (expf sample_platform (F32.opp f_two)))) /\
  in_unit_interval (sigmoid sample_platform f_one) = true /\
  F32.leb (sigmoid sample_platform f_one) (sigmoid sample_platform f_two) = true.
Proof.
  destruct (sigmoidActivation_properties sample_platform) as (Hmap & Hunit & Hmono).
  split; [|split].
  - apply (Hmap [f_one; f_two] 2%nat 1%nat f_two); [lia|simpl; lia|reflexivity].
  - apply (Hunit f_one); [reflexivity|exact I].
  - apply (Hmono f_one f_two); [reflexivity|exact I|reflexivity|exact I| |reflexivity].
    intros _. reflexivity.
Defined.

(** C6 (counterexample). At the finite input 20 the activated value is
    exactly 1, not below it: with the stand-in for [expf], and with any
    [expf] that returns at -20 a valid nonnegative float not above
    [2 ^ -24] (the exponential of -20 is about [2 ^ -29]).  And where
    [expf] overflows to the infinity the activated value is exactly 0. *)
Lemma sigmoid_saturates :
  sigmoid sample_platform f_twenty = F32.one /\
  (forall P : Platform,
     F32.valid (expf P (F32.opp f_twenty)) = true ->
     nonneg_float (expf P (F32.opp f_twenty)) ->
     F32.leb (expf P (F32.opp f_twenty)) half_ulp_one = true ->
     sigmoid P f_twenty = F32.one /\
     F32.ltb (sigmoid P f_twenty) F32.one = false) /\
  activation (S754_infinity false) = S754_zero false.
Proof.
  split; [reflexivity|]. split; [|reflexivity].
  intros P Hv Hn Hle. rewrite sigmoid_activation.
  rewrite (activation_saturates _ Hv Hn Hle). split; reflexivity.
Qed.

(** * Further properties of the program *)

(** ** custom_strlen *)

Lemma custom_strlen_app (s r : list byte) :
  x00 ∉ s -> custom_strlen (s ++ x00 :: r) = length s.
Proof.
  induction s as [|c s IH]; intros H; [reflexivity|].
  apply not_elem_of_cons in H as [Hc Hs]. simpl.
  destruct (Byte.eqb c x00) eqn:E; [by apply byte_dec_bl in E|].
  by rewrite IH.
Qed.

Lemma c_string_app (s r : list byte) :
  x00 ∉ s -> c_string (s ++ x00 :: r) = s.
Proof.
  intros H. unfold c_string. rewrite custom_strlen_app by done.
  by rewrite take_app_length.
Qed.

Lemma custom_strlen_first_nul_at (str : list byte) :
  x00 ∈ str -> str !! custom_strlen str = Some x00.
Proof.
  induction str as [|c r IH]; intros H; [by apply elem_of_nil in H|].
  simpl. destruct (Byte.eqb c x00) eqn:E.
  - by apply byte_dec_bl in E as ->.
  - apply eqb_false in E. apply elem_of_cons in H as [Heq|H]; [congruence|].
    by apply IH.
Qed.

(** X1.  [custom_strlen] returns the position of the first NUL byte of a
    buffer that holds one: the byte at that position is NUL and no byte
    before it is. *)
Theorem custom_strlen_first_nul (str : list byte) :
  x00 ∈ str ->
  str !! custom_strlen str = Some x00 /\
  (custom_strlen str < length str)%nat /\
  forall k c, (k < custom_strlen str)%nat -> str !! k = Some c -> c <> x00.
Proof.
  induction str as [|c r IH]; intros H; [by apply elem_of_nil in H|].
  simpl. destruct (Byte.eqb c x00) eqn:E.
  - apply byte_dec_bl in E as ->. split; [reflexivity|]. split; [lia|].
    intros k c Hk. lia.
  - apply eqb_false in E. apply elem_of_cons in H as [Heq|H]; [congruence|].
    destruct (IH H) as (H1 & H2 & H3). split; [exact H1|]. split; [lia|].
    intros [|k] c' Hk Hc'; simplify_eq/=; [done|].
    apply (H3 k); [lia|done].
Qed.

Lemma custom_strlen_first_nul_witness :
  custom_strlen [x61; x62; x00; x63; x00] = 2%nat /\
  [x61; x62; x00; x63; x00] !! custom_strlen [x61; x62; x00; x63; x00] = Some x00.
Proof.
  split; [reflexivity|].
  apply (custom_strlen_first_nul [x61; x62; x00; x63; x00]).
  apply (list_elem_of_lookup_2 _ 2%nat). reflexivity.
Defined.

(** ** strncpy into the text buffer *)

Lemma strncpy_text_eq (token : list byte) :
  strncpy_text token =
  take (MAX_TOKENS - 1) token ++ x00 ::
    replicate (MAX_TOKENS - 1 - length (take (MAX_TOKENS - 1) token)) x00.
Proof.
  unfold strncpy_text. f_equal.
  pose proof (length_take_le token (MAX_TOKENS - 1)).
  assert (length (take (MAX_TOKENS - 1) token) <= MAX_TOKENS - 1)%nat as Hl
    by (rewrite length_take; lia).
  replace (MAX_TOKENS - length (take (MAX_TOKENS - 1) token))%nat
    with (S (MAX_TOKENS - 1 - length (take (MAX_TOKENS - 1) token))).
  - reflexivity.
  - unfold MAX_TOKENS in *. lia.
Qed.

Lemma not_elem_of_take (n : nat) (c : byte) (s : list byte) :
  c ∉ s -> c ∉ take n s.
Proof.
  intros H Hin. apply H. apply elem_of_take in Hin as (i & Hi & _).
  by apply list_elem_of_lookup_2 in Hi.
Qed.

(** X2.  The text buffer after [strncpy] and the store of the terminator:
    1024 bytes that hold, read as a string, the first 1023 bytes of the
    token, the whole token when it is shorter. *)
Theorem strncpy_text_c_string (token : list byte) :
  x00 ∉ token ->
  length (strncpy_text token) = MAX_TOKENS /\
  c_string (strncpy_text token) = take (MAX_TOKENS - 1) token /\
  custom_strlen (strncpy_text token) = (length token `min` (MAX_TOKENS - 1))%nat /\
  strncpy_text token !! custom_strlen (strncpy_text token) = Some x00.
Proof.
  intros H. split; [apply strncpy_text_length|].
  pose proof (not_elem_of_take (MAX_TOKENS - 1) _ _ H) as Ht.
  rewrite strncpy_text_eq.
  split; [by apply c_string_app|].
  rewrite custom_strlen_app by done. split.
  - rewrite length_take. lia.
  - by rewrite list_lookup_middle.
Qed.

Lemma strncpy_text_c_string_witness :
  c_string (strncpy_text [x61; x62]) = [x61; x62] /\
  custom_strlen (strncpy_text [x61; x62]) = 2%nat.
Proof.
  assert (x00 ∉ [x61; x62]) as H.
  { intros Hin. repeat (apply elem_of_cons in Hin as [Hin|Hin]; [discriminate|]).
    by apply elem_of_nil in Hin. }
  destruct (strncpy_text_c_string [x61; x62] H) as (_ & H1 & H2 & _).
  split; [exact H1|exact H2].
Defined.

(** ** strtok *)

Lemma scan_token_field (delim f : list byte) (d : byte) (r : list byte) :
  Forall (fun c => is_delim delim c = false) f -> is_delim delim d = true ->
  scan_token delim (f ++ d :: r) = (f, r).
Proof.
  intros Hf Hd. induction Hf as [|c f Hc Hf IH]; simpl.
  - by rewrite Hd.
  - by rewrite Hc, IH.
Qed.

Lemma strtok_field (delim f : list byte) (d : byte) (r : list byte) :
  f <> [] -> Forall (fun c => is_delim delim c = false) f ->
  is_delim delim d = true ->
  strtok (f ++ d :: r) delim = (Some f, r).
Proof.
  intros Hne Hf Hd. unfold strtok.
  destruct f as [|c f]; [done|]. inversion_clear Hf as [|? ? Hc Hf'].
  cbn [app skip_delims]. rewrite Hc.
  change (c :: f ++ d :: r) with ((c :: f) ++ d :: r).
  rewrite scan_token_field; [reflexivity|by constructor|done].
Qed.

Lemma field_no_comma (f : list byte) :
  x2c ∉ f -> Forall (fun c => is_delim comma c = false) f.
Proof.
  intros H. apply list.Forall_forall. intros c Hc. unfold is_delim, comma. simpl.
  destruct (Byte.eqb c x2c) eqn:E; [|reflexivity].
  apply byte_dec_bl in E as ->. done.
Qed.

Lemma text_no_newline (f : list byte) :
  x0a ∉ f -> Forall (fun c => is_delim newline c = false) f.
Proof.
  intros H. apply list.Forall_forall. intros c Hc. unfold is_delim, newline. simpl.
  destruct (Byte.eqb c x0a) eqn:E; [|reflexivity].
  apply byte_dec_bl in E as ->. done.
Qed.

Lemma strtok_comma_field (f r : list byte) :
  field f -> strtok (f ++ x2c :: r) comma = (Some f, r).
Proof.
  intros [Hne Hc]. apply strtok_field; [done|by apply field_no_comma|reflexivity].
Qed.

(** The line of a record is cut into its label and its text. *)
Lemma parse_record_line (lab f2 f3 f4 f5 txt : list byte) :
  field lab -> field f2 -> field f3 -> field f4 -> field f5 ->
  txt <> [] -> x0a ∉ txt ->
  parse_line (record_line lab f2 f3 f4 f5 txt) =
  Some (mkPost (strncpy_text txt) (atoi lab)).
Proof.
  intros H1 H2 H3 H4 H5 Hne Hnl. unfold parse_line, record_line.
  rewrite strtok_comma_field by done.
  unfold text_token. rewrite strtok_comma_field by done.
  unfold for_loop. cbn [seq foldl snd].
  repeat (rewrite strtok_comma_field by done; cbn [snd]).
  rewrite strtok_field; [reflexivity|done|by apply text_no_newline|reflexivity].
Qed.

(** Every token that is followed by more of the line has used up a
    comma. *)
Lemma commas_cons (c : byte) (s : list byte) :
  commas (c :: s) = (if Byte.eqb c x2c then S (commas s) else commas s).
Proof.
  unfold commas. rewrite filter_cons.
  destruct (Byte.eqb c x2c) eqn:E.
  - rewrite decide_True by done. reflexivity.
  - rewrite decide_False; [reflexivity|]. by intros [].
Qed.

Lemma is_delim_comma (c : byte) : is_delim comma c = Byte.eqb c x2c.
Proof. unfold is_delim, comma. simpl. apply orb_false_r. Qed.

Lemma skip_delims_commas (s : list byte) :
  (commas (skip_delims comma s) <= commas s)%nat.
Proof.
  induction s as [|c s IH]; [done|]. cbn [skip_delims].
  rewrite is_delim_comma. destruct (Byte.eqb c x2c) eqn:E; [|done].
  rewrite commas_cons, E. lia.
Qed.

Lemma scan_token_commas (s : list byte) :
  (scan_token comma s).2 <> [] ->
  (commas (scan_token comma s).2 < commas s)%nat.
Proof.
  induction s as [|c s IH]; [done|]. cbn [scan_token].
  rewrite is_delim_comma, commas_cons. destruct (Byte.eqb c x2c) eqn:E.
  - cbn [snd]. lia.
  - destruct (scan_token comma s) as [tok rest]. cbn [snd] in *. exact IH.
Qed.

Lemma strtok_commas (s : list byte) :
  (strtok s comma).2 <> [] -> (commas (strtok s comma).2 < commas s)%nat.
Proof.
  unfold strtok. pose proof (skip_delims_commas s) as Hs.
  destruct (skip_delims comma s) as [|c s'] eqn:E; [done|].
  pose proof (scan_token_commas (c :: s')) as Ht.
  destruct (scan_token comma (c :: s')) as [tok rest]. cbn [snd] in *.
  intros H. specialize (Ht H). lia.
Qed.

Lemma text_token_commas (rest : list byte) :
  is_Some (text_token rest) -> (4 <= commas rest)%nat.
Proof.
  unfold text_token, for_loop. cbn [seq foldl].
  set (s2 := (strtok rest comma).2).
  set (s3 := (strtok s2 comma).2).
  set (s4 := (strtok s3 comma).2).
  set (s5 := (strtok s4 comma).2).
  intros [t Ht].
  assert (s5 <> []) as H5 by (intros E; by rewrite E in Ht).
  assert (s4 <> []) as H4 by (intros E; apply H5; unfold s5; by rewrite E).
  assert (s3 <> []) as H3 by (intros E; apply H4; unfold s4; by rewrite E).
  assert (s2 <> []) as H2 by (intros E; apply H3; unfold s3; by rewrite E).
  pose proof (strtok_commas s4 H5) as A5. pose proof (strtok_commas s3 H4) as A4.
  pose proof (strtok_commas s2 H3) as A3. pose proof (strtok_commas rest H2) as A2.
  fold s5 in A5. fold s4 in A4. fold s3 in A3. fold s2 in A2. lia.
Qed.

Lemma parse_line_commas (line : list byte) :
  is_Some (parse_line line) -> (5 <= commas line)%nat.
Proof.
  unfold parse_line.
  pose proof (strtok_commas line) as Hc.
  destruct (strtok line comma) as [[token|] rest]; cbn [snd] in Hc;
    [|by intros [? ?]].
  pose proof (text_token_commas rest) as Ht.
  destruct (text_token rest) as [txt|]; [|by intros [? ?]].
  intros _. specialize (Ht ltac:(eauto)).
  assert (rest <> []) as Hne by (intros ->; vm_compute in Ht; lia).
  specialize (Hc Hne). lia.
Qed.

(** ** What loadDataset stores *)

Section LoadingFacts.
Variable P : Platform.

Lemma load_line_parse (d : list Post) (c : nat) (line : list byte) :
  well_sized (d, c) ->
  match parse_line line with
  | Some p => load_line P (d, c) line = (<[c := p]> (reserve P d c), S c)
  | None => (load_line P (d, c) line).2 = c
  end /\
  take c (load_line P (d, c) line).1 = take c d.
Proof.
  intros Hw. pose proof (reserve_length_gt P d c Hw) as Hg.
  pose proof (reserve_take P d c (proj2 Hw)) as Ht.
  unfold load_line, parse_line. set (g := reserve P d c) in *.
  destruct (strtok line comma) as [[token|] rest]; cbn [fst snd]; [|done].
  destruct (lookup_lt_is_Some_2 g c Hg) as [p Hp]. rewrite Hp.
  destruct (text_token rest) as [t|]; cbn [fst snd].
  - rewrite list_lookup_insert_eq by lia. cbn [text label].
    rewrite list_insert_insert_eq. split; [reflexivity|].
    by rewrite take_insert_ge by lia.
  - split; [reflexivity|]. by rewrite take_insert_ge by lia.
Qed.

Lemma load_line_posts (st : list Post * nat) (line : list byte) :
  well_sized st ->
  (load_line P st line).2 = (st.2 + length (omap parse_line [line]))%nat /\
  take (load_line P st line).2 (load_line P st line).1 =
    take st.2 st.1 ++ omap parse_line [line].
Proof.
  destruct st as [d c]. intros Hw.
  pose proof (reserve_length_gt P d c Hw) as Hg.
  pose proof (reserve_take P d c (proj2 Hw)) as Ht.
  destruct (load_line_parse d c line Hw) as [H1 H2].
  change (omap parse_line [line])
    with (match parse_line line with Some y => [y] | None => [] end).
  destruct (parse_line line) as [p|]; cbn [fst snd length].
  - rewrite H1. cbn [fst snd]. split; [lia|].
    rewrite (take_S_r _ _ p) by (by rewrite list_lookup_insert_eq by lia).
    by rewrite take_insert_ge, Ht by lia.
  - rewrite H1. split; [lia|]. by rewrite H2, app_nil_r.
Qed.

Lemma foldl_load_line_posts (st : list Post * nat) (lines : list (list byte)) :
  well_sized st ->
  (foldl (load_line P) st lines).2 = (st.2 + length (omap parse_line lines))%nat /\
  take (foldl (load_line P) st lines).2 (foldl (load_line P) st lines).1 =
    take st.2 st.1 ++ omap parse_line lines.
Proof.
  revert st. induction lines as [|l lines IH]; intros st Hw.
  - cbn [foldl]. change (omap parse_line []) with (@nil Post).
    cbn [length]. split; [lia|by rewrite app_nil_r].
  - cbn [foldl].
    destruct (IH (load_line P st l) (load_line_well_sized P st l Hw)) as [H1 H2].
    destruct (load_line_posts st l Hw) as [H3 H4].
    rewrite H2, H4, H1, H3.
    change (l :: lines) with ([l] ++ lines).
    rewrite omap_app, length_app. split; [lia|by rewrite app_assoc].
Qed.

Lemma loadDataset_parse (lines : list (list byte)) :
  exists dataset,
    loadDataset P (Some lines) = Return (dataset, length (omap parse_line lines)) /\
    take (length (omap parse_line lines)) dataset = omap parse_line lines.
Proof.
  rewrite loadDataset_returns.
  set (st0 := (map (heap_post P "dataset") (seq 0 1000), 0%nat)).
  destruct (foldl_load_line_posts st0 lines (initial_well_sized P)) as [H1 H2].
  destruct (foldl (load_line P) st0 lines) as [d c]. cbn [fst snd] in *.
  rewrite Nat.add_0_l in H1. subst c. exists d. split; [reflexivity|].
  rewrite H2. by rewrite take_0.
Qed.
End LoadingFacts.

(** ** The tokens of strtok *)

Lemma skip_delims_elem (delim s : list byte) (c : byte) :
  c ∈ skip_delims delim s -> c ∈ s.
Proof.
  induction s as [|a s IH]; [done|]. cbn [skip_delims].
  destruct (is_delim delim a); [|done].
  intros H. apply elem_of_cons. right. by apply IH.
Qed.

Lemma scan_token_elem (delim s : list byte) (c : byte) :
  c ∈ (scan_token delim s).1 -> c ∈ s.
Proof.
  revert c. induction s as [|a s IH]; intros c; [done|]. cbn [scan_token].
  destruct (is_delim delim a).
  - cbn [fst]. intros H. by apply elem_of_nil in H.
  - destruct (scan_token delim s) as [tok rest]. cbn [fst] in *.
    intros H. apply elem_of_cons in H as [->|H]; apply elem_of_cons; auto.
Qed.

Lemma scan_token_no_delim (delim s : list byte) :
  Forall (fun c => is_delim delim c = false) (scan_token delim s).1.
Proof.
  induction s as [|a s IH]; [constructor|]. cbn [scan_token].
  destruct (is_delim delim a) eqn:E; [constructor|].
  destruct (scan_token delim s) as [tok rest]. cbn [fst] in *.
  by constructor.
Qed.

Lemma strtok_token (s delim tok rest : list byte) :
  strtok s delim = (Some tok, rest) ->
  tok <> [] /\ Forall (fun c => is_delim delim c = false) tok /\
  forall c, c ∈ tok -> c ∈ s.
Proof.
  unfold strtok. destruct (skip_delims delim s) as [|a s'] eqn:E; [done|].
  pose proof (scan_token_no_delim delim (a :: s')) as Hn.
  pose proof (fun c => scan_token_elem delim (a :: s') c) as He.
  assert (is_delim delim a = false) as Ha.
  { clear Hn He. induction s as [|b s IH]; [done|]. cbn [skip_delims] in E.
    destruct (is_delim delim b) eqn:Eb; [by apply IH|congruence]. }
  revert Hn He. cbn [scan_token]. rewrite Ha.
  destruct (scan_token delim s') as [tok' rest']. cbn [fst].
  intros Hn He [= <- <-]. split; [done|]. split; [done|].
  intros c Hc. apply (skip_delims_elem delim). rewrite E. by apply He.
Qed.

Lemma scan_token_rest_elem (delim s : list byte) (c : byte) :
  c ∈ (scan_token delim s).2 -> c ∈ s.
Proof.
  revert c. induction s as [|a s IH]; intros c; [done|]. cbn [scan_token].
  destruct (is_delim delim a).
  - cbn [snd]. intros H. apply elem_of_cons. auto.
  - destruct (scan_token delim s) as [tok rest]. cbn [snd] in *.
    intros H. apply elem_of_cons. auto.
Qed.

Lemma strtok_rest_elem (s delim : list byte) (c : byte) :
  c ∈ (strtok s delim).2 -> c ∈ s.
Proof.
  unfold strtok. destruct (skip_delims delim s) as [|a s'] eqn:E.
  - cbn [snd]. intros H. by apply elem_of_nil in H.
  - pose proof (scan_token_rest_elem delim (a :: s') c) as He.
    destruct (scan_token delim (a :: s')) as [tok rest]. cbn [snd] in *.
    intros H. apply (skip_delims_elem delim). rewrite E. by apply He.
Qed.

(** The text token is not empty, holds no newline, and is made of bytes
    of the line. *)
Lemma text_token_props (rest txt : list byte) :
  text_token rest = Some txt ->
  txt <> [] /\ (x0a ∉ txt) /\ forall c, c ∈ txt -> c ∈ rest.
Proof.
  unfold text_token, for_loop. cbn [seq foldl].
  set (s2 := (strtok rest comma).2).
  set (s3 := (strtok s2 comma).2).
  set (s4 := (strtok s3 comma).2).
  set (s5 := (strtok s4 comma).2).
  intros H. destruct (strtok s5 newline) as [o r] eqn:E. cbn [fst] in H. subst o.
  apply strtok_token in E as (Hne & Hnd & Hel). split; [done|]. split.
  - intros Hin. apply (proj1 (list.Forall_forall _ _) Hnd) in Hin. done.
  - intros c Hc. apply Hel in Hc. unfold s5, s4, s3, s2 in Hc.
    by do 4 apply strtok_rest_elem in Hc.
Qed.

Lemma parse_line_props (line : list byte) (p : Post) :
  parse_line line = Some p ->
  exists token txt,
    p = mkPost (strncpy_text txt) (atoi token) /\
    token <> [] /\ (x2c ∉ token) /\ (forall c, c ∈ token -> c ∈ line) /\
    txt <> [] /\ (x0a ∉ txt) /\ (forall c, c ∈ txt -> c ∈ line).
Proof.
  unfold parse_line. destruct (strtok line comma) as [[token|] rest] eqn:E; [|done].
  destruct (text_token rest) as [txt|] eqn:Et; [|done]. intros [= <-].
  apply text_token_props in Et as (H1 & H2 & H3).
  pose proof (strtok_rest_elem line comma) as Hr. rewrite E in Hr. cbn [snd] in Hr.
  apply strtok_token in E as (H4 & H5 & H6).
  exists token, txt. split; [done|]. split; [done|]. split.
  - intros Hin. apply (proj1 (list.Forall_forall _ _) H5) in Hin. done.
  - split; [done|]. split; [done|]. split; [done|]. auto.
Qed.

(** ** The capacity of the array *)

Lemma capacity_ok_well_sized (st : list Post * nat) :
  capacity_ok st -> well_sized st.
Proof.
  intros (H1 & [k Hk] & _). split; [|done]. rewrite Hk.
  pose proof (Nat.pow_nonzero 2 k ltac:(lia)). lia.
Qed.

Lemma reserve_length (P : Platform) (d : list Post) (c : nat) :
  length (reserve P d c) =
  if (length d <=? c)%nat then (2 * length d)%nat else length d.
Proof.
  unfold reserve. destruct (length d <=? c)%nat; [|done].
  rewrite length_app, length_map, length_seq. lia.
Qed.

Lemma load_line_length (P : Platform) (d : list Post) (c : nat) (line : list byte) :
  length (load_line P (d, c) line).1 = length (reserve P d c) /\
  (c <= (load_line P (d, c) line).2 <= S c)%nat.
Proof.
  unfold load_line. destruct (strtok line comma) as [[token|] rest]; cbn [fst snd];
    [|split; [done|lia]].
  destruct (reserve P d c !! c) as [p|] eqn:Hp.
  - destruct (text_token rest) as [t|]; cbn [fst snd].
    + rewrite list_lookup_insert_eq by (by apply lookup_lt_Some in Hp).
      rewrite !length_insert. split; [done|lia].
    + rewrite length_insert. split; [done|lia].
  - rewrite Hp. destruct (text_token rest); cbn [fst snd]; split; (done || lia).
Qed.

Lemma load_line_capacity (P : Platform) (st : list Post * nat) (line : list byte) :
  capacity_ok st -> capacity_ok (load_line P st line).
Proof.
  intros Hc. pose proof (capacity_ok_well_sized st Hc) as Hw.
  destruct st as [d c]. destruct Hc as (H1 & [k Hk] & H3). cbn [fst snd] in *.
  pose proof (load_line_well_sized P (d, c) line Hw) as [_ Hw'].
  destruct (load_line_length P d c line) as [Hl Hn].
  rewrite reserve_length in Hl. unfold capacity_ok. rewrite Hl.
  split; [by rewrite <- Hl|].
  destruct (Nat.leb_spec (length d) c).
  - split; [|lia]. exists (S k). rewrite Hk, Nat.pow_succ_r'. lia.
  - split; [by exists k|]. lia.
Qed.

Lemma foldl_load_line_capacity (P : Platform) (st : list Post * nat)
    (lines : list (list byte)) :
  capacity_ok st -> capacity_ok (foldl (load_line P) st lines).
Proof.
  revert st. induction lines as [|l lines IH]; intros st H; [done|].
  cbn [foldl]. by apply IH, load_line_capacity.
Qed.

Lemma initial_capacity_ok (P : Platform) :
  capacity_ok (map (heap_post P "dataset") (seq 0 1000), 0%nat).
Proof.
  unfold capacity_ok. cbn [fst snd]. rewrite length_map, length_seq.
  split; [lia|]. split; [by exists 0%nat|by left].
Qed.

Lemma omap_length_le {A B : Type} (f : A -> option B) (l : list A) :
  (length (omap f l) <= length l)%nat.
Proof.
  induction l as [|a l IH]; [done|].
  change (omap f (a :: l))
    with (match f a with Some y => y :: omap f l | None => omap f l end).
  destruct (f a); cbn [length]; lia.
Qed.

(** ** Properties of loadDataset *)




(** X5.  A line with fewer than five commas is dropped: the file with the
    line gives the same posts as the file without it. *)
Theorem loadDataset_needs_five_commas (P : Platform)
    (before after : list (list byte)) (line : list byte) :
  (commas line < 5)%nat ->
  exists dataset dataset' count,
    loadDataset P (Some (before ++ line :: after)) = Return (dataset, count) /\
    loadDataset P (Some (before ++ after)) = Return (dataset', count) /\
    take count dataset = take count dataset'.
Proof.
  intros Hc.
  assert (parse_line line = None) as Hp.
  { destruct (parse_line line) as [p|] eqn:E; [|done].
    pose proof (parse_line_commas line ltac:(rewrite E; eauto)). lia. }
  destruct (loadDataset_parse P (before ++ line :: after)) as (d & Hd & Hd').
  destruct (loadDataset_parse P (before ++ after)) as (d' & Hl & Hl').
  assert (omap parse_line (before ++ line :: after) = omap parse_line (before ++ after))
    as Heq.
  { rewrite !omap_app. f_equal.
    change (omap parse_line (line :: after))
      with (match parse_line line with
            | Some y => y :: omap parse_line after
            | None => omap parse_line after end).
    by rewrite Hp. }
  rewrite Heq in Hd, Hd'.
  exists d, d', (length (omap parse_line (before ++ after))).
  split; [exact Hd|]. split; [exact Hl|]. by rewrite Hd', Hl'.
Qed.

Lemma loadDataset_needs_five_commas_witness :
  (commas cut_line < 5)%nat /\
  exists dataset dataset' count,
    loadDataset sample_platform (Some ([good_line_1] ++ cut_line :: [good_line_2]))
      = Return (dataset, count) /\
    loadDataset sample_platform (Some ([good_line_1] ++ [good_line_2]))
      = Return (dataset', count) /\
    take count dataset = take count dataset'.
Proof.
  assert (commas cut_line < 5)%nat as H by (vm_compute; lia).
  split; [exact H|].
  exact (loadDataset_needs_five_commas sample_platform [good_line_1] [good_line_2]
           cut_line H).
Defined.

(** X6.  The array that [loadDataset] returns has room for the posts counted,
    its capacity is 1000 doubled some number of times, and it is the
    initial one or at most twice the number of posts. *)
Theorem loadDataset_capacity (P : Platform) (lines : list (list byte))
    (dataset : list Post) (count : nat) :
  loadDataset P (Some lines) = Return (dataset, count) ->
  (count <= length dataset)%nat /\
  (exists k : nat, length dataset = 1000 * 2 ^ k)%nat /\
  (length dataset = 1000 \/ length dataset <= 2 * count)%nat.
Proof.
  rewrite loadDataset_returns.
  set (st0 := (map (heap_post P "dataset") (seq 0 1000), 0%nat)).
  intros H.
  assert (foldl (load_line P) st0 lines = (dataset, count)) as H' by congruence.
  pose proof (foldl_load_line_capacity P st0 lines (initial_capacity_ok P)) as Hc.
  by rewrite H' in Hc.
Qed.

Lemma loadDataset_capacity_witness :
  exists dataset,
    loadDataset sample_platform (Some sample_file) = Return (dataset, 2%nat) /\
    (2 <= length dataset)%nat /\
    (length dataset = 1000 \/ length dataset <= 2 * 2)%nat.
Proof.
  destruct (loadDataset_parse sample_platform sample_file) as (d & Hd & _).
  change (length (omap parse_line sample_file)) with 2%nat in Hd.
  destruct (loadDataset_capacity sample_platform sample_file d 2 Hd) as (H1 & _ & H3).
  exists d. split; [exact Hd|]. split; [exact H1|exact H3].
Defined.

(** X7.  Every text that [loadDataset] stores from a file without NUL bytes
    is a string of 1 to 1023 bytes without newline, terminated inside
    its buffer. *)
Theorem loadDataset_texts (P : Platform) (lines : list (list byte))
    (dataset : list Post) (count i : nat) (p : Post) :
  Forall (fun l => x00 ∉ l) lines ->
  loadDataset P (Some lines) = Return (dataset, count) ->
  (i < count)%nat -> dataset !! i = Some p ->
  length (text p) = MAX_TOKENS /\
  (1 <= custom_strlen (text p) <= MAX_TOKENS - 1)%nat /\
  text p !! custom_strlen (text p) = Some x00 /\
  (x0a ∉ c_string (text p)).
Proof.
  intros Hnul Hload Hi Hp.
  destruct (loadDataset_parse P lines) as (d & Hd & Hd').
  rewrite Hload in Hd. injection Hd as <- Hc. rewrite <- Hc in Hd'.
  assert (p ∈ omap parse_line lines) as Hin.
  { rewrite <- Hd'. apply (list_elem_of_lookup_2 _ i).
    by rewrite lookup_take_lt by lia. }
  apply list_elem_of_omap in Hin as (line & Hline & Hparse).
  apply parse_line_props in Hparse as (token & txt & -> & _ & _ & _ & Hne & Hnl & Hsub).
  assert (x00 ∉ txt) as Hz.
  { intros Hin. apply Hsub in Hin.
    by apply (proj1 (list.Forall_forall _ _) Hnul line Hline). }
  cbn [text].
  pose proof (not_elem_of_take (MAX_TOKENS - 1) _ _ Hz) as Hzt.
  split; [apply strncpy_text_length|].
  rewrite strncpy_text_eq, c_string_app, custom_strlen_app by done.
  split; [|split].
  - rewrite length_take. destruct txt; [done|]. cbn [length]. unfold MAX_TOKENS. lia.
  - by rewrite list_lookup_middle.
  - by apply not_elem_of_take.
Qed.

Lemma loadDataset_texts_witness :
  exists dataset p,
    loadDataset sample_platform (Some sample_file) = Return (dataset, 2%nat) /\
    dataset !! 1%nat = Some p /\
    (1 <= custom_strlen (text p) <= MAX_TOKENS - 1)%nat /\
    text p !! custom_strlen (text p) = Some x00.
Proof.
  destruct (loadDataset_parse sample_platform sample_file) as (d & Hd & Hd').
  change (length (omap parse_line sample_file)) with 2%nat in Hd, Hd'.
  assert (is_Some (d !! 1%nat)) as [p Hp].
  { apply lookup_lt_is_Some. apply (f_equal length) in Hd'.
    rewrite length_take in Hd'. change (length (omap parse_line sample_file))
      with 2%nat in Hd'. lia. }
  assert (Forall (fun l : list byte => x00 ∉ l) sample_file) as Hnul.
  { assert (forall l : list byte,
              forallb (fun c => negb (Byte.eqb c x00)) l = true -> x00 ∉ l) as Hf.
    { intros l Hall Hin. apply list_elem_of_In in Hin.
      apply (proj1 (forallb_forall _ _) Hall) in Hin.
      by rewrite (byte_dec_lb eq_refl) in Hin. }
    repeat constructor; apply Hf; reflexivity. }
  destruct (loadDataset_texts sample_platform sample_file d 2 1 p Hnul Hd
              ltac:(lia) Hp) as (_ & H2 & H3 & _).
  exists d, p. split; [exact Hd|]. split; [exact Hp|]. split; [exact H2|exact H3].
Defined.

(** ** The label *)

Lemma atoi_starts_no_number (c : byte) (s : list byte) :
  starts_no_number c -> atoi (c :: s) = 0.
Proof.
  intros (Hs & Hm & Hp & Hd). unfold atoi. cbn [skip_spaces]. rewrite Hs.
  assert (atoi_digits 0 (c :: s) = 0) as H0.
  { cbn [atoi_digits]. cbv zeta.
    destruct (48 <=? Z.of_N (Byte.to_N c)) eqn:E1; [|reflexivity].
    destruct (Z.of_N (Byte.to_N c) <=? 57) eqn:E2; [|reflexivity].
    apply Z.leb_le in E1, E2. lia. }
  destruct c; try exact H0; congruence.
Qed.

(** X8.  A record whose first field starts with a byte that is no digit, sign
    or blank, as a label written between quotes does, is stored with the
    label 0. *)
Theorem loadDataset_label_not_a_number (P : Platform) (before : list (list byte))
    (c : byte) (lab f2 f3 f4 f5 txt : list byte) :
  starts_no_number c ->
  field (c :: lab) -> field f2 -> field f3 -> field f4 -> field f5 ->
  txt <> [] -> x0a ∉ txt ->
  exists dataset count,
    loadDataset P (Some (before ++ [record_line (c :: lab) f2 f3 f4 f5 txt])) =
      Return (dataset, S count) /\
    dataset !! count = Some (mkPost (strncpy_text txt) 0).
Proof.
  intros Hc H1 H2 H3 H4 H5 Hne Hnl.
  pose proof (parse_record_line (c :: lab) f2 f3 f4 f5 txt H1 H2 H3 H4 H5 Hne Hnl)
    as Hp.
  rewrite (atoi_starts_no_number c lab Hc) in Hp.
  destruct (loadDataset_parse P (before ++ [record_line (c :: lab) f2 f3 f4 f5 txt]))
    as (d' & Hl & Hl').
  rewrite omap_app in Hl, Hl'.
  change (omap parse_line [record_line (c :: lab) f2 f3 f4 f5 txt])
    with (match parse_line (record_line (c :: lab) f2 f3 f4 f5 txt) with
          | Some y => [y] | None => [] end) in Hl, Hl'.
  rewrite Hp in Hl, Hl'. rewrite length_app in Hl, Hl'. cbn [length] in Hl, Hl'.
  rewrite Nat.add_1_r in Hl, Hl'.
  set (n := length (omap parse_line before)) in *.
  exists d', n. split; [exact Hl|].
  rewrite <- (lookup_take_lt d' (S n) n) by lia. rewrite Hl'.
  by rewrite list_lookup_middle.
Qed.

Lemma loadDataset_label_not_a_number_witness :
  exists dataset count,
    loadDataset sample_platform
      (Some ([] ++ [record_line quoted_label sample_id sample_date sample_query
                      sample_user sample_text])) = Return (dataset, S count) /\
    dataset !! count = Some (mkPost (strncpy_text sample_text) 0).
Proof.
  assert (forall f : list byte,
            f <> [] -> forallb (fun c => negb (Byte.eqb c x2c)) f = true -> field f)
    as Hf.
  { intros f Hne Hall. split; [exact Hne|]. intros Hin.
    apply list_elem_of_In in Hin.
    apply (proj1 (forallb_forall _ _) Hall) in Hin.
    by rewrite (byte_dec_lb eq_refl) in Hin. }
  assert (x0a ∉ sample_text) as Hnl.
  { intros Hin. apply list_elem_of_In in Hin.
    assert (forallb (fun c => negb (Byte.eqb c x0a)) sample_text = true) as Hall
      by reflexivity.
    apply (proj1 (forallb_forall _ _) Hall) in Hin.
    by rewrite (byte_dec_lb eq_refl) in Hin. }
  assert (starts_no_number x22) as Hq.
  { split; [reflexivity|]. split; [discriminate|]. split; [discriminate|].
    vm_compute. intros [H _]. by apply H. }
  apply (loadDataset_label_not_a_number sample_platform [] x22 [x34; x22]
           sample_id sample_date sample_query sample_user sample_text Hq);
    [apply Hf; [discriminate|reflexivity]..|discriminate|exact Hnl].
Defined.

(** ** Empty fields *)

Lemma strtok_skips_comma (s : list byte) :
  strtok (x2c :: s) comma = strtok s comma.
Proof. reflexivity. Qed.

Lemma parse_line_empty_field (lab rest : list byte) :
  field lab ->
  parse_line (lab ++ x2c :: x2c :: rest) = parse_line (lab ++ x2c :: rest).
Proof.
  intros Hlab. unfold parse_line. rewrite !strtok_comma_field by done.
  unfold text_token. by rewrite strtok_skips_comma.
Qed.

(** X9.  [strtok] takes two commas in a row for one: a line whose second field
    is empty is read as the line without that field, every later field
    standing one place earlier. *)
Theorem loadDataset_skips_empty_field (P : Platform)
    (before after : list (list byte)) (lab rest : list byte) :
  field lab ->
  exists dataset dataset' count,
    loadDataset P (Some (before ++ (lab ++ x2c :: x2c :: rest) :: after)) =
      Return (dataset, count) /\
    loadDataset P (Some (before ++ (lab ++ x2c :: rest) :: after)) =
      Return (dataset', count) /\
    take count dataset = take count dataset'.
Proof.
  intros Hlab.
  destruct (loadDataset_parse P (before ++ (lab ++ x2c :: x2c :: rest) :: after))
    as (d & Hd & Hd').
  destruct (loadDataset_parse P (before ++ (lab ++ x2c :: rest) :: after))
    as (d' & Hl & Hl').
  assert (omap parse_line (before ++ (lab ++ x2c :: x2c :: rest) :: after) =
          omap parse_line (before ++ (lab ++ x2c :: rest) :: after)) as Heq.
  { rewrite !omap_app. f_equal.
    change (omap parse_line ((lab ++ x2c :: x2c :: rest) :: after))
      with (match parse_line (lab ++ x2c :: x2c :: rest) with
            | Some y => y :: omap parse_line after
            | None => omap parse_line after end).
    by rewrite parse_line_empty_field. }
  rewrite Heq in Hd, Hd'.
  exists d, d', (length (omap parse_line (before ++ (lab ++ x2c :: rest) :: after))).
  split; [exact Hd|]. split; [exact Hl|]. by rewrite Hd', Hl'.
Qed.

Lemma loadDataset_skips_empty_field_witness :
  exists dataset dataset' count,
    loadDataset sample_platform
      (Some ([] ++ (sample_label ++ x2c :: x2c :: sample_text) :: [])) =
      Return (dataset, count) /\
    loadDataset sample_platform
      (Some ([] ++ (sample_label ++ x2c :: sample_text) :: [])) =
      Return (dataset', count) /\
    take count dataset = take count dataset'.
Proof.
  apply (loadDataset_skips_empty_field sample_platform [] [] sample_label sample_text).
  split; [discriminate|]. intros Hin. apply list_elem_of_In in Hin.
  assert (forallb (fun c => negb (Byte.eqb c x2c)) sample_label = true) as Hall
    by reflexivity.
  apply (proj1 (forallb_forall _ _) Hall) in Hin.
  by rewrite (byte_dec_lb eq_refl) in Hin.
Defined.

(** ** Two loops side by side *)

Lemma for_loop_related {S T : Type} (R : S -> T -> Prop) (n : nat)
    (body : nat -> S -> S) (body' : nat -> T -> T) (s : S) (t : T) :
  R s t ->
  (forall i s t, (i < n)%nat -> R s t -> R (body i s) (body' i t)) ->
  R (for_loop n body s) (for_loop n body' t).
Proof.
  intros H0 Hstep. induction n as [|n IH]; [exact H0|].
  rewrite !for_loop_S. apply Hstep; [lia|]. apply IH.
  intros i s' t' Hi. apply Hstep. lia.
Qed.

(** ** The shuffle and the slots behind the samples *)

Lemma swap_take (d : list Post) (i j n : nat) :
  (i < n)%nat -> (j < n)%nat -> take n (swap d i j) = swap (take n d) i j.
Proof.
  intros Hi Hj. unfold swap. rewrite !lookup_take_lt by lia.
  destruct (d !! i) as [a|]; [|done]. destruct (d !! j) as [b|]; [|done].
  by rewrite !take_insert_lt by lia.
Qed.

Lemma shuffleDataset_take (rand : nat -> Z) (d : list Post) (n : nat) :
  take n (shuffleDataset rand d n) = shuffleDataset rand (take n d) n.
Proof.
  unfold shuffleDataset.
  apply (for_loop_related (fun s t => take n s = t)); [done|].
  intros i s t Hi <-. apply swap_take; [lia|apply drawn_index_lt; lia].
Qed.

(** ** The copies *)

Lemma copy_posts_eq (src : list Post) (off n : nat) (dst : list Post) :
  length dst = n -> (off + n <= length src)%nat ->
  copy_posts src off n dst = take n (drop off src).
Proof.
  intros Hd Hs. apply list_eq. intros i.
  destruct (decide (i < n)%nat) as [Hi|Hi].
  - rewrite copy_posts_lookup by lia.
    by rewrite lookup_take_lt, lookup_drop by lia.
  - rewrite lookup_take_ge by lia. apply lookup_ge_None.
    rewrite copy_posts_length. lia.
Qed.

(** ** The sizes of the two sets *)

Lemma split_sizes_positive (N : Z) :
  2 <= N < 2 ^ 31 -> 1 <= train_size N /\ 1 <= N - train_size N.
Proof.
  intros HN. destruct (train_size_bounds N ltac:(lia)) as [[Hlo Hhi] _].
  pose proof (Z.div_mod (7 * N) 10 ltac:(lia)) as E.
  pose proof (Z.mod_pos_bound (7 * N) 10 ltac:(lia)) as B.
  split; [|lia].
  destruct (Z.eq_dec N 2) as [->|Hne]; [by vm_compute|]. lia.
Qed.

(** X10.  [main] goes on after the split exactly when at least two samples
    were loaded: for a number of samples [N] in the range of [int], one of
    [(int)(N * 0.7)] and [N - (int)(N * 0.7)] is 0 exactly when [N <= 1].
    The test set has at least three tenths of the samples. *)
Theorem split_empty_iff (N : Z) :
  0 <= N < 2 ^ 31 ->
  ((train_size N =? 0) || (N - train_size N =? 0) = true <-> N <= 1) /\
  3 * N <= 10 * (N - train_size N).
Proof.
  intros HN. split.
  - split.
    + intros H. destruct (Z.le_gt_cases N 1) as [|Hgt]; [done|].
      destruct (split_sizes_positive N ltac:(lia)) as [H1 H2].
      apply orb_true_iff in H as [H|H]; apply Z.eqb_eq in H; lia.
    + intros H. assert (N = 0 \/ N = 1) as [->| ->] by lia; reflexivity.
  - destruct (train_size_bounds N HN) as [[Hlo Hhi] _].
    pose proof (Z.div_mod (7 * N) 10 ltac:(lia)) as E.
    pose proof (Z.mod_pos_bound (7 * N) 10 ltac:(lia)) as B. lia.
Qed.

Lemma split_empty_iff_witness :
  ((train_size 1 =? 0) || (1 - train_size 1 =? 0) = true <-> 1 <= 1) /\
  3 * 1 <= 10 * (1 - train_size 1).
Proof. apply (split_empty_iff 1). vm_compute. split; [discriminate|reflexivity]. Defined.

(** ** Loops that fill an array *)

Lemma for_loop_fill {A : Type} (f : nat -> A) (n : nat) (l : list A) :
  (n <= length l)%nat ->
  for_loop n (fun i s => <[i := f i]> s) l = map f (seq 0 n) ++ drop n l.
Proof.
  induction n as [|n IH]; intros Hn; [by rewrite drop_0|].
  rewrite for_loop_S, IH by lia.
  destruct (lookup_lt_is_Some_2 l n ltac:(lia)) as [y Hy].
  rewrite (drop_S l y n Hy), seq_S, map_app.
  rewrite insert_app_r_alt by (rewrite length_map, length_seq; lia).
  rewrite length_map, length_seq, Nat.sub_diag. cbn [insert list_insert map].
  by rewrite <- app_assoc.
Qed.

Lemma for_loop_update {A : Type} (g : A -> A) (d : A) (n : nat) (l : list A) :
  (n <= length l)%nat ->
  for_loop n (fun i s => <[i := g (default d (s !! i))]> s) l =
  map g (take n l) ++ drop n l.
Proof.
  induction n as [|n IH]; intros Hn; [by rewrite drop_0|].
  rewrite for_loop_S, IH by lia.
  destruct (lookup_lt_is_Some_2 l n ltac:(lia)) as [y Hy].
  rewrite (drop_S l y n Hy), (take_S_r l n y Hy), map_app.
  assert (length (map g (take n l)) = n) as Hl
    by (rewrite length_map, length_take; lia).
  rewrite lookup_app_r by lia. rewrite Hl, Nat.sub_diag. cbn [lookup list_lookup default].
  rewrite insert_app_r_alt by lia.
  rewrite Hl, Nat.sub_diag. cbn [insert list_insert map].
  by rewrite <- app_assoc.
Qed.

(** ** Iterations in another order *)

Lemma run_in_order_perm {S : Type} (body : nat -> S -> S) (order order' : list nat) :
  (forall i j s, i <> j -> body i (body j s) = body j (body i s)) ->
  order ≡ₚ order' ->
  forall s, run_in_order order body s = run_in_order order' body s.
Proof.
  intros Hcomm Hperm. unfold run_in_order.
  induction Hperm as [|x l l' _ IH|x y l|l l' l'' _ IH1 _ IH2]; intros s.
  - reflexivity.
  - cbn [foldl]. apply IH.
  - cbn [foldl]. destruct (decide (x = y)) as [->|Hne]; [reflexivity|].
    by rewrite Hcomm.
  - by rewrite IH1, IH2.
Qed.

(** ** The rows that tokenizeAndEmbed writes *)

Section RowFacts.
Variable P : Platform.

Lemma custom_strlen_lookup_Some (txt : list byte) (j : nat) :
  (j < custom_strlen txt)%nat -> is_Some (txt !! j).
Proof.
  intros Hj. apply lookup_lt_is_Some. pose proof (custom_strlen_le txt). lia.
Qed.

Lemma embed_row_lookup (txt : list byte) (i : nat) (ids : list F32.t) (idx : nat) :
  embed_row P txt i ids !! idx =
  if decide ((i * MAX_TOKENS <= idx < i * MAX_TOKENS + custom_strlen txt)%nat /\
             (idx < length ids)%nat)
  then embed_char P <$> txt !! (idx - i * MAX_TOKENS)%nat
  else ids !! idx.
Proof.
  destruct (decide _) as [[Hr Hl]|Hn].
  - destruct (custom_strlen_lookup_Some txt (idx - i * MAX_TOKENS)) as [c Hc]; [lia|].
    rewrite Hc. cbn [fmap option_fmap option_map].
    replace idx with (i * MAX_TOKENS + (idx - i * MAX_TOKENS))%nat at 1 by lia.
    apply embed_row_written; [lia|done|lia].
  - destruct (decide (idx < length ids)%nat) as [Hl|Hl].
    + apply embed_row_frame. lia.
    + rewrite (proj2 (lookup_ge_None ids idx)) by lia.
      apply lookup_ge_None. rewrite embed_row_length. lia.
Qed.

Lemma embed_rows_commute (txt txt' : list byte) (i j : nat) (ids : list F32.t) :
  (custom_strlen txt <= MAX_TOKENS)%nat -> (custom_strlen txt' <= MAX_TOKENS)%nat ->
  i <> j ->
  embed_row P txt i (embed_row P txt' j ids) =
  embed_row P txt' j (embed_row P txt i ids).
Proof.
  intros Ht Ht' Hij. apply list_eq. intros idx.
  rewrite !embed_row_lookup, !embed_row_length.
  assert (i * MAX_TOKENS + MAX_TOKENS <= j * MAX_TOKENS \/
          j * MAX_TOKENS + MAX_TOKENS <= i * MAX_TOKENS)%nat as Hd
    by (unfold MAX_TOKENS; lia).
  repeat destruct (decide _); try reflexivity; lia.
Qed.

Lemma tokenize_iterations_commute (dataset : list Post) (i j : nat)
    (ids : list F32.t) :
  rows_fit dataset -> i <> j ->
  tokenize_iteration P dataset i (tokenize_iteration P dataset j ids) =
  tokenize_iteration P dataset j (tokenize_iteration P dataset i ids).
Proof.
  intros Hfit Hij. unfold tokenize_iteration.
  destruct (dataset !! i) as [p|] eqn:Hp; [|reflexivity].
  destruct (dataset !! j) as [q|] eqn:Hq; [|reflexivity].
  apply embed_rows_commute; [by apply (Hfit i)|by apply (Hfit j)|done].
Qed.

Lemma matrix_row_lookup (m : list F32.t) (D i j : nat) :
  matrix_row m D i !! j =
  if decide (j < D)%nat then m !! (i * D + j)%nat else None.
Proof.
  unfold matrix_row. destruct (decide _).
  - by rewrite lookup_take_lt, lookup_drop by lia.
  - apply lookup_take_ge. lia.
Qed.

Lemma tokenizeAndEmbed_row (dataset : list Post) (ids : list F32.t)
    (n i : nat) (p : Post) :
  rows_fit dataset -> (i < n)%nat -> dataset !! i = Some p ->
  (i * MAX_TOKENS + MAX_TOKENS <= length ids)%nat ->
  matrix_row (tokenizeAndEmbed P dataset ids n) MAX_TOKENS i =
  map (embed_char P) (c_string (text p)) ++
  drop (custom_strlen (text p)) (matrix_row ids MAX_TOKENS i).
Proof.
  intros Hfit Hi Hp Hlen. pose proof (Hfit i p Hp) as Hs.
  apply list_eq. intros j. rewrite matrix_row_lookup.
  assert (length (map (embed_char P) (c_string (text p))) = custom_strlen (text p))
    as Hl.
  { unfold c_string. rewrite length_map, length_take.
    pose proof (custom_strlen_le (text p)). lia. }
  destruct (decide (j < custom_strlen (text p))%nat) as [Hj|Hj].
  - rewrite decide_True by lia.
    destruct (custom_strlen_lookup_Some (text p) j Hj) as [c Hc].
    rewrite lookup_app_l by lia. unfold c_string.
    rewrite list_lookup_fmap, lookup_take_lt, Hc by lia.
    apply (tokenizeAndEmbed_cell_written P dataset ids n i j p c); try done. lia.
  - rewrite lookup_app_r by lia. rewrite Hl, lookup_drop, matrix_row_lookup.
    replace (custom_strlen (text p) + (j - custom_strlen (text p)))%nat with j by lia.
    destruct (decide (j < MAX_TOKENS)%nat) as [Hj'|Hj']; [|reflexivity].
    apply tokenizeAndEmbed_frame. intros k q Hk Hq.
    pose proof (Hfit k q Hq). destruct (decide (k = i)) as [->|Hne].
    + assert (q = p) as -> by congruence. lia.
    + unfold MAX_TOKENS in *. lia.
Qed.
End RowFacts.

(** X11.  After [tokenizeAndEmbed], the row of a post holds the quotients of the
    bytes of its text, and behind them what the buffer held before the
    call. *)
Theorem tokenizeAndEmbed_rows (P : Platform) (dataset : list Post)
    (token_ids : list F32.t) (num_samples i : nat) (p : Post) :
  rows_fit dataset ->
  length token_ids = (num_samples * MAX_TOKENS)%nat ->
  (i < num_samples)%nat -> dataset !! i = Some p ->
  matrix_row (tokenizeAndEmbed P dataset token_ids num_samples) MAX_TOKENS i =
  map (embed_char P) (c_string (text p)) ++
  drop (custom_strlen (text p)) (matrix_row token_ids MAX_TOKENS i).
Proof.
  intros Hfit Hlen Hi Hp. apply tokenizeAndEmbed_row; try done.
  rewrite Hlen. unfold MAX_TOKENS. nia.
Qed.

Lemma tokenizeAndEmbed_rows_witness :
  matrix_row (tokenizeAndEmbed sample_platform [post_ab] zeroed_row 1) MAX_TOKENS 0 =
  map (embed_char sample_platform) (c_string (text post_ab)) ++
  drop (custom_strlen (text post_ab)) (matrix_row zeroed_row MAX_TOKENS 0).
Proof.
  apply (tokenizeAndEmbed_rows sample_platform [post_ab] zeroed_row 1 0 post_ab).
  - apply rows_fit_singleton. reflexivity.
  - reflexivity.
  - lia.
  - reflexivity.
Defined.

(** X12.  When every text fits its row, the iterations of the outer loop of
    [tokenizeAndEmbed] write rows that do not overlap: run in any order,
    they leave the same buffer. *)
Theorem tokenizeAndEmbed_any_order (P : Platform) (dataset : list Post)
    (token_ids : list F32.t) (num_samples : nat) (order : list nat) :
  rows_fit dataset ->
  order ≡ₚ seq 0 num_samples ->
  run_in_order order (tokenize_iteration P dataset) token_ids =
  tokenizeAndEmbed P dataset token_ids num_samples.
Proof.
  intros Hfit Hperm.
  rewrite (run_in_order_perm (tokenize_iteration P dataset) order
             (seq 0 num_samples)); [reflexivity| |exact Hperm].
  intros i j s Hij. by apply tokenize_iterations_commute.
Qed.

Lemma tokenizeAndEmbed_any_order_witness :
  run_in_order [1; 0]%nat (tokenize_iteration sample_platform [post_ab; post_accent])
    (dirty_row ++ dirty_row) =
  tokenizeAndEmbed sample_platform [post_ab; post_accent] (dirty_row ++ dirty_row) 2.
Proof.
  apply (tokenizeAndEmbed_any_order sample_platform [post_ab; post_accent]
           (dirty_row ++ dirty_row) 2 [1; 0]%nat).
  - apply full_texts_rows_fit. repeat constructor.
  - apply perm_swap.
Defined.

(** ** denseLayer *)

Lemma dense_row_ext (inputs weights weights' biases biases' : list F32.t)
    (i E : nat) :
  take E weights = take E weights' -> biases !! 0%nat = biases' !! 0%nat ->
  dense_row inputs weights biases i E = dense_row inputs weights' biases' i E.
Proof.
  intros Hw Hb. unfold dense_row.
  assert (read biases 0 = read biases' 0) as -> by (unfold read; by rewrite Hb).
  apply (for_loop_related (fun a b => a = b)); [done|].
  intros k a b Hk <-. do 2 f_equal. unfold read. f_equal.
  rewrite <- (lookup_take_lt weights E k), <- (lookup_take_lt weights' E k) by lia.
  by rewrite Hw.
Qed.

Lemma denseLayer_eq (inputs weights biases outputs : list F32.t) (n E : nat) :
  (n <= length outputs)%nat ->
  denseLayer inputs weights biases outputs n E =
  map (fun i => dense_row inputs weights biases i E) (seq 0 n) ++ drop n outputs.
Proof. intros Hn. unfold denseLayer. by apply for_loop_fill. Qed.

(** X13.  [denseLayer] overwrites the first [num_samples] outputs and nothing
    else, and what it writes depends only on the inputs, on the first
    [embedding_size] weights and on [biases[0]]: not on the other weights
    and biases, nor on what the outputs held. *)
Theorem denseLayer_footprint (inputs weights weights' biases biases'
    outputs outputs' : list F32.t) (num_samples embedding_size : nat) :
  (num_samples <= length outputs)%nat ->
  length outputs' = length outputs ->
  take embedding_size weights = take embedding_size weights' ->
  biases !! 0%nat = biases' !! 0%nat ->
  length (denseLayer inputs weights biases outputs num_samples embedding_size) =
    length outputs /\
  drop num_samples (denseLayer inputs weights biases outputs num_samples embedding_size) =
    drop num_samples outputs /\
  take num_samples (denseLayer inputs weights biases outputs num_samples embedding_size) =
  take num_samples (denseLayer inputs weights' biases' outputs' num_samples embedding_size).
Proof.
  intros Hn Hl Hw Hb. rewrite !denseLayer_eq by lia.
  assert (length (map (fun i => dense_row inputs weights biases i embedding_size)
                      (seq 0 num_samples)) = num_samples) as Hm
    by (by rewrite length_map, length_seq).
  assert (length (map (fun i => dense_row inputs weights' biases' i embedding_size)
                      (seq 0 num_samples)) = num_samples) as Hm'
    by (by rewrite length_map, length_seq).
  split; [rewrite length_app, Hm, length_drop; lia|]. split.
  - by rewrite drop_app_length' by done.
  - rewrite !take_app_length' by done. apply map_ext. intros i.
    by apply dense_row_ext.
Qed.

Lemma denseLayer_footprint_witness :
  length (denseLayer sample_inputs sample_weights sample_biases sample_block 2 2) =
    length sample_block /\
  drop 2 (denseLayer sample_inputs sample_weights sample_biases sample_block 2 2) =
    drop 2 sample_block /\
  take 2 (denseLayer sample_inputs sample_weights sample_biases sample_block 2 2) =
  take 2 (denseLayer sample_inputs (sample_weights ++ [S754_nan])
            (sample_biases ++ [S754_nan]) [F32.one; F32.one] 2 2).
Proof.
  apply (denseLayer_footprint sample_inputs sample_weights
           (sample_weights ++ [S754_nan]) sample_biases (sample_biases ++ [S754_nan])
           sample_block [F32.one; F32.one] 2 2); [cbn [length sample_block]; lia|reflexivity..].
Defined.

(** X14.  The iterations of the outer loop of [denseLayer] write different
    outputs and read none: run in any order, they leave the same
    outputs. *)
Theorem denseLayer_any_order (inputs weights biases outputs : list F32.t)
    (num_samples embedding_size : nat) (order : list nat) :
  order ≡ₚ seq 0 num_samples ->
  run_in_order order (dense_iteration inputs weights biases embedding_size) outputs =
  denseLayer inputs weights biases outputs num_samples embedding_size.
Proof.
  intros Hperm.
  rewrite (run_in_order_perm (dense_iteration inputs weights biases embedding_size)
             order (seq 0 num_samples)); [reflexivity| |exact Hperm].
  intros i j s Hij. unfold dense_iteration. by apply list_insert_insert_ne.
Qed.

Lemma denseLayer_any_order_witness :
  run_in_order [1; 0]%nat (dense_iteration sample_inputs sample_weights sample_biases 2)
    sample_block =
  denseLayer sample_inputs sample_weights sample_biases sample_block 2 2.
Proof.
  apply (denseLayer_any_order sample_inputs sample_weights sample_biases
           sample_block 2 2 [1; 0]%nat).
  apply perm_swap.
Defined.

(** ** sigmoidActivation *)

Lemma sigmoidActivation_eq (P : Platform) (outputs : list F32.t) (size : nat) :
  (size <= length outputs)%nat ->
  sigmoidActivation P outputs size =
  map (sigmoid P) (take size outputs) ++ drop size outputs.
Proof.
  intros Hn. unfold sigmoidActivation, read.
  by apply (for_loop_update (sigmoid P) S754_nan).
Qed.

Lemma sigmoid_iterations_commute (P : Platform) (i j : nat) (outs : list F32.t) :
  i <> j ->
  sigmoid_iteration P i (sigmoid_iteration P j outs) =
  sigmoid_iteration P j (sigmoid_iteration P i outs).
Proof.
  intros Hij. unfold sigmoid_iteration, read.
  rewrite !list_lookup_insert_ne by done. by apply list_insert_insert_ne.
Qed.

(** X15.  [sigmoidActivation] replaces each of the first [size] outputs by its
    activation and leaves the others; every iteration reads and writes
    its own output only, so that the iterations can run in any order. *)
Theorem sigmoidActivation_any_order (P : Platform) (outputs : list F32.t)
    (size : nat) (order : list nat) :
  (size <= length outputs)%nat ->
  order ≡ₚ seq 0 size ->
  sigmoidActivation P outputs size =
    map (sigmoid P) (take size outputs) ++ drop size outputs /\
  run_in_order order (sigmoid_iteration P) outputs =
    sigmoidActivation P outputs size.
Proof.
  intros Hn Hperm. split; [by apply sigmoidActivation_eq|].
  rewrite (run_in_order_perm (sigmoid_iteration P) order (seq 0 size));
    [reflexivity| |exact Hperm].
  intros i j s Hij. by apply sigmoid_iterations_commute.
Qed.

Lemma sigmoidActivation_any_order_witness :
  sigmoidActivation sample_platform [f_one; f_two; f_twenty] 2 =
    map (sigmoid sample_platform) (take 2 [f_one; f_two; f_twenty]) ++
    drop 2 [f_one; f_two; f_twenty] /\
  run_in_order [1; 0]%nat (sigmoid_iteration sample_platform)
    [f_one; f_two; f_twenty] =
    sigmoidActivation sample_platform [f_one; f_two; f_twenty] 2.
Proof.
  apply (sigmoidActivation_any_order sample_platform [f_one; f_two; f_twenty] 2
           [1; 0]%nat); [cbn [length]; lia|apply perm_swap].
Defined.

(** ** evaluate *)

Lemma count_steps_commute (outputs : list F32.t) (labels : list Z) (i j : nat)
    (correct : Z) :
  count_step outputs labels i (count_step outputs labels j correct) =
  count_step outputs labels j (count_step outputs labels i correct).
Proof.
  unfold count_step.
  destruct (_ =? _); destruct (_ =? _); lia.
Qed.

(** X16.  The count of correct predictions is a sum: the iterations of the loop
    of [evaluate] can run in any order. *)
Theorem evaluate_any_order (outputs : list F32.t) (labels : list Z)
    (num_samples : nat) (order : list nat) :
  order ≡ₚ seq 0 num_samples ->
  evaluate outputs labels num_samples =
  F32.div (F32.of_Z (run_in_order order (count_step outputs labels) 0))
          (F32.of_Z (Z.of_nat num_samples)).
Proof.
  intros Hperm. unfold evaluate. do 2 f_equal.
  rewrite (run_in_order_perm (count_step outputs labels) order (seq 0 num_samples));
    [reflexivity| |exact Hperm].
  intros i j s _. apply count_steps_commute.
Qed.

Lemma evaluate_any_order_witness :
  evaluate sample_outputs sample_labels 3 =
  F32.div (F32.of_Z (run_in_order [2; 0; 1]%nat
                       (count_step sample_outputs sample_labels) 0))
          (F32.of_Z (Z.of_nat 3)).
Proof.
  apply (evaluate_any_order sample_outputs sample_labels 3 [2; 0; 1]%nat).
  transitivity [0; 2; 1]%nat; [apply perm_swap|].
  apply perm_skip, perm_swap.
Defined.

(** ** Loops that copy *)

Lemma copy_labels_eq (set : list Post) (n : nat) (labels : list Z) :
  (n <= length set)%nat -> (n <= length labels)%nat ->
  copy_labels set n labels = map label (take n set) ++ drop n labels.
Proof.
  unfold copy_labels. induction n as [|n IH]; intros Hs Hl; [by rewrite drop_0|].
  rewrite for_loop_S, IH by lia.
  destruct (lookup_lt_is_Some_2 set n ltac:(lia)) as [p Hp].
  destruct (lookup_lt_is_Some_2 labels n ltac:(lia)) as [y Hy].
  rewrite Hp, (drop_S labels y n Hy), (take_S_r set n p Hp), map_app.
  assert (length (map label (take n set)) = n) as Hm
    by (rewrite length_map, length_take; lia).
  rewrite insert_app_r_alt by lia.
  rewrite Hm, Nat.sub_diag. cbn [insert list_insert map].
  by rewrite <- app_assoc.
Qed.

Lemma correct_count_prefix (outputs outputs' : list F32.t) (labels labels' : list Z)
    (n : nat) :
  take n outputs = take n outputs' -> take n labels = take n labels' ->
  correct_count outputs labels n = correct_count outputs' labels' n.
Proof.
  intros Ho Hl. unfold correct_count.
  apply (for_loop_related (fun a b => a = b)); [done|].
  intros i a b Hi <-. unfold count_step, read.
  rewrite <- (lookup_take_lt outputs n i), <- (lookup_take_lt outputs' n i) by lia.
  rewrite <- (lookup_take_lt labels n i), <- (lookup_take_lt labels' n i) by lia.
  by rewrite Ho, Hl.
Qed.

Lemma evaluate_prefix (outputs outputs' : list F32.t) (labels labels' : list Z)
    (n : nat) :
  take n outputs = take n outputs' -> take n labels = take n labels' ->
  evaluate outputs labels n = evaluate outputs' labels' n.
Proof.
  intros Ho Hl. unfold evaluate. by rewrite (correct_count_prefix _ outputs' _ labels').
Qed.

(** ** The forward pass *)

Lemma activated_scores (P : Platform) (inputs weights biases outs : list F32.t)
    (size E : nat) :
  (size <= length outs)%nat ->
  take size (sigmoidActivation P (denseLayer inputs weights biases outs size E) size) =
  map (sigmoid P) (map (fun i => dense_row inputs weights biases i E) (seq 0 size)).
Proof.
  intros Hn. rewrite denseLayer_eq by lia.
  assert (length (map (fun i => dense_row inputs weights biases i E) (seq 0 size)) = size)
    as Hm by (by rewrite length_map, length_seq).
  rewrite sigmoidActivation_eq by (rewrite length_app, Hm, length_drop; lia).
  rewrite (take_app_length' _ _ size (eq_sym Hm)).
  apply take_app_length'. by rewrite length_map.
Qed.

(** The result of the forward pass does not depend on what the block of
    the outputs held, nor on the weights and biases that [denseLayer]
    does not read. *)
Lemma forward_ext (P : Platform) (set : list Post) (labels labels' : list Z)
    (size : nat) (ids weights weights' biases biases' outs outs' : list F32.t) :
  (size <= length outs)%nat -> length outs' = length outs ->
  take NUM_FEATURES weights = take NUM_FEATURES weights' ->
  biases !! 0%nat = biases' !! 0%nat ->
  take size labels = take size labels' ->
  forward P set labels size ids weights biases outs =
  forward P set labels' size ids weights' biases' outs'.
Proof.
  intros Hn Hl Hw Hb Hlab. unfold forward.
  apply evaluate_prefix; [|exact Hlab].
  rewrite !activated_scores by lia.
  f_equal. apply map_ext. intros i. by apply dense_row_ext.
Qed.

(** ** loadAndSplitDataset in closed form *)

Lemma loadAndSplitDataset_eq (P : Platform) (lines : list (list byte)) (now : Z) :
  Z.of_nat (length lines) < 2 ^ 31 ->
  loadAndSplitDataset P (Some lines) now =
  split_of (malloc_zero_is_null P) (prng P now) lines.
Proof.
  intros Hlines.
  destruct (loadDataset_parse P lines) as (dataset & Hload & Hposts).
  pose proof (omap_length_le parse_line lines) as Hle.
  unfold loadAndSplitDataset, split_of. rewrite Hload.
  set (posts := omap parse_line lines) in *. set (count := length posts) in *.
  pose proof (train_size_range (Z.of_nat count) ltac:(lia)) as Hrange.
  set (t := train_size (Z.of_nat count)) in *.
  unfold safe_malloc.
  destruct ((Z.to_nat t =? 0)%nat && malloc_zero_is_null P); [reflexivity|].
  destruct ((Z.to_nat (Z.of_nat count - t) =? 0)%nat && malloc_zero_is_null P);
    [reflexivity|].
  destruct (shuffleDataset_invariant (prng P now) dataset count) as (_ & Hlen & _).
  assert (count <= length dataset)%nat as Hcd.
  { apply (f_equal length) in Hposts. rewrite length_take in Hposts.
    fold count in Hposts. lia. }
  pose proof (shuffleDataset_take (prng P now) dataset count) as Htake.
  rewrite Hposts in Htake.
  rewrite !copy_posts_eq by (rewrite ?length_map, ?length_seq, ?Hlen; lia).
  rewrite drop_0, <- Htake. do 2 f_equal.
  - rewrite take_take. f_equal. lia.
  - rewrite take_drop_commute. do 2 f_equal. lia.
Qed.

Lemma split_of_lengths (zn : bool) (rand : nat -> Z) (lines : list (list byte))
    (s : split) :
  Z.of_nat (length lines) < 2 ^ 31 ->
  split_of zn rand lines = Return s ->
  num_samples s = Z.of_nat (length (omap parse_line lines)) /\
  trainSize s = train_size (num_samples s) /\
  testSize s = num_samples s - trainSize s /\
  length (trainSet s) = Z.to_nat (trainSize s) /\
  length (testSet s) = Z.to_nat (testSize s) /\
  trainSet s ++ testSet s =
    shuffleDataset rand (omap parse_line lines) (length (omap parse_line lines)).
Proof.
  intros Hlines. unfold split_of.
  pose proof (omap_length_le parse_line lines) as Hle.
  set (posts := omap parse_line lines) in *. set (count := length posts) in *.
  pose proof (train_size_range (Z.of_nat count) ltac:(lia)) as Hrange.
  set (t := train_size (Z.of_nat count)) in *.
  destruct (_ && _); [discriminate|]. destruct (_ && _); [discriminate|].
  intros [= <-]. cbn [trainSet testSet trainSize testSize num_samples].
  destruct (shuffleDataset_invariant rand posts count) as (_ & Hlen & _).
  fold count in Hlen.
  split; [done|]. split; [done|]. split; [done|].
  rewrite length_take, length_drop, Hlen.
  split; [lia|]. split; [lia|]. apply take_drop.
Qed.

(** X17.  The training set followed by the test set is the array of the
    samples after the shuffle: together the two sets hold every loaded
    post once, and no slot of the array behind the samples. *)
Theorem loadAndSplitDataset_partition (P : Platform) (lines : list (list byte))
    (now : Z) (s : split) :
  Z.of_nat (length lines) < 2 ^ 31 ->
  loadAndSplitDataset P (Some lines) now = Return s ->
  exists dataset count,
    loadDataset P (Some lines) = Return (dataset, count) /\
    trainSet s ++ testSet s = take count (shuffleDataset (prng P now) dataset count) /\
    trainSet s ++ testSet s ≡ₚ take count dataset.
Proof.
  intros Hlines Hs. rewrite loadAndSplitDataset_eq in Hs by done.
  destruct (split_of_lengths _ _ _ _ Hlines Hs) as (_ & _ & _ & _ & _ & Happ).
  destruct (loadDataset_parse P lines) as (dataset & Hload & Hposts).
  exists dataset, (length (omap parse_line lines)). split; [exact Hload|].
  rewrite shuffleDataset_take, Hposts. split; [exact Happ|].
  rewrite Happ.
  by destruct (shuffleDataset_invariant (prng P now) (omap parse_line lines)
                 (length (omap parse_line lines))) as (Hp & _ & _).
Qed.

Lemma sample_split :
  Z.of_nat (length sample_file) < 2 ^ 31 /\
  exists s,
    loadAndSplitDataset sample_platform (Some sample_file) 0 = Return s /\
    (trainSize s =? 0) || (testSize s =? 0) = false.
Proof.
  assert (Z.of_nat (length sample_file) < 2 ^ 31) as Hl by (cbn [length sample_file]; lia).
  split; [exact Hl|].
  rewrite (loadAndSplitDataset_eq sample_platform sample_file 0 Hl).
  unfold split_of. change (malloc_zero_is_null sample_platform) with false.
  rewrite !andb_false_r. eexists. split; [reflexivity|].
  cbn [trainSize testSize]. vm_compute. reflexivity.
Qed.

Lemma loadAndSplitDataset_partition_witness :
  exists s dataset count,
    loadAndSplitDataset sample_platform (Some sample_file) 0 = Return s /\
    loadDataset sample_platform (Some sample_file) = Return (dataset, count) /\
    trainSet s ++ testSet s ≡ₚ take count dataset.
Proof.
  destruct sample_split as (Hl & s & Hs & _).
  destruct (loadAndSplitDataset_partition sample_platform sample_file 0 s Hl Hs)
    as (d & c & H1 & _ & H3).
  exists s, d, c. split; [exact Hs|]. split; [exact H1|exact H3].
Defined.

(** ** The texts that reach the vectorizer *)

Lemma custom_strlen_app_le (s r : list byte) :
  (custom_strlen (s ++ x00 :: r) <= length s)%nat.
Proof.
  induction s as [|c s IH]; [reflexivity|]. cbn [app custom_strlen length].
  destruct (Byte.eqb c x00); lia.
Qed.

Lemma strncpy_text_terminated (token : list byte) :
  length (strncpy_text token) = MAX_TOKENS /\
  (custom_strlen (strncpy_text token) < MAX_TOKENS)%nat.
Proof.
  split; [apply strncpy_text_length|]. rewrite strncpy_text_eq.
  pose proof (custom_strlen_app_le (take (MAX_TOKENS - 1) token)
                (replicate (MAX_TOKENS - 1 - length (take (MAX_TOKENS - 1) token)) x00)).
  assert (length (take (MAX_TOKENS - 1) token) <= MAX_TOKENS - 1)%nat
    by (rewrite length_take; lia).
  unfold MAX_TOKENS in *. lia.
Qed.

(** X26.  Every text of the training set and of the test set fills its
    buffer of [MAX_TOKENS] bytes and has its terminator inside it,
    whatever the file holds: [custom_strlen] stops inside the buffer and
    [tokenizeAndEmbed] writes no cell outside the row of its sample. *)
Theorem loadAndSplitDataset_texts_terminated (P : Platform)
    (lines : list (list byte)) (now : Z) (s : split) (p : Post) :
  Z.of_nat (length lines) < 2 ^ 31 ->
  loadAndSplitDataset P (Some lines) now = Return s ->
  p ∈ trainSet s ++ testSet s ->
  length (text p) = MAX_TOKENS /\
  (custom_strlen (text p) < MAX_TOKENS)%nat /\
  text p !! custom_strlen (text p) = Some x00.
Proof.
  intros Hlines Hs Hp. rewrite loadAndSplitDataset_eq in Hs by done.
  destruct (split_of_lengths _ _ _ _ Hlines Hs) as (_ & _ & _ & _ & _ & Happ).
  rewrite Happ in Hp.
  destruct (shuffleDataset_invariant (prng P now) (omap parse_line lines)
              (length (omap parse_line lines))) as (Hperm & _ & _).
  rewrite Hperm in Hp.
  apply list_elem_of_omap in Hp as (line & _ & Hparse).
  apply parse_line_props in Hparse as (token & txt & -> & _).
  cbn [text]. destruct (strncpy_text_terminated txt) as [Hl Hlt].
  split; [exact Hl|]. split; [exact Hlt|].
  apply custom_strlen_first_nul_at. rewrite strncpy_text_eq.
  apply elem_of_app. right. apply elem_of_cons. by left.
Qed.

Lemma loadAndSplitDataset_texts_terminated_witness :
  exists s p,
    loadAndSplitDataset sample_platform (Some sample_file) 0 = Return s /\
    trainSet s !! 0%nat = Some p /\
    length (text p) = MAX_TOKENS /\
    (custom_strlen (text p) < MAX_TOKENS)%nat /\
    text p !! custom_strlen (text p) = Some x00.
Proof.
  destruct sample_split as (Hl & s & Hs & Hg).
  pose proof Hs as Hs'. rewrite loadAndSplitDataset_eq in Hs' by done.
  destruct (split_of_lengths _ _ _ _ Hl Hs') as (HN & Ht & _ & Ltr & _).
  apply orb_false_iff in Hg as [Hg _]. apply Z.eqb_neq in Hg.
  pose proof (omap_length_le parse_line sample_file) as Hle.
  pose proof (train_size_range (num_samples s) ltac:(lia)) as Hr.
  rewrite <- Ht in Hr.
  assert (is_Some (trainSet s !! 0%nat)) as [p Hp]
    by (apply lookup_lt_is_Some; lia).
  exists s, p. split; [exact Hs|]. split; [exact Hp|].
  apply (loadAndSplitDataset_texts_terminated sample_platform sample_file 0 s p Hl Hs).
  apply elem_of_app. left. by apply (list_elem_of_lookup_2 _ 0%nat).
Defined.

(** ** main *)


Lemma main_of_empty_split (P : Platform) (file : option (list (list byte)))
    (now1 now2 : Z) (s : split) :
  loadAndSplitDataset P file now1 = Return s ->
  (trainSize s =? 0) || (testSize s =? 0) = true ->
  main P file now1 now2 = (1, [Starting; NoSamplesFound]).
Proof. intros Hs Hg. unfold main. by rewrite Hs, Hg. Qed.

Lemma main_of_exit (P : Platform) (file : option (list (list byte)))
    (now1 now2 c : Z) (m : list message) :
  loadAndSplitDataset P file now1 = Exit c m ->
  main P file now1 now2 = (c, Starting :: m).
Proof. intros Hs. unfold main. by rewrite Hs. Qed.



(** ** Blocks that are written before they are read *)

Lemma init_weights_block (P : Platform) (rand : nat -> Z) (h : nat -> F32.t)
    (n : nat) :
  init_weights P rand (map h (seq 0 (n * n))) n =
  map (fun i => xavier P (rand i) n) (seq 0 (n * n)).
Proof.
  unfold init_weights.
  rewrite (for_loop_fill (fun i => xavier P (rand i) n))
    by (by rewrite length_map, length_seq).
  rewrite drop_ge by (by rewrite length_map, length_seq). apply app_nil_r.
Qed.

Lemma zero_block (h : nat -> F32.t) (n : nat) :
  for_loop n (fun i b => <[i := F32.zero]> b) (map h (seq 0 n)) =
  map (fun _ => F32.zero) (seq 0 n).
Proof.
  rewrite (for_loop_fill (fun _ => F32.zero))
    by (by rewrite length_map, length_seq).
  rewrite drop_ge by (by rewrite length_map, length_seq). apply app_nil_r.
Qed.

Lemma copy_labels_block (set : list Post) (h : nat -> Z) :
  copy_labels set (length set) (map h (seq 0 (length set))) = map label set.
Proof.
  rewrite copy_labels_eq by (rewrite ?length_map, ?length_seq; lia).
  rewrite drop_ge by (by rewrite length_map, length_seq).
  by rewrite take_ge, app_nil_r by lia.
Qed.

Lemma split_accuracy_heap (P : Platform) (hf : string -> nat -> F32.t)
    (hi : string -> nat -> Z) (hp : string -> nat -> Post) (set : list Post)
    (now2 : Z) (nameL nameT nameO : string) :
  hf nameT = heap_float P nameT ->
  forward (with_heap P hf hi hp) set
    (copy_labels set (length set)
       (map (heap_int (with_heap P hf hi hp) nameL) (seq 0 (length set))))
    (length set)
    (block (with_heap P hf hi hp) nameT (length set * MAX_TOKENS))
    (init_weights (with_heap P hf hi hp) (prng (with_heap P hf hi hp) now2)
       (block (with_heap P hf hi hp) "trainWeights" (NUM_FEATURES * NUM_FEATURES))
       NUM_FEATURES)
    (for_loop NUM_FEATURES (fun i b => <[i := F32.zero]> b)
       (block (with_heap P hf hi hp) "trainBiases" NUM_FEATURES))
    (block (with_heap P hf hi hp) nameO (length set * NUM_FEATURES)) =
  forward P set
    (copy_labels set (length set) (map (heap_int P nameL) (seq 0 (length set))))
    (length set)
    (block P nameT (length set * MAX_TOKENS))
    (init_weights P (prng P now2)
       (block P "trainWeights" (NUM_FEATURES * NUM_FEATURES)) NUM_FEATURES)
    (for_loop NUM_FEATURES (fun i b => <[i := F32.zero]> b)
       (block P "trainBiases" NUM_FEATURES))
    (block P nameO (length set * NUM_FEATURES)).
Proof.
  intros Hname. unfold block.
  rewrite !copy_labels_block, !init_weights_block, !zero_block.
  change (heap_float (with_heap P hf hi hp) nameT) with (hf nameT). rewrite Hname.
  change (forward (with_heap P hf hi hp)) with (forward P).
  change (xavier (with_heap P hf hi hp)) with (xavier P).
  change (prng (with_heap P hf hi hp)) with (prng P).
  apply forward_ext; try reflexivity.
  - rewrite length_map, length_seq. unfold NUM_FEATURES. lia.
  - by rewrite !length_map, !length_seq.
Qed.

(** X19.  What [main] prints depends on the contents of the blocks that
    [malloc] returns only through the two blocks of token identifiers:
    every other block is written before it is read. *)
Theorem main_reads_no_other_block (P : Platform) (hf : string -> nat -> F32.t)
    (hi : string -> nat -> Z) (hp : string -> nat -> Post)
    (lines : list (list byte)) (now1 now2 : Z) :
  Z.of_nat (length lines) < 2 ^ 31 ->
  hf "trainTokenIds"%string = heap_float P "trainTokenIds" ->
  hf "testTokenIds"%string = heap_float P "testTokenIds" ->
  main (with_heap P hf hi hp) (Some lines) now1 now2 = main P (Some lines) now1 now2.
Proof.
  intros Hlines Htrain Htest. unfold main.
  rewrite !loadAndSplitDataset_eq by done.
  change (split_of (malloc_zero_is_null (with_heap P hf hi hp))
            (prng (with_heap P hf hi hp) now1) lines)
    with (split_of (malloc_zero_is_null P) (prng P now1) lines).
  destruct (split_of (malloc_zero_is_null P) (prng P now1) lines) as [c m|s] eqn:Hs;
    [reflexivity|].
  destruct ((trainSize s =? 0) || (testSize s =? 0)); [reflexivity|].
  destruct (split_of_lengths _ _ _ _ Hlines Hs) as (_ & _ & _ & Ltr & Lte & _).
  cbv zeta. rewrite <- Ltr, <- Lte.
  rewrite (split_accuracy_heap P hf hi hp (trainSet s) now2 "trainLabels"
             "trainTokenIds" "trainOutputs" Htrain).
  rewrite (split_accuracy_heap P hf hi hp (testSet s) now2 "testLabels"
             "testTokenIds" "testOutputs" Htest).
  reflexivity.
Qed.

Lemma main_reads_no_other_block_witness :
  main (with_heap sample_platform other_floats (fun _ _ => 7)
          (fun _ _ => mkPost [] 7)) (Some sample_file) 0 0 =
  main sample_platform (Some sample_file) 0 0.
Proof.
  apply (main_reads_no_other_block sample_platform other_floats (fun _ _ => 7)
           (fun _ _ => mkPost [] 7) sample_file 0 0); [|reflexivity..].
  cbn [length sample_file]. lia.
Defined.

(** ** SFmul *)

Section Products.
Variables prec emax : Z.
Hypothesis Hprec : 0 < prec.
Hypothesis Hemax : prec < emax.

(** The product of two valid positive floats is the rounding of the
    product of their values. *)
Lemma SFmul_rounds mx ex my ey :
  canonical_mantissa prec emax mx ex = true ->
  canonical_mantissa prec emax my ey = true ->
  roundable prec emax (Zpos mx * Zpos my) 1 (ex + ey) /\
  SFmul prec emax (S754_finite false mx ex) (S754_finite false my ey) =
  encode prec emax false (rmant prec emax (Zpos mx * Zpos my) 1 (ex + ey))
                         (rexp prec emax (Zpos mx * Zpos my) 1 (ex + ey)).
Proof.
  intros Hx Hy.
  apply (canonical_mantissa_iff prec emax Hprec) in Hx as (Hmx & Hex & Hnx).
  apply (canonical_mantissa_iff prec emax Hprec) in Hy as (Hmy & Hey & Hny).
  assert (roundable prec emax (Zpos mx * Zpos my) 1 (ex + ey)) as Hr.
  { split; [lia|split; [lia|]]. unfold rexp. rewrite Z.div_1_r.
    unfold fexp, emin in *.
    destruct (Z.le_gt_cases (ex + ey) (3 - emax - prec)) as [|Hgt]; [lia|].
    assert (2 ^ (prec - 1) <= Zpos mx * Zpos my) as Hbig.
    { pose proof (pow2_pos (prec - 1) ltac:(lia)).
      destruct (Z.le_gt_cases ex (3 - emax - prec)) as [Hle|Hlt].
      - specialize (Hny ltac:(lia)). nia.
      - specialize (Hnx ltac:(lia)). nia. }
    assert (prec <= Zdigits2 (Zpos mx * Zpos my)).
    { destruct (Z.le_gt_cases prec (Zdigits2 (Zpos mx * Zpos my))) as [|Hlt];
        [assumption|].
      pose proof (Zdigits2_lt_pow2 (Zpos mx * Zpos my) (prec - 1) ltac:(lia)
                    ltac:(lia) ltac:(lia)). lia. }
    lia. }
  split; [exact Hr|]. unfold SFmul. cbn [xorb].
  rewrite <- (binary_round_aux_rounds prec emax false _ 1 _ Hr).
  destruct (loc_of_1 (Zpos mx * Zpos my)) as [-> ->]. reflexivity.
Qed.

Lemma SFmul_nonneg_valid mx ex my ey :
  canonical_mantissa prec emax mx ex = true ->
  canonical_mantissa prec emax my ey = true ->
  nonneg_float (SFmul prec emax (S754_finite false mx ex) (S754_finite false my ey)) /\
  valid_binary prec emax
    (SFmul prec emax (S754_finite false mx ex) (S754_finite false my ey)) = true.
Proof.
  intros Hx Hy. destruct (SFmul_rounds mx ex my ey Hx Hy) as [Hr ->].
  pose proof (rounded_rmant prec emax Hprec _ _ _ Hr).
  split; [by apply encode_nonneg|by apply encode_valid].
Qed.

(** A product does not decrease when a factor grows. *)
Lemma SFmul_mono mx ex mx' ex' my ey :
  canonical_mantissa prec emax mx ex = true ->
  canonical_mantissa prec emax mx' ex' = true ->
  canonical_mantissa prec emax my ey = true ->
  SFleb (S754_finite false mx ex) (S754_finite false mx' ex') = true ->
  SFleb (SFmul prec emax (S754_finite false mx ex) (S754_finite false my ey))
        (SFmul prec emax (S754_finite false mx' ex') (S754_finite false my ey)) = true.
Proof.
  intros Hx Hx' Hy Hle.
  destruct (SFmul_rounds mx ex my ey Hx Hy) as [Hr ->].
  destruct (SFmul_rounds mx' ex' my ey Hx' Hy) as [Hr' ->].
  apply (encode_le prec emax Hprec); [by apply rounded_rmant..|].
  set (c := Z.min ex ex' + ey).
  apply (rounding_mono prec emax Hprec Hemax c); [assumption..|unfold c; lia|unfold c; lia|].
  unfold value_le.
  pose proof (float_le_value prec emax Hprec mx ex mx' ex' (Z.min ex ex') Hx Hx' Hle
                ltac:(lia) ltac:(lia)) as Hv.
  replace (ex + ey - c) with (ex - Z.min ex ex') by (unfold c; lia).
  replace (ex' + ey - c) with (ex' - Z.min ex ex') by (unfold c; lia).
  nia.
Qed.

(** A quotient of valid positive floats is at least 1 when the divisor
    is at most the dividend. *)
Lemma SFdiv_ge_one mx ex my ey :
  canonical_mantissa prec emax mx ex = true ->
  canonical_mantissa prec emax my ey = true ->
  SFleb (S754_finite false my ey) (S754_finite false mx ex) = true ->
  SFleb (binary_round prec emax false 1 0)
        (SFdiv prec emax (S754_finite false mx ex) (S754_finite false my ey)) = true.
Proof.
  intros Hx Hy Hle.
  pose proof (proj1 (canonical_mantissa_iff prec emax Hprec mx ex) Hx) as (Hmx & _ & _).
  destruct (SFdiv_rounds prec emax Hprec mx ex my ey Hmx) as (N & e' & Hr & He' & HN & ->).
  destruct (binary_round_rounds prec emax false 1 0) as (N1 & e1 & Hr1 & He1 & HN1 & _ & ->).
  apply (encode_le prec emax Hprec); [by apply rounded_rmant..|].
  apply (rounding_mono prec emax Hprec Hemax (Z.min e' e1)); [assumption..|lia|lia|].
  unfold value_le. set (c := Z.min e' e1).
  rewrite HN, HN1, !Z.mul_1_l, Z.mul_1_r, <- !Z.mul_assoc, <- pow2_split by lia.
  rewrite (Z.mul_comm (2 ^ (0 - e1))), <- !Z.mul_assoc, <- pow2_split by lia.
  pose proof (float_le_value prec emax Hprec my ey mx ex (Z.min ex ey) Hy Hx Hle
                ltac:(lia) ltac:(lia)) as Hv.
  replace (ex - ey - e' + (e' - c)) with (ex - Z.min ex ey + (- ey - c + Z.min ex ey)) by lia.
  replace (e1 - c + (0 - e1)) with (ey - Z.min ex ey + (- ey - c + Z.min ex ey)) by lia.
  apply scale_le; [lia..|exact Hv].
Qed.
End Products.

(** ** binary32: quotients and percentages *)

Lemma SFleb_refl_finite (m : positive) (e : Z) :
  SFleb (S754_finite false m e) (S754_finite false m e) = true.
Proof.
  unfold SFleb, SFcompare. rewrite Z.compare_refl.
  by rewrite Pos.compare_cont_refl.
Qed.

Lemma F32_round_one : binary_round F32.prec F32.emax false 1 0 = F32.one.
Proof. reflexivity. Qed.

(** A converted [int] divided by itself is exactly 1. *)
Lemma F32_div_self (n : Z) :
  1 <= n < 2 ^ 31 -> F32.div (F32.of_Z n) (F32.of_Z n) = F32.one.
Proof.
  intros Hn. destruct (F32_of_Z_finite n Hn) as (m & e & Hx & Hc). rewrite Hx.
  pose proof (SFleb_refl_finite m e) as Hrefl.
  pose proof (SFdiv_le_one F32.prec F32.emax F32_prec_pos F32_prec_emax m e m e
                Hc Hc Hrefl) as Hle.
  pose proof (SFdiv_ge_one F32.prec F32.emax F32_prec_pos F32_prec_emax m e m e
                Hc Hc Hrefl) as Hge.
  pose proof (proj1 (canonical_mantissa_iff F32.prec F32.emax F32_prec_pos m e) Hc)
    as (Hm & _).
  destruct (SFdiv_nonneg_valid F32.prec F32.emax F32_prec_pos m e m e Hm) as [Hnn _].
  rewrite F32_round_one, F32_one_eq in Hle, Hge.
  unfold F32.div. rewrite F32_one_eq.
  destruct (between_finite _ _ _ _ _ Hnn Hge Hle) as (mq & eq & Hq).
  rewrite Hq in *. by apply SFleb_antisym_finite.
Qed.

Lemma hundred_canonical :
  hundred = S754_finite false 13107200 (-17) /\
  canonical_mantissa F32.prec F32.emax 13107200 (-17) = true /\
  F32.mul F32.one hundred = hundred.
Proof. repeat split. Qed.

(** The percentage of an accuracy lies between 0 and 100. *)
Lemma percent_range (c n : Z) :
  0 <= c <= n -> 1 <= n < 2 ^ 31 ->
  F32.leb F32.zero (F32.mul (F32.div (F32.of_Z c) (F32.of_Z n)) hundred) = true /\
  F32.leb (F32.mul (F32.div (F32.of_Z c) (F32.of_Z n)) hundred) hundred = true.
Proof.
  intros Hc Hn. destruct (F32_of_Z_finite n Hn) as (my & ey & Hy & Hcy).
  destruct hundred_canonical as (Hh & Hhc & Hone).
  destruct (Z.eq_dec c 0) as [->|Hc0]; [rewrite Hy; split; reflexivity|].
  destruct (F32_of_Z_finite c ltac:(lia)) as (mx & ex & Hx & Hcx).
  pose proof (F32_of_Z_mono c n ltac:(lia)) as Hle. rewrite Hx, Hy in Hle.
  pose proof (SFdiv_le_one F32.prec F32.emax F32_prec_pos F32_prec_emax mx ex my ey
                Hcx Hcy Hle) as Hq1.
  pose proof (proj1 (canonical_mantissa_iff F32.prec F32.emax F32_prec_pos mx ex) Hcx)
    as (Hmx & _).
  destruct (SFdiv_nonneg_valid F32.prec F32.emax F32_prec_pos mx ex my ey Hmx)
    as [Hnn Hv].
  rewrite Hx, Hy. unfold F32.div.
  rewrite F32_round_one, F32_one_eq in Hq1.
  destruct (SFdiv F32.prec F32.emax (S754_finite false mx ex) (S754_finite false my ey))
    as [s|s| |s mq eq] eqn:Hq.
  - rewrite Hh. destruct s; split; reflexivity.
  - destruct s; [contradiction|discriminate].
  - contradiction.
  - destruct s; [contradiction|].
    apply valid_finite_canonical in Hv as [Hcq _].
    rewrite Hh. unfold F32.mul. split.
    + apply SFleb_zero_nonneg.
      by apply (SFmul_nonneg_valid F32.prec F32.emax F32_prec_pos).
    + rewrite <- Hh at 2. rewrite <- Hone, Hh, F32_one_eq. unfold F32.mul.
      apply (SFmul_mono F32.prec F32.emax F32_prec_pos F32_prec_emax); try done.
Qed.

(** ** The accuracy at its ends *)

(** X20.  [evaluate] returns exactly 1 when every prediction is the label and
    exactly 0 when none is. *)
Theorem evaluate_exact_ends (outputs : list F32.t) (labels : list Z) (N : nat) :
  length outputs = N -> length labels = N ->
  (1 <= N)%nat -> Z.of_nat N < 2 ^ 31 ->
  (matches outputs labels = N -> evaluate outputs labels N = F32.one) /\
  (matches outputs labels = 0%nat -> evaluate outputs labels N = F32.zero).
Proof.
  intros Ho Hl HN Hint. unfold evaluate.
  rewrite correct_count_matches by lia.
  rewrite !take_ge by lia. split; intros ->.
  - apply F32_div_self. lia.
  - destruct (F32_of_Z_finite (Z.of_nat N) ltac:(lia)) as (m & e & -> & _).
    reflexivity.
Qed.

Lemma evaluate_exact_ends_witness :
  evaluate (take 2 sample_outputs) (take 2 sample_labels) 2 = F32.one.
Proof.
  apply (evaluate_exact_ends (take 2 sample_outputs) (take 2 sample_labels) 2);
    [reflexivity|reflexivity|lia|lia|reflexivity].
Defined.

(** ** The percentages that main prints *)

Lemma evaluate_percent_range (outputs : list F32.t) (labels : list Z) (n : nat) :
  (1 <= n)%nat -> Z.of_nat n < 2 ^ 31 ->
  F32.leb F32.zero (F32.mul (evaluate outputs labels n) hundred) = true /\
  F32.leb (F32.mul (evaluate outputs labels n) hundred) hundred = true.
Proof.
  intros Hn Hint. unfold evaluate. apply percent_range; [|lia].
  apply correct_count_bounds.
Qed.

Lemma main_of_split_evaluate (P : Platform) (file : option (list (list byte)))
    (now1 now2 : Z) (s : split) :
  loadAndSplitDataset P file now1 = Return s ->
  (trainSize s =? 0) || (testSize s =? 0) = false ->
  exists outs labels outs' labels',
    main P file now1 now2 =
    (0, [Starting; Loaded (trainSize s) (testSize s);
         TrainingAccuracy
           (F32.mul (evaluate outs labels (Z.to_nat (trainSize s))) hundred);
         TestAccuracy
           (F32.mul (evaluate outs' labels' (Z.to_nat (testSize s))) hundred);
         Completed]).
Proof.
  intros Hs Hg. unfold main. rewrite Hs, Hg. cbv zeta. unfold forward.
  eexists _, _, _, _. reflexivity.
Qed.

(** X21.  Every percentage that [main] prints lies between 0 and 100; none is
    a NaN. *)
Theorem main_percentages_in_range (P : Platform) (lines : list (list byte))
    (now1 now2 : Z) (p : F32.t) :
  Z.of_nat (length lines) < 2 ^ 31 ->
  TrainingAccuracy p ∈ (main P (Some lines) now1 now2).2 \/
  TestAccuracy p ∈ (main P (Some lines) now1 now2).2 ->
  F32.leb F32.zero p = true /\ F32.leb p hundred = true.
Proof.
  intros Hlines Hin.
  destruct (loadAndSplitDataset P (Some lines) now1) as [c m|s] eqn:Hs.
  - exfalso. rewrite (main_of_exit P _ now1 now2 c m Hs) in Hin. cbn [snd] in Hin.
    rewrite loadAndSplitDataset_eq in Hs by done. unfold split_of in Hs.
    destruct (_ && _).
    + injection Hs as <- <-.
      destruct Hin as [Hin|Hin];
        repeat (apply elem_of_cons in Hin as [Hin|Hin]; [discriminate|]);
        by apply elem_of_nil in Hin.
    + destruct (_ && _); [|discriminate]. injection Hs as <- <-.
      destruct Hin as [Hin|Hin];
        repeat (apply elem_of_cons in Hin as [Hin|Hin]; [discriminate|]);
        by apply elem_of_nil in Hin.
  - destruct ((trainSize s =? 0) || (testSize s =? 0)) eqn:Hg.
    + exfalso. rewrite (main_of_empty_split P _ now1 now2 s Hs Hg) in Hin.
      cbn [snd] in Hin.
      destruct Hin as [Hin|Hin];
        repeat (apply elem_of_cons in Hin as [Hin|Hin]; [discriminate|]);
        by apply elem_of_nil in Hin.
    + destruct (main_of_split_evaluate P _ now1 now2 s Hs Hg)
        as (o & l & o' & l' & Hm).
      rewrite Hm in Hin. cbn [snd] in Hin.
      pose proof Hs as Hs'. rewrite loadAndSplitDataset_eq in Hs' by done.
      destruct (split_of_lengths _ _ _ _ Hlines Hs') as (HN & Ht & Hu & _).
      pose proof (omap_length_le parse_line lines) as Hle.
      pose proof (train_size_range (num_samples s) ltac:(lia)) as Hrange.
      apply orb_false_iff in Hg as [Hg1 Hg2]. apply Z.eqb_neq in Hg1, Hg2.
      destruct Hin as [Hin|Hin];
        repeat (apply elem_of_cons in Hin as [Hin|Hin]; [try discriminate|]);
        try (by apply elem_of_nil in Hin);
        injection Hin as ->; apply evaluate_percent_range; lia.
Qed.

Lemma main_percentages_in_range_witness :
  exists p,
    TrainingAccuracy p ∈ (main sample_platform (Some sample_file) 0 0).2 /\
    F32.leb F32.zero p = true /\ F32.leb p hundred = true.
Proof.
  destruct sample_split as (Hl & s & Hs & Hg).
  destruct (main_of_split_evaluate sample_platform _ 0 0 s Hs Hg)
    as (o & l & o' & l' & Hm).
  exists (F32.mul (evaluate o l (Z.to_nat (trainSize s))) hundred).
  assert (TrainingAccuracy (F32.mul (evaluate o l (Z.to_nat (trainSize s))) hundred)
            ∈ (main sample_platform (Some sample_file) 0 0).2) as Hin.
  { rewrite Hm. cbn [snd]. do 2 (apply elem_of_cons; right).
    apply elem_of_cons. by left. }
  split; [exact Hin|].
  apply (main_percentages_in_range sample_platform sample_file 0 0 _ Hl).
  left. exact Hin.
Defined.

(** ** The initial weights *)

Lemma F64_prec_emax : F64.prec < F64.emax.
Proof. reflexivity. Qed.

Lemma xavier_scale_eq :
  xavier_scale = S754_finite false 6369051672525773 (-57) /\
  canonical_mantissa F64.prec F64.emax 6369051672525773 (-57) = true /\
  xavier_bound = S754_finite false 11863283 (-28).
Proof. vm_compute. auto. Qed.

Lemma one_to_double :
  binary_round F64.prec F64.emax false 8388608 (-23) =
    S754_finite false 4503599627370496 (-52) /\
  canonical_mantissa F64.prec F64.emax 4503599627370496 (-52) = true /\
  SFmul F64.prec F64.emax (S754_finite false 4503599627370496 (-52))
    (S754_finite false 6369051672525773 (-57)) =
    S754_finite false 6369051672525773 (-57).
Proof. vm_compute. auto. Qed.

(** A [float] from 0 to 1, multiplied in [double] by the scale and
    converted back, lies between 0 and the converted scale. *)
Lemma scaled_unit_range (q : F32.t) :
  nonneg_float q -> F32.valid q = true -> F32.leb q F32.one = true ->
  F32.leb F32.zero (F32.of_float (F64.mul (F64.of_float q) xavier_scale)) = true /\
  F32.leb (F32.of_float (F64.mul (F64.of_float q) xavier_scale)) xavier_bound = true.
Proof.
  intros Hnn Hv Hle.
  destruct xavier_scale_eq as (Hs & Hsc & Hb).
  destruct one_to_double as (H1 & H1c & H1s).
  rewrite Hb. unfold xavier_bound in Hb. rewrite Hs in *.
  destruct q as [s|s| |s mq eq]; try contradiction.
  - destruct s; split; reflexivity.
  - destruct s; [contradiction|discriminate Hle].
  - destruct s; [contradiction|].
    apply valid_finite_canonical in Hv as [Hcq _].
    cbn [F64.of_float]. rewrite F32_one_eq in Hle.
    pose proof (float_le_value F32.prec F32.emax F32_prec_pos mq eq 8388608%positive (-23)%Z
                  (Z.min eq (-23)) Hcq F32_one_canonical Hle ltac:(lia) ltac:(lia))
      as Hval.
    pose proof (binary_round_mono F64.prec F64.emax F64_prec_pos F64_prec_emax
                  mq eq 8388608%positive (-23)%Z (Z.min eq (-23)) ltac:(lia) ltac:(lia) Hval)
      as Hle64.
    rewrite H1 in Hle64.
    destruct (binary_round_nonneg_valid F64.prec F64.emax F64_prec_pos mq eq)
      as [Hnn64 Hv64].
    destruct (binary_round F64.prec F64.emax false mq eq) as [s|s| |s m e];
      try contradiction.
    + destruct s; split; reflexivity.
    + destruct s; [contradiction|discriminate Hle64].
    + destruct s; [contradiction|].
      apply valid_finite_canonical in Hv64 as [Hc64 _].
      pose proof (SFmul_mono F64.prec F64.emax F64_prec_pos F64_prec_emax
                    m e 4503599627370496%positive (-52)%Z 6369051672525773%positive (-57)%Z
                    Hc64 H1c Hsc Hle64) as Hp.
      rewrite H1s in Hp.
      destruct (SFmul_nonneg_valid F64.prec F64.emax F64_prec_pos F64_prec_emax m e
                  6369051672525773%positive (-57)%Z Hc64 Hsc) as [Hnnp Hvp].
      unfold F64.mul.
      destruct (SFmul F64.prec F64.emax (S754_finite false m e)
                  (S754_finite false 6369051672525773%positive (-57)%Z)) as [s|s| |s mp ep];
        try contradiction.
      * destruct s; split; reflexivity.
      * destruct s; [contradiction|discriminate Hp].
      * destruct s; [contradiction|].
        apply valid_finite_canonical in Hvp as [Hcp _].
        cbn [F32.of_float]. split.
        -- apply SFleb_zero_nonneg.
           apply (binary_round_nonneg_valid F32.prec F32.emax F32_prec_pos).
        -- rewrite <- Hb. cbn [F32.of_float].
           apply (binary_round_mono F32.prec F32.emax F32_prec_pos F32_prec_emax
                    _ _ _ _ (Z.min ep (-57))); [lia..|].
           apply (float_le_value F64.prec F64.emax F64_prec_pos mp ep
                    6369051672525773%positive (-57)%Z (Z.min ep (-57)) Hcp Hsc Hp);
             lia.
Qed.

Lemma xavier_range (P : Platform) (r : Z) :
  1 <= RAND_MAX P < 2 ^ 31 -> 0 <= r <= RAND_MAX P ->
  F32.leb F32.zero (xavier P r NUM_FEATURES) = true /\
  F32.leb (xavier P r NUM_FEATURES) xavier_bound = true.
Proof.
  intros HR Hr. unfold xavier. fold xavier_scale.
  pose proof (F32_div_of_Z_unit r (RAND_MAX P) Hr HR) as Hu.
  apply andb_true_iff in Hu as [Hu0 Hu1].
  destruct (F32_of_Z_finite (RAND_MAX P) HR) as (my & ey & Hy & Hcy).
  assert (nonneg_float (F32.div (F32.of_Z r) (F32.of_Z (RAND_MAX P))) /\
          F32.valid (F32.div (F32.of_Z r) (F32.of_Z (RAND_MAX P))) = true) as [Hnn Hv].
  { rewrite Hy. destruct (Z.eq_dec r 0) as [->|Hr0]; [split; reflexivity|].
    destruct (F32_of_Z_finite r ltac:(lia)) as (mx & ex & -> & Hcx).
    apply (SFdiv_nonneg_valid F32.prec F32.emax F32_prec_pos).
    by apply (canonical_mantissa_iff F32.prec F32.emax F32_prec_pos) in Hcx as [? _]. }
  by apply scaled_unit_range.
Qed.

(** X22.  [init_weights] writes all the [num_features * num_features] weights,
    whatever the block held, and with [NUM_FEATURES] features every one
    of them lies between 0 and [sqrt(2 / 1024)]: no weight is negative. *)
Theorem init_weights_range (P : Platform) (rand : nat -> Z) (weights : list F32.t)
    (i : nat) :
  1 <= RAND_MAX P < 2 ^ 31 ->
  (forall k, 0 <= rand k <= RAND_MAX P) ->
  (NUM_FEATURES * NUM_FEATURES <= length weights)%nat ->
  (i < NUM_FEATURES * NUM_FEATURES)%nat ->
  init_weights P rand weights NUM_FEATURES !! i =
    Some (xavier P (rand i) NUM_FEATURES) /\
  F32.leb F32.zero (xavier P (rand i) NUM_FEATURES) = true /\
  F32.leb (xavier P (rand i) NUM_FEATURES) xavier_bound = true /\
  xavier_bound = S754_finite false 11863283 (-28).
Proof.
  intros HR Hrand Hlen Hi. split; [|split; [|split]].
  - unfold init_weights.
    rewrite (for_loop_fill (fun i => xavier P (rand i) NUM_FEATURES)) by done.
    rewrite lookup_app_l by (by rewrite length_map, length_seq).
    rewrite list_lookup_fmap, lookup_seq_lt by done. reflexivity.
  - apply (xavier_range P (rand i) HR (Hrand i)).
  - apply (xavier_range P (rand i) HR (Hrand i)).
  - apply xavier_scale_eq.
Qed.

Lemma init_weights_range_witness :
  init_weights sample_platform (fun _ => 5)
    (replicate (NUM_FEATURES * NUM_FEATURES) S754_nan) NUM_FEATURES !! 5%nat =
    Some (xavier sample_platform 5 NUM_FEATURES) /\
  F32.leb F32.zero (xavier sample_platform 5 NUM_FEATURES) = true /\
  F32.leb (xavier sample_platform 5 NUM_FEATURES) xavier_bound = true.
Proof.
  destruct (init_weights_range sample_platform (fun _ => 5)
              (replicate (NUM_FEATURES * NUM_FEATURES) S754_nan) 5)
    as (H1 & H2 & H3 & _).
  - cbn [RAND_MAX sample_platform]. lia.
  - intros k. cbn [RAND_MAX sample_platform]. lia.
  - by rewrite length_replicate.
  - unfold NUM_FEATURES. lia.
  - split; [exact H1|]. split; [exact H2|exact H3].
Defined.

(** ** The value of a byte *)

Lemma float_eqb_refl (x : spec_float) : float_eqb x x = true.
Proof.
  destruct x as [s|s| |s m e]; simpl; try apply eqb_reflx; try reflexivity.
  by rewrite eqb_reflx, Pos.eqb_refl, Z.eqb_refl.
Qed.

Lemma all_bytes_complete (c : byte) : In c all_bytes.
Proof.
  apply list_elem_of_In, list_elem_of_omap.
  exists (N.to_nat (Byte.to_N c)). split.
  - apply elem_of_seq. pose proof (Byte.to_N_bounded c). lia.
  - rewrite N2Nat.id. apply Byte.of_to_N.
Qed.

Lemma injective_on_spec (f : byte -> spec_float) (l : list byte) (c c' : byte) :
  injective_on f l = true -> In c l -> In c' l -> f c = f c' -> c = c'.
Proof.
  unfold injective_on. intros H Hc Hc' Heq.
  apply (in_map (fun c => (c, f c))) in Hc, Hc'.
  pose proof (proj1 (forallb_forall _ _) H _ Hc) as H1. cbv beta in H1.
  pose proof (proj1 (forallb_forall _ _) H1 _ Hc') as H2.
  cbn [fst snd] in H2. rewrite Heq, float_eqb_refl in H2.
  by apply byte_dec_bl.
Qed.

Lemma embed_value_injective :
  injective_on (embed_value false) all_bytes = true /\
  injective_on (embed_value true) all_bytes = true.
Proof. split; vm_compute; reflexivity. Qed.

(** X23.  Two different bytes never have the same value in the matrix,
    whether [char] is signed or not: the text of a row can be read back
    from its cells. *)
Theorem embed_char_injective (P : Platform) (c c' : byte) :
  embed_char P c = embed_char P c' <-> c = c'.
Proof.
  split; [|by intros ->].
  change (embed_char P) with (embed_value (char_is_signed P)).
  destruct embed_value_injective as [Hu Hs].
  destruct (char_is_signed P);
    apply (injective_on_spec _ all_bytes); auto using all_bytes_complete.
Qed.

(** ** The activation and the threshold *)

Lemma SFleb_finite_iff (m : positive) (e : Z) (m' : positive) (e' : Z) :
  SFleb (S754_finite false m e) (S754_finite false m' e') = true <->
  e < e' \/ (e = e' /\ Zpos m <= Zpos m').
Proof.
  unfold SFleb, SFcompare.
  destruct (Z.compare_spec e e') as [->|Hlt|Hgt].
  - change (Pos.compare_cont Eq m m') with (Pos.compare m m').
    rewrite Pos2Z.inj_compare.
    destruct (Z.compare_spec (Zpos m) (Zpos m')) as [H|H|H]; split; intros H';
      try done; try (right; split; [done|lia]); destruct H' as [?|[_ ?]]; lia.
  - split; [auto|done].
  - split; [done|]. intros [?|[? _]]; lia.
Qed.

Lemma SFltb_finite_iff (m : positive) (e : Z) (m' : positive) (e' : Z) :
  SFltb (S754_finite false m e) (S754_finite false m' e') = true <->
  e < e' \/ (e = e' /\ Zpos m < Zpos m').
Proof.
  unfold SFltb, SFcompare.
  destruct (Z.compare_spec e e') as [->|Hlt|Hgt].
  - change (Pos.compare_cont Eq m m') with (Pos.compare m m').
    rewrite Pos2Z.inj_compare.
    destruct (Z.compare_spec (Zpos m) (Zpos m')) as [H|H|H]; split; intros H';
      try done; try (right; split; [done|lia]); destruct H' as [?|[_ ?]]; lia.
  - split; [auto|done].
  - split; [done|]. intros [?|[? _]]; lia.
Qed.

Lemma activation_at_limit :
  activation positive_limit = S754_finite false 10066331 (-24) /\
  activation above_limit = S754_finite false 10066330 (-24) /\
  threshold = S754_finite false 10066330 (-24) /\
  F32.valid positive_limit = true /\ F32.valid above_limit = true.
Proof. vm_compute. auto. Qed.

(** A float in [[0, 1]] is a zero or a positive finite float. *)
Lemma unit_interval_cases (a : F32.t) :
  in_unit_interval a = true ->
  (exists s, a = S754_zero s) \/ (exists m e, a = S754_finite false m e).
Proof.
  unfold in_unit_interval. intros H. apply andb_true_iff in H as [H0 H1].
  destruct a as [s|s| |s m e]; try discriminate; [eauto| |].
  - destruct s; discriminate.
  - destruct s; [discriminate|eauto].
Qed.

Lemma limit_discrete (e : F32.t) :
  nonneg_float e -> F32.leb e positive_limit = false ->
  F32.leb above_limit e = true.
Proof.
  unfold F32.leb, positive_limit, above_limit.
  destruct e as [s|s| |s m x]; try contradiction.
  - destruct s; discriminate.
  - destruct s; [contradiction|reflexivity].
  - destruct s; [contradiction|]. intros _ Hle. apply SFleb_finite_iff.
    destruct (Z.lt_trichotomy x (-24)) as [H|[H|H]].
    + rewrite (proj2 (SFleb_finite_iff m x 11184809 (-24))) in Hle by auto.
      discriminate Hle.
    + subst x. destruct (Z.le_gt_cases (Zpos m) 11184809) as [Hm|Hm].
      * rewrite (proj2 (SFleb_finite_iff m (-24) 11184809 (-24))) in Hle
          by (right; split; [reflexivity|lia]).
        discriminate Hle.
      * right. split; [reflexivity|lia].
    + left. exact H.
Qed.

Lemma above_threshold (a : F32.t) :
  in_unit_interval a = true ->
  F32.leb (S754_finite false 10066331 (-24)) a = true ->
  F32.ltb (S754_finite false 10066330 (-24)) a = true.
Proof.
  intros Hu Hle. destruct (unit_interval_cases a Hu) as [[s ->]|(m & x & ->)].
  - destruct s; discriminate Hle.
  - clear Hu. unfold F32.leb in Hle. apply SFleb_finite_iff in Hle.
    apply SFltb_finite_iff. lia.
Qed.

Lemma below_threshold (a : F32.t) :
  in_unit_interval a = true ->
  F32.leb a (S754_finite false 10066330 (-24)) = true ->
  F32.ltb (S754_finite false 10066330 (-24)) a = false.
Proof.
  intros Hu Hle. destruct (unit_interval_cases a Hu) as [[s ->]|(m & x & ->)].
  - destruct s; reflexivity.
  - clear Hu. unfold F32.leb in Hle. apply SFleb_finite_iff in Hle.
    destruct (F32.ltb (S754_finite false 10066330 (-24)) (S754_finite false m x))
      eqn:Hlt; [|reflexivity].
    unfold F32.ltb in Hlt. apply SFltb_finite_iff in Hlt. lia.
Qed.

Lemma predicted_positive_iff (e : F32.t) :
  F32.valid e = true -> nonneg_float e ->
  (F32.leb e positive_limit = true -> predicted_label (activation e) = 4) /\
  (F32.leb e positive_limit = false ->
   F32.leb above_limit e = true /\ predicted_label (activation e) = 0).
Proof.
  intros Hv Hnn.
  destruct activation_at_limit as (Ha0 & Ha1 & Ht & Hv0 & Hv1).
  pose proof (activation_unit e Hv Hnn) as Hu.
  unfold predicted_label. rewrite Ht. split.
  - intros Hle.
    pose proof (activation_antitone positive_limit e Hv0 I Hv Hnn Hle) as Hanti.
    rewrite Ha0 in Hanti. by rewrite (above_threshold _ Hu Hanti).
  - intros Hle. pose proof (limit_discrete e Hnn Hle) as Hge.
    split; [exact Hge|].
    pose proof (activation_antitone e above_limit Hv Hnn Hv1 I Hge) as Hanti.
    rewrite Ha1 in Hanti. by rewrite (below_threshold _ Hu Hanti).
Qed.

(** X24.  A sample is predicted positive exactly when [expf(-score)] is at most
    the float 11184809 / 2^24, about two thirds, and negative exactly
    when it is greater. *)
Theorem sigmoid_predicts_positive_iff (P : Platform) (x : F32.t) :
  F32.valid (expf P (F32.opp x)) = true -> nonneg_float (expf P (F32.opp x)) ->
  (predicted_label (sigmoid P x) = 4 <->
   F32.leb (expf P (F32.opp x)) positive_limit = true) /\
  (predicted_label (sigmoid P x) = 0 <->
   F32.leb (expf P (F32.opp x)) positive_limit = false).
Proof.
  intros Hv Hnn. rewrite sigmoid_activation.
  destruct (predicted_positive_iff _ Hv Hnn) as [Hpos Hneg].
  destruct (F32.leb (expf P (F32.opp x)) positive_limit) eqn:Hle.
  - rewrite (Hpos eq_refl). split; split; intros H; (reflexivity || discriminate H).
  - rewrite (proj2 (Hneg eq_refl)). split; split; intros H; (reflexivity || discriminate H).
Qed.

Lemma sigmoid_predicts_positive_iff_witness :
  (predicted_label (sigmoid sample_platform f_one) = 4 <->
   F32.leb (expf sample_platform (F32.opp f_one)) positive_limit = true) /\
  (predicted_label (sigmoid sample_platform f_one) = 0 <->
   F32.leb (expf sample_platform (F32.opp f_one)) positive_limit = false).
Proof.
  apply (sigmoid_predicts_positive_iff sample_platform f_one); vm_compute; reflexivity.
Defined.

(** ** The size of the training set grows with the dataset *)

Lemma F64_of_Z_finite (n : Z) :
  1 <= n < 2 ^ 31 ->
  exists m e, F64.of_Z n = S754_finite false m e /\
              canonical_mantissa F64.prec F64.emax m e = true.
Proof.
  intros Hn. rewrite F64_of_Z_exact by lia.
  pose proof (binary_normalize_nonneg_valid F64.prec F64.emax F64_prec_pos n
                ltac:(lia)) as [_ Hv].
  fold (F64.of_Z n) in Hv. rewrite F64_of_Z_exact in Hv by lia.
  eexists _, _. split; [reflexivity|].
  by apply valid_finite_canonical in Hv as [Hv _].
Qed.

Lemma F64_to_Z_scaled (m : positive) (e c : Z) :
  c <= e -> c <= 0 ->
  F64.to_Z (S754_finite false m e) = (Zpos m * 2 ^ (e - c)) / 2 ^ (- c).
Proof.
  intros Hce Hc. pose proof (pow2_pos (- c) ltac:(lia)) as Pc.
  destruct (Z.lt_ge_cases e 0) as [He|He].
  - rewrite F64_to_Z_neg by done.
    replace (- c) with (- e + (e - c)) by lia. rewrite pow2_split by lia.
    pose proof (pow2_pos (e - c) ltac:(lia)). pose proof (pow2_pos (- e) ltac:(lia)).
    by rewrite Z.div_mul_cancel_r by lia.
  - assert (F64.to_Z (S754_finite false m e) = Zpos m * 2 ^ e) as ->.
    { unfold F64.to_Z. destruct e as [|p|p]; try lia;
        by rewrite Z.shiftl_mul_pow2. }
    replace (e - c) with (e + - c) by lia. rewrite pow2_split by lia.
    by rewrite Z.mul_assoc, Z.div_mul by lia.
Qed.

Lemma F64_to_Z_mono (m : positive) (e : Z) (m' : positive) (e' : Z) :
  canonical_mantissa F64.prec F64.emax m e = true ->
  canonical_mantissa F64.prec F64.emax m' e' = true ->
  SFleb (S754_finite false m e) (S754_finite false m' e') = true ->
  F64.to_Z (S754_finite false m e) <= F64.to_Z (S754_finite false m' e').
Proof.
  intros Hc Hc' Hle. set (c := Z.min 0 (Z.min e e')).
  rewrite (F64_to_Z_scaled m e c), (F64_to_Z_scaled m' e' c) by (unfold c; lia).
  apply Z.div_le_mono; [apply pow2_pos; unfold c; lia|].
  apply (float_le_value F64.prec F64.emax F64_prec_pos); try assumption; unfold c; lia.
Qed.

Lemma product_limit :
  canonical_mantissa F64.prec F64.emax 6305039478318694 (-53) = true /\
  F64.of_Z (2 ^ 31) = S754_finite false 4503599627370496 (-21) /\
  F64.mul (S754_finite false 4503599627370496 (-21))
    (S754_finite false 6305039478318694 (-53)) =
    S754_finite false 6305039478318694 (-22).
Proof. vm_compute. auto. Qed.

(** The product [N * 0.7] is a zero or a valid positive [double]. *)
Lemma train_product_finite (N : Z) :
  1 <= N < 2 ^ 31 ->
  exists mn en,
    F64.of_Z N = S754_finite false mn en /\
    canonical_mantissa F64.prec F64.emax mn en = true /\
    ((exists s, F64.mul (F64.of_Z N) (F64.literal 7 10) = S754_zero s) \/
     exists m e, F64.mul (F64.of_Z N) (F64.literal 7 10) = S754_finite false m e /\
                 canonical_mantissa F64.prec F64.emax m e = true).
Proof.
  intros HN. destruct product_limit as (Hlc & H31 & Hp31).
  destruct (F64_of_Z_finite N HN) as (mn & en & Hn & Hcn).
  exists mn, en. split; [exact Hn|]. split; [exact Hcn|].
  pose proof (binary_normalize_mono F64.prec F64.emax F64_prec_pos F64_prec_emax
                N (2 ^ 31) ltac:(lia)) as Hle.
  fold (F64.of_Z N) (F64.of_Z (2 ^ 31)) in Hle. rewrite Hn, H31 in Hle.
  assert (canonical_mantissa F64.prec F64.emax 4503599627370496 (-21) = true) as Hc31
    by reflexivity.
  pose proof (SFmul_mono F64.prec F64.emax F64_prec_pos F64_prec_emax mn en
                4503599627370496%positive (-21)%Z 6305039478318694%positive (-53)%Z
                Hcn Hc31 Hlc Hle) as Hmono.
  fold (F64.mul (S754_finite false 4503599627370496 (-21))
          (S754_finite false 6305039478318694 (-53))) in Hmono.
  rewrite Hp31 in Hmono.
  destruct (SFmul_nonneg_valid F64.prec F64.emax F64_prec_pos F64_prec_emax mn en
              6305039478318694%positive (-53)%Z Hcn Hlc) as [Hnn Hv].
  rewrite Hn, F64_literal_7_10. unfold F64.mul.
  destruct (SFmul F64.prec F64.emax (S754_finite false mn en)
              (S754_finite false 6305039478318694 (-53))) as [s|s| |s m e];
    try contradiction.
  - left. eauto.
  - destruct s; [contradiction|discriminate Hmono].
  - destruct s; [contradiction|]. right. exists m, e. split; [reflexivity|].
    by apply valid_finite_canonical in Hv as [Hv _].
Qed.

(** X25.  A dataset with more samples never has a smaller training set. *)
Theorem train_size_monotone (N M : Z) :
  0 <= N <= M -> M < 2 ^ 31 -> train_size N <= train_size M.
Proof.
  intros HNM HM.
  destruct (Z.eq_dec N 0) as [->|HN0].
  { change (train_size 0) with 0. apply (train_size_range M). lia. }
  destruct product_limit as (Hlc & _ & _).
  destruct (train_product_finite N ltac:(lia)) as (mn & en & Hn & Hcn & HpN).
  destruct (train_product_finite M ltac:(lia)) as (mm & em & Hm & Hcm & HpM).
  pose proof (binary_normalize_mono F64.prec F64.emax F64_prec_pos F64_prec_emax
                N M ltac:(lia)) as Hle.
  fold (F64.of_Z N) (F64.of_Z M) in Hle. rewrite Hn, Hm in Hle.
  pose proof (SFmul_mono F64.prec F64.emax F64_prec_pos F64_prec_emax mn en mm em
                6305039478318694%positive (-53)%Z Hcn Hcm Hlc Hle) as Hmono.
  unfold train_size.
  rewrite Hn, Hm, F64_literal_7_10 in *. unfold F64.mul in *.
  destruct HpN as [[s HzN]|(m & e & HfN & Hc)].
  - rewrite HzN.
    assert (F64.to_Z (S754_zero s) = 0) as -> by reflexivity.
    destruct HpM as [[s' ->]|(m' & e' & -> & Hc')]; [reflexivity|].
    rewrite (F64_to_Z_scaled m' e' (Z.min 0 e')) by lia.
    apply Z.div_pos; [|apply pow2_pos; lia].
    pose proof (pow2_pos (e' - Z.min 0 e') ltac:(lia)). lia.
  - rewrite HfN in Hmono |- *.
    destruct HpM as [[s' Hz]|(m' & e' & Hf & Hc')].
    + rewrite Hz in Hmono. destruct s'; discriminate Hmono.
    + rewrite Hf in Hmono |- *. by apply F64_to_Z_mono.
Qed.

Lemma train_size_monotone_witness : train_size 89 <= train_size 90.
Proof. apply (train_size_monotone 89 90); lia. Defined.
